(** * Chanjo backend: reminder materialization and delivery

    A shallow embedding of the reminder engine of the Chanjo backend:
    the age parser [parseAgeToDays], the three routes that write reminder
    records ([POST /api/baby], [PUT /api/baby/:id/birth-date],
    [POST /api/reminder/:babyId]), the daily and weekly cron handlers, the
    administered-vaccine routes and the reminder read route.

    Conventions of the model.
    - JavaScript strings are Rocq strings (bytes); the en dash of the range
      pattern is its three-byte UTF-8 encoding.  White space and letter case
      are the ASCII ones.
    - JavaScript numbers are exact rationals kept in lowest terms, plus
      [NaN]; this agrees with IEEE doubles as long as every intermediate
      value is a multiple of 1/2 below 2^53.
    - A [Date] is its time value: milliseconds since the epoch, or invalid.
      Local time is UTC shifted by a fixed offset [tz] (no daylight saving).
      A handler reads the clock once: [now] is a parameter.
    - DynamoDB tables are finite maps keyed by their primary key.  The
      store answers every request: a query returns all matching items in one
      page, and the requests of a batch are applied in order.
    - [transporter.sendMail] either resolves or rejects; which messages it
      rejects is a parameter of the cron handlers.
    - [uuidv4()] draws from a sequence of identifiers, a parameter of the
      routes that use it. *)

From Stdlib Require Import ZArith QArith Qround String Ascii List Lia Bool.
From stdpp Require Import gmap strings list fin_maps sorting.

Local Open Scope string_scope.
Local Open Scope Z_scope.

(** ** JavaScript numbers *)

Module Js.

Inductive number : Type :=
| Num (q : Q)
| NaN.

Definition of_Z (z : Z) : number := Num (inject_Z z).

Definition add (a b : number) : number :=
  match a, b with
  | Num x, Num y => Num (Qred (x + y))
  | _, _ => NaN
  end.

Definition sub (a b : number) : number :=
  match a, b with
  | Num x, Num y => Num (Qred (x - y))
  | _, _ => NaN
  end.

Definition mul (a b : number) : number :=
  match a, b with
  | Num x, Num y => Num (Qred (x * y))
  | _, _ => NaN
  end.

(** Division by a nonzero constant (the only use in the source). *)
Definition div (a b : number) : number :=
  match a, b with
  | Num x, Num y => Num (Qred (x / y))
  | _, _ => NaN
  end.

(** [a >= b]; every comparison with [NaN] is false. *)
Definition geb (a b : number) : bool :=
  match a, b with
  | Num x, Num y => Qle_bool y x
  | _, _ => false
  end.

(** ToIntegerOrInfinity on a finite number: truncation toward zero. *)
Definition trunc (q : Q) : Z :=
  if Qle_bool 0 q then Qfloor q else Qceiling q.

(** *** Character classes of the regular expressions *)

Definition code (c : ascii) : nat := nat_of_ascii c.

Definition is_digit (c : ascii) : bool :=
  ((48 <=? code c) && (code c <=? 57))%nat.

Definition is_upper (c : ascii) : bool :=
  ((65 <=? code c) && (code c <=? 90))%nat.

Definition is_lower (c : ascii) : bool :=
  ((97 <=? code c) && (code c <=? 122))%nat.

(** [\w] *)
Definition is_word (c : ascii) : bool :=
  is_digit c || is_upper c || is_lower c || (code c =? 95)%nat.

(** [\s], ASCII part: tab, line feed, vertical tab, form feed, carriage
    return, space. *)
Definition is_space (c : ascii) : bool :=
  ((9 <=? code c) && (code c <=? 13))%nat || (code c =? 32)%nat.

Definition lower_char (c : ascii) : ascii :=
  if is_upper c then ascii_of_nat (code c + 32) else c.

Fixpoint toLowerCase (s : string) : string :=
  match s with
  | EmptyString => EmptyString
  | String c s' => String (lower_char c) (toLowerCase s')
  end.

Fixpoint trimStart (s : string) : string :=
  match s with
  | String c s' => if is_space c then trimStart s' else s
  | EmptyString => EmptyString
  end.

Fixpoint trimEnd (s : string) : string :=
  match s with
  | EmptyString => EmptyString
  | String c s' =>
      match trimEnd s' with
      | EmptyString => if is_space c then EmptyString else String c EmptyString
      | t => String c t
      end
  end.

Definition trim (s : string) : string := trimEnd (trimStart s).

Definition is_empty (s : string) : bool :=
  match s with EmptyString => true | _ => false end.

Fixpoint all_chars (p : ascii -> bool) (s : string) : bool :=
  match s with
  | EmptyString => true
  | String c s' => p c && all_chars p s'
  end.

(** Longest prefix of characters satisfying [p], and the rest. *)
Fixpoint span (p : ascii -> bool) (s : string) : string * string :=
  match s with
  | String c s' =>
      if p c then let '(a, b) := span p s' in (String c a, b)
      else (EmptyString, s)
  | EmptyString => (EmptyString, EmptyString)
  end.

(** Splits off the last character. *)
Fixpoint unsnoc (s : string) : option (string * ascii) :=
  match s with
  | EmptyString => None
  | String c s' =>
      match unsnoc s' with
      | None => Some (EmptyString, c)
      | Some (i, l) => Some (String c i, l)
      end
  end.

(** [parseInt(s, 10)] on a string of decimal digits. *)
Definition digit_val (c : ascii) : Z := Z.of_nat (code c) - 48.

Fixpoint parseInt_from (acc : Z) (s : string) : Z :=
  match s with
  | EmptyString => acc
  | String c s' => parseInt_from (10 * acc + digit_val c) s'
  end.

Definition parseInt (s : string) : number := of_Z (parseInt_from 0 s).

End Js.

Export Js(number, Num, NaN).

(** ** Schedule offset calculator: [parseAgeToDays] *)

(** What [unitMap[unit]] evaluates to.  [unitMap] is an object literal, so a
    lookup also finds the names inherited from [Object.prototype]; those are
    objects or functions, truthy, and turn the product into [NaN]. *)
Inductive unit_lookup : Type :=
| Own (days : Z)
| Inherited
| Undefined.

Definition inherited_names : list string :=
  [ "constructor"; "__proto__"; "hasOwnProperty"; "isPrototypeOf";
    "propertyIsEnumerable"; "toLocaleString"; "toString"; "valueOf";
    "__defineGetter__"; "__defineSetter__"; "__lookupGetter__";
    "__lookupSetter__" ].

Definition unitMap (unit : string) : unit_lookup :=
  if String.eqb unit "week" then Own 7
  else if String.eqb unit "weeks" then Own 7
  else if String.eqb unit "month" then Own 30
  else if String.eqb unit "months" then Own 30
  else if String.eqb unit "year" then Own 365
  else if String.eqb unit "years" then Own 365
  else if existsb (String.eqb unit) inherited_names then Inherited
  else Undefined.

(** [unitMap[unit] || 0], as the factor of the multiplication. *)
Definition unitDays (unit : string) : number :=
  match unitMap unit with
  | Own d => Js.of_Z d
  | Inherited => NaN
  | Undefined => Js.of_Z 0
  end.

(** The dash of [[–-]]: a hyphen, or an en dash (E2 80 93). *)
Definition strip_dash (s : string) : option string :=
  match s with
  | String c s' =>
      if (Js.code c =? 45)%nat then Some s'
      else
        match s' with
        | String c2 (String c3 s'') =>
            if ((Js.code c =? 226) && (Js.code c2 =? 128) && (Js.code c3 =? 147))%nat
            then Some s'' else None
        | _ => None
        end
  | EmptyString => None
  end.

(** [(\d+)\s*(\w+)$] anchored at the start of [s].  The digits and the white
    space are taken greedily; when nothing is left for [\w+] the matcher
    backtracks and hands the last digit to [\w+] (a digit is a word
    character), which needs two digits at least. *)
Definition match_num_unit (s : string) : option (string * string) :=
  let '(ds, r) := Js.span Js.is_digit s in
  if Js.is_empty ds then None
  else
    let '(_, u) := Js.span Js.is_space r in
    if negb (Js.is_empty u) && Js.all_chars Js.is_word u then Some (ds, u)
    else
      if Js.is_empty r then
        match Js.unsnoc ds with
        | Some (String c i, l) => Some (String c i, String l EmptyString)
        | _ => None
        end
      else None.

(** [singleRegex = /^(\d+)\s*(\w+)$/] *)
Definition singleRegex (s : string) : option (string * string) :=
  match_num_unit s.

(** [rangeRegex = /^(\d+)[–-](\d+)\s*(\w+)$/] *)
Definition rangeRegex (s : string) : option (string * string * string) :=
  let '(d1, r) := Js.span Js.is_digit s in
  if Js.is_empty d1 then None
  else
    match strip_dash r with
    | None => None
    | Some r' =>
        match match_num_unit r' with
        | Some (d2, u) => Some (d1, d2, u)
        | None => None
        end
    end.

Definition parseAgeToDays (ageStr : string) : number :=
  let ageStr := Js.toLowerCase (Js.trim ageStr) in
  if String.eqb ageStr "birth" then Js.of_Z 0
  else
    match rangeRegex ageStr with
    | Some (start, end_, unit) =>
        let avg := Js.div (Js.add (Js.parseInt start) (Js.parseInt end_)) (Js.of_Z 2) in
        Js.mul avg (unitDays unit)
    | None =>
        match singleRegex ageStr with
        | Some (num, unit) => Js.mul (Js.parseInt num) (unitDays unit)
        | None => Js.of_Z 0
        end
    end.

(** ** JavaScript dates *)

Module JsDate.

Definition msPerHour : Z := 3600000.
Definition msPerDay : Z := 86400000.

(** The time value of a [Date] object; [None] is the invalid date. *)
Definition Date : Type := option Z.

Definition TimeClip (t : Z) : Date :=
  if Z.abs t <=? 8640000000000000 then Some t else None.

Definition Day (t : Z) : Z := t / msPerDay.
Definition TimeWithinDay (t : Z) : Z := t mod msPerDay.

(** Year, month (1 to 12) and day of month (1 to 31) of a day number, in
    the proleptic Gregorian calendar; day 0 is 1970-01-01. *)
Definition civil (day : Z) : Z * Z * Z :=
  let z := day + 719468 in
  let era := z / 146097 in
  let doe := z mod 146097 in
  let yoe := (doe - doe / 1460 + doe / 36524 - doe / 146096) / 365 in
  let doy := doe - (365 * yoe + yoe / 4 - yoe / 100) in
  let mp := (5 * doy + 2) / 153 in
  let d := doy - (153 * mp + 2) / 5 + 1 in
  let m := if mp <? 10 then mp + 3 else mp - 9 in
  let y := yoe + era * 400 + (if m <=? 2 then 1 else 0) in
  (y, m, d).

Definition YearFromTime (t : Z) : Z := fst (fst (civil (Day t))).
Definition MonthFromTime (t : Z) : Z := snd (fst (civil (Day t))) - 1.
Definition DateFromTime (t : Z) : Z := snd (civil (Day t)).
Definition WeekDay (t : Z) : Z := (Day t + 4) mod 7.

(** The day number of the first day of the month [t] lies in: what
    [MakeDay(YearFromTime(t), MonthFromTime(t), 1)] is. *)
Definition firstOfMonth (t : Z) : Z := Day t - (DateFromTime t - 1).

(** [MakeDay(YearFromTime(t), MonthFromTime(t), dt)] *)
Definition MakeDay (t : Z) (dt : number) : option Z :=
  match dt with
  | Num q => Some (firstOfMonth t + Js.trunc q - 1)
  | NaN => None
  end.

Definition MakeDate (day time : Z) : Z := day * msPerDay + time.

(** *** Rendering *)

Definition digit_char (n : Z) : ascii := ascii_of_nat (Z.to_nat (48 + n mod 10)).

(** [n] in decimal, on [w] digits, padded with zeros. *)
Fixpoint pad (w : nat) (n : Z) : string :=
  match w with
  | O => EmptyString
  | S w' => pad w' (n / 10) ++ String (digit_char n) EmptyString
  end.

(** The year of [toISOString]: four digits, or a sign and six digits. *)
Definition isoYear (y : Z) : string :=
  if (0 <=? y) && (y <=? 9999) then pad 4 y
  else (if 0 <=? y then "+" else "-") ++ pad 6 (Z.abs y).

(** [toISOString().split("T")[0]] of a valid time value. *)
Definition isoDate (t : Z) : string :=
  let '(y, m, d) := civil (Day t) in
  isoYear y ++ "-" ++ pad 2 m ++ "-" ++ pad 2 d.

Definition isoTime (t : Z) : string :=
  let ms := TimeWithinDay t in
  pad 2 (ms / msPerHour) ++ ":" ++ pad 2 (ms / 60000 mod 60) ++ ":"
    ++ pad 2 (ms / 1000 mod 60) ++ "." ++ pad 3 (ms mod 1000).

Definition toISOString (t : Z) : string := isoDate t ++ "T" ++ isoTime t ++ "Z".

Definition dayName (wd : Z) : string :=
  nth (Z.to_nat wd) ["Sun"; "Mon"; "Tue"; "Wed"; "Thu"; "Fri"; "Sat"] "".

Definition monthName (m : Z) : string :=
  nth (Z.to_nat m)
    ["Jan"; "Feb"; "Mar"; "Apr"; "May"; "Jun"; "Jul"; "Aug"; "Sep"; "Oct"; "Nov"; "Dec"] "".

Definition paddedYear (y : Z) : string :=
  (if 0 <=? y then "" else "-")
    ++ (let a := Z.abs y in
        if a <? 10000 then pad 4 a else if a <? 100000 then pad 5 a else pad 6 a).

Section Local.

(** Offset of local time from UTC, in milliseconds. *)
Variable tz : Z.

Definition LocalTime (t : Z) : Z := t + tz.
Definition UTC (t : Z) : Z := t - tz.

Definition getTime (d : Date) : number :=
  match d with Some t => Js.of_Z t | None => NaN end.

Definition getDate (d : Date) : number :=
  match d with
  | Some t => Js.of_Z (DateFromTime (LocalTime t))
  | None => NaN
  end.

Definition setDate (d : Date) (dt : number) : Date :=
  match d with
  | None => None
  | Some t =>
      let t := LocalTime t in
      match MakeDay t dt with
      | Some day => TimeClip (UTC (MakeDate day (TimeWithinDay t)))
      | None => None
      end
  end.

(** [setHours(h, 0, 0, 0)] *)
Definition setHours (d : Date) (h : Z) : Date :=
  match d with
  | None => None
  | Some t =>
      let t := LocalTime t in
      TimeClip (UTC (MakeDate (Day t) (h * msPerHour)))
  end.

(** [toDateString()] of a valid time value, e.g. "Wed Jun 04 2025". *)
Definition toDateString (t : Z) : string :=
  let t := LocalTime t in
  let '(y, m, d) := civil (Day t) in
  dayName (WeekDay t) ++ " " ++ monthName (m - 1) ++ " " ++ pad 2 d ++ " " ++ paddedYear y.

End Local.

(** [a <= b] and [a > b] on dates: comparisons of the time values, false
    when one of them is invalid. *)
Definition leb (a b : Date) : bool :=
  match a, b with Some x, Some y => x <=? y | _, _ => false end.

Definition ltb (a b : Date) : bool :=
  match a, b with Some x, Some y => x <? y | _, _ => false end.

Definition gtb (a b : Date) : bool := ltb b a.

End JsDate.

Export JsDate(Date, msPerDay, msPerHour).

(** ** Data model *)

Inductive Cadence : Type := daily | weekly.

Global Instance Cadence_eq_dec : EqDecision Cadence.
Proof. solve_decision. Defined.

(** The [type] attribute of a reminder. *)
Definition cadenceTag (c : Cadence) : string :=
  match c with daily => "daily" | weekly => "weekly" end.

(** An item of the [vaccination_schedule] table. *)
Record ScheduleEntry : Type := mkEntry {
  age : string;
  entryVaccine : string
}.

(** An item of the [reminders] table.  [vaccination_date] and [scheduled_at]
    are stored as ISO strings; the model keeps their time values, which
    compare as the strings do for years 0000 to 9999.  [sent] is the string
    "true" or "false". *)
Record Reminder : Type := mkReminder {
  reminderId : string;
  motherId : string;
  babyId : string;
  vaccine : string;
  vaccination_date : Z;
  scheduled_at : Z;
  sent : bool;
  type : Cadence
}.

Definition markedSent (r : Reminder) : Reminder :=
  mkReminder (reminderId r) (motherId r) (babyId r) (vaccine r)
    (vaccination_date r) (scheduled_at r) true (type r).

(** An entry of a baby's [administered] list; the entries appended by the
    init route carry only [vaccine] and [date]. *)
Record AdministeredEntry : Type := mkAdministered {
  entryId : option string;
  admVaccine : string;
  admDate : string;
  markedAt : option Z;
  source : option string
}.

(** An item of the [babies] table; an attribute may be absent. *)
Record Baby : Type := mkBaby {
  babyName : option string;
  motherUserId : option string;
  dateOfBirth : Date;
  administered : option (list AdministeredEntry)
}.

(** The [user] attribute of a mother. *)
Record UserInfo : Type := mkUser {
  userEmail : option string;
  must_reset_password : bool
}.

(** An item of the [mothers] table. *)
Record Mother : Type := mkMother {
  email : option string;
  full_name : option string;
  user : option UserInfo
}.

(** A message handed to [transporter.sendMail]. *)
Record Mail : Type := mkMail {
  mailTo : string;
  subject : string;
  html : string
}.

Global Instance Mail_eq_dec : EqDecision Mail.
Proof. solve_decision. Defined.

(** The state the handlers act on: the four tables, the log of
    [sendMail] calls (latest last) and the number of identifiers drawn from
    [uuidv4] so far. *)
Record World : Type := mkWorld {
  reminders : gmap string Reminder;
  babies : gmap string Baby;
  mothers : gmap string Mother;
  schedule : list ScheduleEntry;
  mailLog : list Mail;
  uuidCount : nat
}.

Definition setReminders (w : World) (t : gmap string Reminder) : World :=
  mkWorld t (babies w) (mothers w) (schedule w) (mailLog w) (uuidCount w).

Definition setBabies (w : World) (t : gmap string Baby) : World :=
  mkWorld (reminders w) t (mothers w) (schedule w) (mailLog w) (uuidCount w).

Definition logMail (w : World) (m : Mail) : World :=
  mkWorld (reminders w) (babies w) (mothers w) (schedule w) (mailLog w ++ [m]) (uuidCount w).

Definition bumpUuid (w : World) : World :=
  mkWorld (reminders w) (babies w) (mothers w) (schedule w) (mailLog w) (S (uuidCount w)).

(** ** Handlers as state transformers with early return and exceptions *)

Inductive Body : Type :=
| Message (text : string)
| ErrorMsg (text : string)
| Items (rs : list Reminder)
| Administered (es : list AdministeredEntry).

Record Response : Type := mkResponse {
  status : Z;
  body : Body
}.

Inductive outcome (A : Type) : Type :=
| Next (a : A)
| Return (r : Response)
| Throw (e : string).

Arguments Next {A} a.
Arguments Return {A} r.
Arguments Throw {A} e.

Definition M (A : Type) : Type := World -> World * outcome A.

Definition ret {A} (a : A) : M A := fun w => (w, Next a).

Definition bind {A B} (m : M A) (k : A -> M B) : M B :=
  fun w =>
    match m w with
    | (w', Next a) => k a w'
    | (w', Return r) => (w', Return r)
    | (w', Throw e) => (w', Throw e)
    end.

Definition respond {A} (code : Z) (b : Body) : M A :=
  fun w => (w, Return (mkResponse code b)).

Definition throw {A} (e : string) : M A := fun w => (w, Throw e).

Definition gets {A} (f : World -> A) : M A := fun w => (w, Next (f w)).

Definition modify (f : World -> World) : M unit := fun w => (f w, Next tt).

Notation "x <- m ;; k" := (bind m (fun x => k))
  (at level 100, m at next level, right associativity).
Notation "m ;;; k" := (bind m (fun _ => k))
  (at level 100, right associativity).

(** [for (const x of xs) body] *)
Fixpoint forEach {A} (xs : list A) (body : A -> M unit) : M unit :=
  match xs with
  | [] => ret tt
  | x :: xs' => body x ;;; forEach xs' body
  end.

(** A handler whose body sits in [try { ... } catch (err) { 500 }]. *)
Definition tryCatch (m : M Response) (onError : Response) : World -> World * Response :=
  fun w =>
    match m w with
    | (w', Next r) => (w', r)
    | (w', Return r) => (w', r)
    | (w', Throw _) => (w', onError)
    end.

(** ** The [reminders] table *)

Inductive WriteRequest : Type :=
| PutRequest (Item : Reminder)
| DeleteRequest (Key : string).

Definition applyRequest (t : gmap string Reminder) (rq : WriteRequest) : gmap string Reminder :=
  match rq with
  | PutRequest r => <[reminderId r := r]> t
  | DeleteRequest k => delete k t
  end.

(** [BatchWriteCommand] on one chunk; the requests are applied in order. *)
Definition BatchWrite (chunk : list WriteRequest) (t : gmap string Reminder) : gmap string Reminder :=
  foldl applyRequest t chunk.

(** [while (reqs.length) { chunk = reqs.splice(0, 25); BatchWrite chunk }];
    [fuel] bounds the number of rounds. *)
Fixpoint writeChunks (fuel : nat) (reqs : list WriteRequest) (t : gmap string Reminder)
  : gmap string Reminder :=
  match fuel with
  | O => t
  | S fuel' =>
      match reqs with
      | [] => t
      | _ => writeChunks fuel' (drop 25 reqs) (BatchWrite (take 25 reqs) t)
      end
  end.

Definition batchWriteAll (reqs : list WriteRequest) : M unit :=
  modify (fun w => setReminders w (writeChunks (length reqs) reqs (reminders w))).

(** The items of the table, in the order the store lists them. *)
Definition scanReminders (t : gmap string Reminder) : list Reminder :=
  (map_to_list t).*2.

(** Index [ByBaby], partition key [babyId], sort key [sent]. *)
Definition queryByBabySent (b : string) (s : bool) (t : gmap string Reminder) : list Reminder :=
  filter (fun r => babyId r = b /\ sent r = s) (scanReminders t).


Definition earlier (a b : Reminder) : Prop := scheduled_at a <= scheduled_at b.

Global Instance earlier_dec a b : Decision (earlier a b).
Proof. unfold earlier. apply _. Defined.

(** Index [ByScheduledAt], partition key [type], sort key [scheduled_at],
    with the filter [sent = "false"]: the due, unsent reminders of a
    cadence, earliest first. *)
Definition queryDue (c : Cadence) (now : Z) (t : gmap string Reminder) : list Reminder :=
  merge_sort earlier
    (filter (fun r => type r = c /\ scheduled_at r <= now /\ sent r = false) (scanReminders t)).

(** [UpdateCommand SET sent = "true"] on a key read from the table.  (On an
    absent key DynamoDB would create an item with the key and [sent] only,
    which none of the indexes lists; the model leaves the table as it is.) *)
Definition markSent (k : string) : M unit :=
  modify (fun w => setReminders w (alter markedSent k (reminders w))).

(** ** Due-date projection and the routes that write reminders *)

(** What a route pushes for one cadence of one schedule entry, before it is
    given an identifier. *)
Record Candidate : Type := mkCandidate {
  candVaccine : string;
  candVaccinationDate : Z;
  candTrigger : Z;
  candCadence : Cadence
}.

(** The [Authorization] header as [jwt.verify] sees it. *)
Inductive Authorization : Type :=
| NoBearer
| InvalidToken
| Bearer (userId : string).

Definition authenticateToken (a : Authorization) : M string :=
  match a with
  | NoBearer => respond 401 (ErrorMsg "Missing or invalid Authorization header")
  | InvalidToken => respond 403 (ErrorMsg "Invalid token")
  | Bearer userId => ret userId
  end.

(** The [birthDate] of a correction request: a string that fails the
    YYYY-MM-DD test, or the date [new Date(birthDate + "T00:00:00Z")]. *)
Inductive BirthDateInput : Type :=
| Malformed
| Parsed (d : Date).

Section Routes.

(** Offset of the server's local time from UTC, in milliseconds. *)
Variable tz : Z.

(** The successive results of [uuidv4()]. *)
Variable rng : nat -> string.

Definition uuidv4 : M string :=
  fun w => (bumpUuid w, Next (rng (uuidCount w))).

(** [vaccDate = new Date(dob); vaccDate.setDate(dob.getDate() + offset)] *)
Definition vaccinationDate (dob : Date) (ageStr : string) : Date :=
  JsDate.setDate tz dob (Js.add (JsDate.getDate tz dob) (parseAgeToDays ageStr)).

(** [(vaccDate.getTime() - now.getTime()) / msPerDay] *)
Definition diffDays (vaccDate : Date) (now : Z) : number :=
  Js.div (Js.sub (JsDate.getTime vaccDate) (Js.of_Z now)) (Js.of_Z msPerDay).

(** [rem = new Date(vaccDate); rem.setDate(vaccDate.getDate() - lead);
    rem.setHours(hour, 0, 0, 0)] *)
Definition leadTime (vaccDate : Date) (lead hour : Z) : Date :=
  JsDate.setHours tz
    (JsDate.setDate tz vaccDate (Js.sub (JsDate.getDate tz vaccDate) (Js.of_Z lead)))
    hour.

(** [if (rem > now) push(...)]; a trigger after [now] is a valid date, and
    so is the vaccination date it was computed from. *)
Definition pushIfFuture (vaccine : string) (c : Cadence) (vaccDate rem : Date) (now : Z)
  : list Candidate :=
  if JsDate.gtb rem (Some now) then
    match vaccDate, rem with
    | Some v, Some t => [mkCandidate vaccine v t c]
    | _, _ => []
    end
  else [].

(** The body of the loop over the schedule, shared by the three routes up
    to the hour of the trigger times. *)
Definition project (hour : Z) (dob : Date) (now : Z) (e : ScheduleEntry) : list Candidate :=
  let vaccDate := vaccinationDate dob (age e) in
  if JsDate.leb vaccDate (Some now) then []
  else
    (if Js.geb (diffDays vaccDate now) (Js.of_Z 7)
     then pushIfFuture (entryVaccine e) weekly vaccDate (leadTime vaccDate 7 hour) now
     else [])
    ++ pushIfFuture (entryVaccine e) daily vaccDate (leadTime vaccDate 1 hour) now.

Definition projectAll (hour : Z) (dob : Date) (now : Z) (sched : list ScheduleEntry)
  : list Candidate :=
  flat_map (project hour dob now) sched.

Definition item (id userId baby : string) (c : Candidate) : Reminder :=
  mkReminder id userId baby (candVaccine c) (candVaccinationDate c) (candTrigger c)
    false (candCadence c).

(** [`${babyId}#${vaccine}#weekly#${scheduledDateStr}`] *)
Definition compositeId (baby : string) (c : Candidate) : string :=
  baby ++ "#" ++ candVaccine c ++ "#" ++ cadenceTag (candCadence c) ++ "#"
    ++ JsDate.isoDate (candTrigger c).

Definition compositeItem (userId baby : string) (c : Candidate) : Reminder :=
  item (compositeId baby c) userId baby c.

(** [reminderId: uuidv4()], one draw per pushed item. *)
Fixpoint uuidItems (userId baby : string) (cs : list Candidate) : M (list Reminder) :=
  match cs with
  | [] => ret []
  | c :: cs' =>
      id <- uuidv4 ;;
      rest <- uuidItems userId baby cs' ;;
      ret (item id userId baby c :: rest)
  end.

Definition deleteRequests (rs : list Reminder) : list WriteRequest :=
  map (fun r => DeleteRequest (reminderId r)) rs.

(** *** [PUT /api/baby/:id/birth-date] *)

Definition setDateOfBirth (dob : Z) (b : option Baby) : option Baby :=
  match b with
  | Some b => Some (mkBaby (babyName b) (motherUserId b) (Some dob) (administered b))
  | None => Some (mkBaby None None (Some dob) None)
  end.

Definition putBirthDateBody (auth : Authorization) (id : string) (birthDate : BirthDateInput)
    (now : Z) : M Response :=
  userId <- authenticateToken auth ;;
  match birthDate with
  | Malformed => respond 400 (ErrorMsg "Use YYYY-MM-DD.")
  | Parsed None => respond 400 (ErrorMsg "Invalid date")
  | Parsed (Some parsed) =>
      (* 1) update the baby's DOB *)
      modify (fun w => setBabies w (partial_alter (setDateOfBirth parsed) id (babies w))) ;;;
      (* 2) delete existing UNSENT reminders for this baby *)
      existingRems <- gets (fun w => queryByBabySent id false (reminders w)) ;;
      batchWriteAll (deleteRequests existingRems) ;;;
      (* 3) recompute *)
      sched <- gets schedule ;;
      let remindersToInsert :=
        map (compositeItem userId id) (projectAll 14 (Some parsed) now sched) in
      (* 4) batch write *)
      batchWriteAll (map PutRequest remindersToInsert) ;;;
      ret (mkResponse 200 (Message "Baby DOB and reminders updated"))
  end.

Definition putBirthDate (auth : Authorization) (id : string) (birthDate : BirthDateInput)
    (now : Z) : World -> World * Response :=
  tryCatch (putBirthDateBody auth id birthDate now)
    (mkResponse 500 (ErrorMsg "Server error")).

(** *** [POST /api/baby] *)

(** Steps 5 and 6 of the handler: build the reminders of a new baby and
    write them. *)
Definition buildReminders (motherUserId baby : string) (isoDOB now : Z) : M unit :=
  sched <- gets schedule ;;
  toWrite <- uuidItems motherUserId baby (projectAll 11 (Some isoDOB) now sched) ;;
  batchWriteAll (map PutRequest toWrite).

Definition sameName (name : string) (b : Baby) : bool :=
  match babyName b with
  | Some n => String.eqb (Js.toLowerCase n) (Js.toLowerCase name)
  | None => false
  end.

(** Index [MotherIndex] of the [babies] table. *)
Definition babiesOf (userId : string) (t : gmap string Baby) : list Baby :=
  filter (fun b => motherUserId b = Some userId) (map_to_list t).*2.

(** The handler after the schema validation of the body; [dob] is
    [new Date(dateOfBirth + "T00:00:00Z")].  The route has no [try]. *)
Definition postBaby (auth : Authorization) (name : string) (dob : Date) (gender : string)
    (now : Z) : M Response :=
  motherUserId <- authenticateToken auth ;;
  if Js.is_empty name || Js.is_empty gender then respond 400 (ErrorMsg "All fields required")
  else
    mother <- gets (fun w => mothers w !! motherUserId) ;;
    match mother with
    | None => respond 404 (ErrorMsg "Mother profile not found")
    | Some mother =>
        existingBabies <- gets (fun w => babiesOf motherUserId (babies w)) ;;
        if existsb (sameName name) existingBabies
        then respond 409 (ErrorMsg "You already have a baby with that name")
        else
          baby <- uuidv4 ;;
          match dob with
          | None => throw "RangeError: Invalid time value"
          | Some isoDOB =>
              modify (fun w => setBabies w
                (<[baby := mkBaby (Some name) (Some motherUserId) (Some isoDOB) None]> (babies w))) ;;;
              buildReminders motherUserId baby isoDOB now ;;;
              ret (mkResponse 201 (Message "Baby added & reminders scheduled successfully"))
          end
    end.

(** *** [POST /api/reminder/:babyId] *)

Definition postReminderBody (auth : Authorization) (id : string) (now : Z) : M Response :=
  userId <- authenticateToken auth ;;
  baby <- gets (fun w => babies w !! id) ;;
  match baby with
  | None => respond 404 (ErrorMsg "Baby not found")
  | Some baby =>
      if negb (bool_decide (motherUserId baby = Some userId))
      then respond 403 (ErrorMsg "Not authorized for this baby")
      else
        let dob := dateOfBirth baby in
        (* 2) delete existing UNSENT reminders, only the future ones *)
        existing <- gets (fun w =>
          filter (fun r => now < scheduled_at r) (queryByBabySent id false (reminders w))) ;;
        batchWriteAll (deleteRequests existing) ;;;
        (* 3) build new reminders with deterministic keys *)
        sched <- gets schedule ;;
        let remindersToInsert := map (compositeItem userId id) (projectAll 11 dob now sched) in
        batchWriteAll (map PutRequest remindersToInsert) ;;;
        ret (mkResponse 201 (Message "Reminders generated successfully"))
  end.

Definition postReminder (auth : Authorization) (id : string) (now : Z)
  : World -> World * Response :=
  tryCatch (postReminderBody auth id now)
    (mkResponse 500 (ErrorMsg "Server error while creating reminders")).

(** *** [GET /api/reminder/:babyId] *)



End Routes.

(** ** Administered-vaccine routes *)

Section Administered.

Variable tz : Z.
Variable rng : nat -> string.

Definition setAdministered (es : list AdministeredEntry) (b : Baby) : Baby :=
  mkBaby (babyName b) (motherUserId b) (dateOfBirth b) (Some es).

(** [Array.isArray(item.administered) ? item.administered : []], also the
    value of [if_not_exists(administered, :empty_list)]. *)
Definition administeredList (b : Baby) : list AdministeredEntry :=
  match administered b with Some es => es | None => [] end.

(** [SET administered = list_append(if_not_exists(administered, []), new)] *)
Definition appendAdministered (id : string) (new : list AdministeredEntry) : M unit :=
  modify (fun w => setBabies w
    (alter (fun b => setAdministered (administeredList b ++ new) b) id (babies w))).

(** The loop of the init route: the schedule entries whose date is before
    [now], as [{ vaccine, date }]. *)
Definition pastVaccine (dob : Date) (now : Z) (e : ScheduleEntry) : list AdministeredEntry :=
  let vaccDate := vaccinationDate tz dob (age e) in
  if JsDate.ltb vaccDate (Some now) then
    match vaccDate with
    | Some v => [mkAdministered None (entryVaccine e) (JsDate.isoDate v) None None]
    | None => []
    end
  else [].

(** *** [POST /api/baby/:babyId/administered/init] *)

Definition initAdministeredBody (auth : Authorization) (id : string) (now : Z) : M Response :=
  userId <- authenticateToken auth ;;
  baby <- gets (fun w => babies w !! id) ;;
  match baby with
  | None => respond 404 (ErrorMsg "Baby not found")
  | Some baby =>
      if negb (bool_decide (motherUserId baby = Some userId))
      then respond 403 (ErrorMsg "Not authorized")
      else
        (* 2) ensure [administered] exists *)
        appendAdministered id [] ;;;
        (* 3) compute past vaccines *)
        sched <- gets schedule ;;
        let itemsToAdd := flat_map (pastVaccine (dateOfBirth baby) now) sched in
        (* 4) append past vaccines if any *)
        (if (0 <? length itemsToAdd)%nat then appendAdministered id itemsToAdd else ret tt) ;;;
        ret (mkResponse 200 (Message "Administered list initialized"))
  end.

Definition initAdministered (auth : Authorization) (id : string) (now : Z)
  : World -> World * Response :=
  tryCatch (initAdministeredBody auth id now)
    (mkResponse 500 (ErrorMsg "Server error while initializing administered list")).

(** *** [POST /api/baby/:babyId/administered/mark] *)

(** [entry.vaccine === vaccine && entry.date === date] *)
Definition sameEntry (vaccine date : string) (e : AdministeredEntry) : bool :=
  String.eqb (admVaccine e) vaccine && String.eqb (admDate e) date.

Definition markAdministeredBody (auth : Authorization) (id vaccine date kind : string)
    (now : Z) : M Response :=
  userId <- authenticateToken auth ;;
  if Js.is_empty vaccine || Js.is_empty date
  then respond 400 (ErrorMsg "Missing 'vaccine' or 'date' in request body")
  else
    baby <- gets (fun w => babies w !! id) ;;
    match baby with
    | None => respond 404 (ErrorMsg "Baby not found")
    | Some baby =>
        if negb (bool_decide (motherUserId baby = Some userId))
        then respond 403 (ErrorMsg "Not authorized to modify this baby")
        else
          let existingList := administeredList baby in
          if existsb (sameEntry vaccine date) existingList
          then respond 200 (Message "Already marked as administered")
          else
            newId <- uuidv4 rng ;;
            let newEntry := mkAdministered (Some newId) vaccine date (Some now) (Some kind) in
            appendAdministered id [newEntry] ;;;
            ret (mkResponse 201 (Message "Marked administered successfully"))
    end.

Definition markAdministered (auth : Authorization) (id vaccine date kind : string) (now : Z)
  : World -> World * Response :=
  tryCatch (markAdministeredBody auth id vaccine date kind now)
    (mkResponse 500 (ErrorMsg "Server error while marking administered")).

(** *** [GET /api/baby/:babyId/administered] *)

Definition getAdministeredBody (auth : Authorization) (id : string) : M Response :=
  userId <- authenticateToken auth ;;
  baby <- gets (fun w => babies w !! id) ;;
  match baby with
  | None => respond 404 (ErrorMsg "Baby not found")
  | Some baby =>
      if negb (bool_decide (motherUserId baby = Some userId))
      then respond 403 (ErrorMsg "Not authorized")
      else ret (mkResponse 200 (Administered (administeredList baby)))
  end.

Definition getAdministered (auth : Authorization) (id : string) : World -> World * Response :=
  tryCatch (getAdministeredBody auth id)
    (mkResponse 500 (ErrorMsg "Server error while fetching administered list")).

End Administered.

(** ** Cron handlers: the due-reminder processor *)

Definition dq : string := String (ascii_of_nat 34) EmptyString.
Definition nl : string := String (ascii_of_nat 10) EmptyString.

(** [array.join("")] *)
Definition joinStrings (ss : list string) : string :=
  fold_right String.append EmptyString ss.

(** [`<li><strong>${r.vaccine}</strong></li>`] *)
Definition listItem (r : Reminder) : string :=
  "<li><strong>" ++ vaccine r ++ "</strong></li>".

(** A [null] name is rendered by the template as the word null. *)
Definition renderName (n : option string) : string :=
  match n with Some s => s | None => "null" end.

(** The canonical array-index keys of an object are listed first by
    [Object.entries], in increasing order. *)
Definition arrayIndex (k : string) : option Z :=
  match k with
  | EmptyString => None
  | String c rest =>
      if Js.all_chars Js.is_digit k
         && (Js.is_empty rest || negb (Js.code c =? 48)%nat)
         && (Js.parseInt_from 0 k <? 4294967295)
      then Some (Js.parseInt_from 0 k) else None
  end.

Definition indexBefore (a b : string * list Reminder) : Prop :=
  match arrayIndex a.1, arrayIndex b.1 with
  | Some x, Some y => x <= y
  | _, _ => True
  end.

Global Instance indexBefore_dec a b : Decision (indexBefore a b).
Proof. unfold indexBefore. destruct (arrayIndex a.1), (arrayIndex b.1); apply _. Defined.

Definition ObjectEntries (obj : list (string * list Reminder)) : list (string * list Reminder) :=
  merge_sort indexBefore (filter (fun e => is_Some (arrayIndex e.1)) obj)
    ++ filter (fun e => ~ is_Some (arrayIndex e.1)) obj.

(** [if (!acc[k]) acc[k] = []; acc[k].push(r)] on an object whose own keys
    are listed in insertion order. *)
Fixpoint pushTo (k : string) (r : Reminder) (acc : list (string * list Reminder))
  : list (string * list Reminder) :=
  match acc with
  | [] => [(k, [r])]
  | (k', g) :: acc' =>
      if String.eqb k k' then (k', (g ++ [r])%list) :: acc'
      else (k', g) :: pushTo k r acc'
  end.

(** [due.reduce(..., {})].  For a key that [Object.prototype] defines,
    [acc[k]] is an inherited object without [push]: a [TypeError]. *)
Fixpoint groupByMother (due : list Reminder) (acc : list (string * list Reminder))
  : M (list (string * list Reminder)) :=
  match due with
  | [] => ret acc
  | r :: due' =>
      if existsb (String.eqb (motherId r)) inherited_names
      then throw "TypeError: acc[r.motherId].push is not a function"
      else groupByMother due' (pushTo (motherId r) r acc)
  end.

Section Cron.

Variable tz : Z.

(** Whether [transporter.sendMail] resolves for a message. *)
Variable transport : Mail -> bool.

Definition sendMail (m : Mail) : M unit :=
  fun w => (logMail w m, if transport m then Next tt else Throw "sendMail rejected").

Definition mailBody (sentence fullName formattedDate reminderListHtml : string) : string :=
  nl ++ "      <div style=" ++ dq ++ "font-family: Arial, sans-serif; max-width: 600px;" ++ dq ++ ">"
  ++ nl ++ "        <p>Dear " ++ fullName ++ ",</p>"
  ++ nl ++ "        <p>" ++ sentence ++ " " ++ formattedDate ++ ":</p>"
  ++ nl ++ "        <ul>" ++ reminderListHtml ++ "</ul>"
  ++ nl ++ "        <p>Regards,<br/>Chanjo Team</p>"
  ++ nl ++ "      </div>"
  ++ nl ++ "    ".

(** The message [sendCombinedReminderEmail] composes; [first] is
    [reminders[0]]. *)
Definition combinedMail (sentence email : string) (fullName : option string)
    (first : Reminder) (rems : list Reminder) : Mail :=
  let formattedDate := JsDate.toDateString tz (vaccination_date first) in
  let reminderListHtml := joinStrings (map listItem rems) in
  mkMail email ("Vaccinations due on " ++ formattedDate)
    (mailBody sentence (renderName fullName) formattedDate reminderListHtml).

Definition sendCombinedReminderEmail (sentence : string) (email : string)
    (fullName : option string) (rems : list Reminder) : M unit :=
  match rems with
  | [] => throw "TypeError: Cannot read properties of undefined"
  | first :: _ => sendMail (combinedMail sentence email fullName first rems)
  end.

(** The contact test of a handler: [None] to skip the group, or the
    address to write to; it may throw. *)
Definition ContactTest : Type := option Mother -> M (option (string * Mother)).

(** [mother.user?.email] when the mother exists and the address is truthy. *)
Definition dailyAddress (mother : option Mother) : option (string * Mother) :=
  match mother with
  | None => None
  | Some m =>
      match user m with
      | Some u =>
          match userEmail u with
          | Some e => if Js.is_empty e then None else Some (e, m)
          | None => None
          end
      | None => None
      end
  end.

(** [if (!mother || !mother.user?.email) continue] (cron/daily.js) *)
Definition dailyContact : ContactTest :=
  fun mother => ret (dailyAddress mother).

(** [if (!mother || !email) continue] (cron/weekly.js): no [email] is in
    scope, so evaluating the second operand throws. *)
Definition weeklyContact : ContactTest :=
  fun mother =>
    match mother with
    | None => ret None
    | Some _ => throw "ReferenceError: email is not defined"
    end.

Definition processGroup (contact : ContactTest) (sentence : string)
    (entry : string * list Reminder) : M unit :=
  let '(mId, rems) := entry in
  mother <- gets (fun w => mothers w !! mId) ;;
  c <- contact mother ;;
  match c with
  | None => ret tt
  | Some (address, m) =>
      sendCombinedReminderEmail sentence address (full_name m) rems ;;;
      forEach rems (fun r => markSent (reminderId r))
  end.

Definition cronBody (c : Cadence) (contact : ContactTest) (sentence : string) (now : Z)
  : M Response :=
  due <- gets (fun w => queryDue c now (reminders w)) ;;
  if (length due =? 0)%nat
  then respond 200 (Message ("No " ++ cadenceTag c ++ " reminders."))
  else
    byMother <- groupByMother due [] ;;
    forEach (ObjectEntries byMother) (processGroup contact sentence) ;;;
    ret (mkResponse 200 (Message (match c with
                                  | daily => "Daily reminders processed."
                                  | weekly => "Weekly reminders processed."
                                  end))).

(** [handler] of cron/daily.js *)
Definition dailyHandler (now : Z) : World -> World * Response :=
  tryCatch (cronBody daily dailyContact "Your baby has these vaccines due on" now)
    (mkResponse 500 (Message "Daily cron failure.")).

(** [handler] of cron/weekly.js *)
Definition weeklyHandler (now : Z) : World -> World * Response :=
  tryCatch (cronBody weekly weeklyContact "Your baby has the following vaccinations due on" now)
    (mkResponse 500 (Message "Weekly cron failure.")).

End Cron.
(** ** The other versions of the cron handlers

    The repository holds several versions of each handler.  They share the
    query, the grouping and the loop of the handlers above and differ in the
    address test, in the wording and in the channel: a message to the
    mother through the mail transport, or a plain-text message published to
    one notification topic.  A publish call is logged like a mail, with the
    topic as its recipient; [transport] tells whether it resolves. *)

(** [array.join(sep)] *)
Definition joinWith (sep : string) (ss : list string) : string :=
  match ss with
  | [] => EmptyString
  | s :: rest => fold_left (fun acc x => acc ++ sep ++ x) rest s
  end.

(** [`  • ${r.vaccine}`] *)
Definition bulletLine (r : Reminder) : string := "  • " ++ vaccine r.

Section CronVersions.

Variable tz : Z.
Variable transport : Mail -> bool.

(** [process.env.SNS_TOPIC_ARN] *)
Variable topicArn : string.

(** [handler] of cron/daily.js, the version that connects to the store on
    its first call. *)
Definition dailyHandlerOnDemand (now : Z) : World -> World * Response :=
  tryCatch
    (cronBody tz transport daily dailyContact
       "Your baby has the following vaccinations due on" now)
    (mkResponse 500 (Message "Daily cron failure.")).

(** [handler] of cron/weekly.js, the version that reads [mother.user?.email]. *)
Definition weeklyHandlerUserEmail (now : Z) : World -> World * Response :=
  tryCatch
    (cronBody tz transport weekly dailyContact "Your baby has these vaccines due on" now)
    (mkResponse 500 (Message "Weekly cron failure.")).

(** [buildDailyPlainText] and [buildWeeklyPlainText], which have the same
    text; [first] is [reminders[0]]. *)
Definition buildPlainText (fullName : option string) (first : Reminder)
    (rems : list Reminder) : string :=
  let formattedDate := JsDate.toDateString tz (vaccination_date first) in
  let bulletList := joinWith nl (map bulletLine rems) in
  joinWith nl
    [ "Dear " ++ renderName fullName ++ ",";
      "";
      "Your baby has the following vaccinations due on " ++ formattedDate ++ ":";
      "";
      bulletList;
      "";
      "Regards,";
      "Chanjo Team" ].

(** The publish call of a group: topic, subject and message. *)
Definition publication (fullName : option string) (first : Reminder) (rems : list Reminder)
  : Mail :=
  mkMail topicArn
    ("Vaccinations due on " ++ JsDate.toDateString tz (vaccination_date first))
    (buildPlainText fullName first rems).

(** [mother.email] when the mother exists and the address is truthy. *)
Definition topLevelAddress (mother : option Mother) : option (string * Mother) :=
  match mother with
  | None => None
  | Some m =>
      match email m with
      | Some e => if Js.is_empty e then None else Some (e, m)
      | None => None
      end
  end.

(** The body of the loop over the groups in the versions that publish. *)
Definition publishGroup (entry : string * list Reminder) : M unit :=
  let '(mId, rems) := entry in
  mother <- gets (fun w => mothers w !! mId) ;;
  match topLevelAddress mother with
  | None => ret tt
  | Some (_, m) =>
      match rems with
      | [] => throw "TypeError: Cannot read properties of undefined"
      | first :: _ =>
          sendMail transport (publication (full_name m) first rems) ;;;
          forEach rems (fun r => markSent (reminderId r))
      end
  end.

Definition publishBody (c : Cadence) (now : Z) : M Response :=
  due <- gets (fun w => queryDue c now (reminders w)) ;;
  if (length due =? 0)%nat
  then respond 200 (Message ("No " ++ cadenceTag c ++ " reminders."))
  else
    byMother <- groupByMother due [] ;;
    forEach (ObjectEntries byMother) publishGroup ;;;
    ret (mkResponse 200 (Message (match c with
                                  | daily => "Daily reminders processed."
                                  | weekly => "Weekly reminders processed."
                                  end))).

(** [handler] of cron/daily.js, the version that publishes to the topic. *)
Definition dailyHandlerTopic (now : Z) : World -> World * Response :=
  tryCatch (publishBody daily now) (mkResponse 500 (Message "Daily cron failure.")).

(** [handler] of cron/weekly.js, the version that publishes to the topic. *)
Definition weeklyHandlerTopic (now : Z) : World -> World * Response :=
  tryCatch (publishBody weekly now) (mkResponse 500 (Message "Weekly cron failure.")).

End CronVersions.

(** ** Dates in request bodies *)

(** The day number of a calendar date: the inverse of [JsDate.civil]. *)
Definition daysFromCivil (y m d : Z) : Z :=
  let y' := if m <=? 2 then y - 1 else y in
  let era := y' / 400 in
  let yoe := y' - era * 400 in
  let mp := if 2 <? m then m - 3 else m + 9 in
  let doy := (153 * mp + 2) / 5 + d - 1 in
  let doe := yoe * 365 + yoe / 4 - yoe / 100 + doy in
  era * 146097 + doe - 719468.

(** [MakeDay(year, month - 1, date)] for a month from 1 to 12: the first
    day of the month, moved by [date - 1] days. *)
Definition MakeDayOf (y m d : Z) : Z := daysFromCivil y m 1 + d - 1.

(** [/^\d{4}-\d{2}-\d{2}$/.test(s)], also the pattern of [dateOfBirth] in
    the schemas. *)
Definition isDateShaped (s : string) : bool :=
  match s with
  | String y1 (String y2 (String y3 (String y4 (String h1 (String m1 (String m2
      (String h2 (String d1 (String d2 EmptyString))))))))) =>
      Js.is_digit y1 && Js.is_digit y2 && Js.is_digit y3 && Js.is_digit y4
      && (Js.code h1 =? 45)%nat && Js.is_digit m1 && Js.is_digit m2
      && (Js.code h2 =? 45)%nat && Js.is_digit d1 && Js.is_digit d2
  | _ => false
  end.

(** [new Date(s + "T00:00:00Z")] for a date-shaped [s], as the engine of
    Node reads the date-time format: the month must be 01 to 12 and the day
    01 to 31, else the date is invalid; a day past the end of its month
    runs over into the next month, as [MakeDay] has it. *)
Definition parseUtcMidnight (s : string) : Date :=
  let y := Js.parseInt_from 0 (substring 0 4 s) in
  let m := Js.parseInt_from 0 (substring 5 2 s) in
  let d := Js.parseInt_from 0 (substring 8 2 s) in
  if (1 <=? m) && (m <=? 12) && (1 <=? d) && (d <=? 31)
  then JsDate.TimeClip (JsDate.MakeDate (MakeDayOf y m d) 0)
  else None.

(** The [birthDate] of a correction request, as the route reads it. *)
Definition readBirthDate (birthDate : string) : BirthDateInput :=
  if isDateShaped birthDate then Parsed (parseUtcMidnight birthDate) else Malformed.

(** ** Accounts: sign-up, password reset, login and profile

    The [mothers] table with the attributes these routes read and write
    (the attribute [babies], written once as an empty list and never read,
    is left out).  [bcrypt], the random password and the expiry of login
    tokens are parameters; a token is its payload and its lifetime, and a
    request carries what [jwt.verify] makes of its header.  The bodies are
    JSON objects whose fields are strings or absent.  The notification
    topic lists its subscriptions in one answer and accepts a
    subscription. *)

(** The [user] attribute of a mother. *)
Record Credentials : Type := mkCredentials {
  hashed_password : string;
  mustReset : bool;
  created_at : Z;
  (** [user.email], which the mail versions of the cron handlers read and
      no route writes *)
  credEmail : option string
}.

Record Account : Type := mkAccount {
  accEmail : option string;
  accFullName : option string;
  accPhone : option string;
  accUser : option Credentials
}.

(** An item of the [babies] table with the attributes of the profile
    routes. *)
Record BabyItem : Type := mkBabyItem {
  babyRecord : Baby;
  motherEmail : option string;
  gender : option string
}.

Record Token : Type := mkToken {
  tokenUser : string;
  tokenEmail : string;
  expiresIn : string
}.

(** A subscription of the notification topic. *)
Record Subscription : Type := mkSubscription {
  Protocol : string;
  Endpoint : string
}.

Record Site : Type := mkSite {
  accounts : gmap string Account;
  babyItems : gmap string BabyItem;
  outbox : list Mail;
  subscriptions : list Subscription;
  uuidsDrawn : nat;
  passwordsDrawn : nat
}.

Definition setAccounts (s : Site) (t : gmap string Account) : Site :=
  mkSite t (babyItems s) (outbox s) (subscriptions s) (uuidsDrawn s) (passwordsDrawn s).

Definition setBabyItems (s : Site) (t : gmap string BabyItem) : Site :=
  mkSite (accounts s) t (outbox s) (subscriptions s) (uuidsDrawn s) (passwordsDrawn s).

(** A baby as [GET /api/profile] lists it. *)
Record BabyView : Type := mkBabyView {
  viewId : string;
  baby_name : option string;
  date_of_birth : string;
  viewGender : option string
}.

Inductive AccountBody : Type :=
| Note (message : string)
| Failure (error : string)
| Registered (message : string) (token : Token)
| LoggedIn (message : string) (token : Token) (userId : string) (mustResetPassword : bool)
| BabyAdded (message : string) (babyId babyName dateOfBirth gender : string)
| ProfileView (mustResetPassword profileComplete : bool)
    (fullName phoneNumber : option string) (babies : list BabyView).

Record Reply : Type := mkReply {
  replyStatus : Z;
  replyBody : AccountBody
}.

Inductive step (A : Type) : Type :=
| Continue (a : A)
| Answer (r : Reply)
| Raise (e : string).

Arguments Continue {A} a.
Arguments Answer {A} r.
Arguments Raise {A} e.

Definition Act (A : Type) : Type := Site -> Site * step A.

Definition unit_ {A} (a : A) : Act A := fun s => (s, Continue a).

Definition andThen {A B} (m : Act A) (k : A -> Act B) : Act B :=
  fun s =>
    match m s with
    | (s', Continue a) => k a s'
    | (s', Answer r) => (s', Answer r)
    | (s', Raise e) => (s', Raise e)
    end.

Definition answer {A} (code : Z) (b : AccountBody) : Act A :=
  fun s => (s, Answer (mkReply code b)).

Definition raise {A} (e : string) : Act A := fun s => (s, Raise e).

Definition reads {A} (f : Site -> A) : Act A := fun s => (s, Continue (f s)).

Definition update (f : Site -> Site) : Act unit := fun s => (f s, Continue tt).

Notation "x <~ m ;; k" := (andThen m (fun x => k))
  (at level 100, m at next level, right associativity).
Notation "m ~;; k" := (andThen m (fun _ => k))
  (at level 100, right associativity).

(** A handler whose body sits in [try { ... } catch (err) { ... }]. *)
Definition attempt (m : Act Reply) (onError : Reply) : Site -> Site * Reply :=
  fun s =>
    match m s with
    | (s', Continue r) => (s', r)
    | (s', Answer r) => (s', r)
    | (s', Raise _) => (s', onError)
    end.

(** What [jwt.verify] makes of the [Authorization] header. *)
Inductive Verified : Type :=
| NoHeader
| BadToken
| GoodToken (decoded : Token).

(** [^[A-Za-z]+ [A-Za-z]+$], the pattern of [fullName] and [babyName] *)
Definition is_letter (c : ascii) : bool := Js.is_upper c || Js.is_lower c.

Definition isTwoWords (s : string) : bool :=
  let '(first, r) := Js.span is_letter s in
  negb (Js.is_empty first)
  && match r with
     | String c second =>
         (Js.code c =? 32)%nat && negb (Js.is_empty second) && Js.all_chars is_letter second
     | EmptyString => false
     end.

(** [^07[0-9]{8}$], the pattern of [phoneNumber] *)
Definition isPhoneNumber (s : string) : bool :=
  match s with
  | String a (String b rest) =>
      (Js.code a =? 48)%nat && (Js.code b =? 55)%nat
      && (String.length rest =? 8)%nat && Js.all_chars Js.is_digit rest
  | _ => false
  end.

(** [enum: ["Male", "Female"]] *)
Definition isGender (s : string) : bool := String.eqb s "Male" || String.eqb s "Female".

(** The body of [POST /api/profile]; a field is absent when the body lacks
    it or holds something that is not a string; [profileOther] tells
    whether the body has further properties. *)
Record ProfileBody : Type := mkProfileBody {
  fullName : option string;
  phoneNumber : option string;
  profileBabyName : option string;
  profileDateOfBirth : option string;
  profileGender : option string;
  profileOther : bool
}.

Definition holds (p : string -> bool) (field : option string) : bool :=
  match field with Some s => p s | None => false end.

(** [profileUpdateSchema]: the five properties are required, each with its
    pattern, and no other property is allowed. *)
Definition profileUpdateSchema (b : ProfileBody) : bool :=
  holds isTwoWords (fullName b) && holds isPhoneNumber (phoneNumber b)
  && holds isTwoWords (profileBabyName b) && holds isDateShaped (profileDateOfBirth b)
  && holds isGender (profileGender b) && negb (profileOther b).

(** [!field] *)
Definition falsy (field : option string) : bool :=
  match field with Some s => Js.is_empty s | None => true end.

(** A request to one of the account routes. *)
Inductive AccountRequest : Type :=
| Signup (mail : option string) (now : Z)
| ResetPassword (auth : Verified) (newPassword : string)
| Login (address password : string)
| PostProfile (auth : Authorization) (b : ProfileBody)
| GetProfile (auth : Authorization).

Section AccountRoutes.

(** The successive results of [uuidv4()] and of
    [Math.floor(100000 + Math.random() * 900000).toString()]. *)
Variable rng : nat -> string.
Variable randomPassword : nat -> string.

(** [bcrypt.hash(data, 10)] and [bcrypt.compare(data, hash)] *)
Variable bcryptHash : string -> string.
Variable bcryptCompare : string -> string -> bool.

(** Whether [transporter.sendMail] resolves for a message. *)
Variable transport : Mail -> bool.

(** [process.env.JWT_EXPIRES_IN || '24h'] *)
Variable loginExpiry : string.

(** The text the validation error handler builds from the errors of the
    schema validator. *)
Variable validationMessage : ProfileBody -> string.

Definition drawUuid : Act string :=
  fun s => (mkSite (accounts s) (babyItems s) (outbox s) (subscriptions s)
              (S (uuidsDrawn s)) (passwordsDrawn s),
            Continue (rng (uuidsDrawn s))).

Definition drawPassword : Act string :=
  fun s => (mkSite (accounts s) (babyItems s) (outbox s) (subscriptions s)
              (uuidsDrawn s) (S (passwordsDrawn s)),
            Continue (randomPassword (passwordsDrawn s))).

Definition deliver (m : Mail) : Act unit :=
  fun s => (mkSite (accounts s) (babyItems s) (outbox s ++ [m])%list (subscriptions s)
              (uuidsDrawn s) (passwordsDrawn s),
            if transport m then Continue tt else Raise "sendMail rejected").

(** The message of [sendTemporaryPassword]. *)
Definition temporaryPasswordMail (address tempPassword : string) : Mail :=
  mkMail address "Your Temporary Password"
    (nl ++ "      <p>Hello,</p>"
     ++ nl ++ "      <p>Welcome to Chanjo! Here's your temporary password:</p>"
     ++ nl ++ "      <p><strong>" ++ tempPassword ++ "</strong></p>"
     ++ nl ++ "      <p>Please log in and reset your password within 15 minutes.</p>"
     ++ nl ++ "      <p>Best,<br/>Chanjo Chonjo</p>"
     ++ nl ++ "    ").

(** The message of [sendPasswordResetConfirmation]. *)
Definition confirmationMail (address : string) : Mail :=
  mkMail address "Your password has been changed"
    (nl ++ "      <p>Hello,</p>"
     ++ nl ++ "      <p>This is a confirmation that your password was successfully changed.</p>"
     ++ nl ++ "      <p>If you did not perform this action, please contact support immediately.</p>"
     ++ nl ++ "      <p>Regards,<br/>Chanjo Chonjo</p>"
     ++ nl ++ "    ").

Definition sendTemporaryPassword (address tempPassword : string) : Act unit :=
  deliver (temporaryPasswordMail address tempPassword).

Definition sendPasswordResetConfirmation (address : string) : Act unit :=
  deliver (confirmationMail address).

(** Index [EmailIndex] of the [mothers] table. *)
Definition byEmail (e : string) (t : gmap string Account) : list (string * Account) :=
  filter (fun p => accEmail p.2 = Some e) (map_to_list t).

(** Index [PhoneNumberIndex]. *)
Definition byPhone (pn : string) (t : gmap string Account) : list (string * Account) :=
  filter (fun p => accPhone p.2 = Some pn) (map_to_list t).

(** Index [MotherIndex] of the [babies] table. *)
Definition babyItemsOf (userId : string) (t : gmap string BabyItem)
  : list (string * BabyItem) :=
  filter (fun p => motherUserId (babyRecord p.2) = Some userId) (map_to_list t).

(** *** [POST /api/signup] *)

Definition signupBody (mail : option string) (now : Z) : Act Reply :=
  if falsy mail then answer 400 (Failure "Email required")
  else
    let address := default EmptyString mail in
    existing <~ reads (fun s => byEmail address (accounts s)) ;;
    if (0 <? length existing)%nat then answer 409 (Note "User already exists")
    else
      rawPassword <~ drawPassword ;;
      let hashed := bcryptHash rawPassword in
      userId <~ drawUuid ;;
      update (fun s => setAccounts s
        (<[userId := mkAccount (Some address) None None
                       (Some (mkCredentials hashed true now None))]> (accounts s))) ~;;
      sendTemporaryPassword address rawPassword ~;;
      unit_ (mkReply 201
               (Registered "Registered. Check your inbox to confirm SNS subscription."
                  (mkToken userId address "15m"))).

Definition signup (mail : option string) (now : Z) : Site -> Site * Reply :=
  attempt (signupBody mail now) (mkReply 500 (Failure "Server error")).

(** *** [POST /api/reset-password] *)

(** [SET #user.#hashed = :hp, #user.#reset = :reset]: the path needs the
    map [user] of an existing item; the store refuses the update
    otherwise. *)
Definition setPassword (userId hashed : string) : Act unit :=
  acc <~ reads (fun s => accounts s !! userId) ;;
  match acc with
  | Some a =>
      match accUser a with
      | Some c =>
          update (fun s => setAccounts s
            (<[userId := mkAccount (accEmail a) (accFullName a) (accPhone a)
                           (Some (mkCredentials hashed false (created_at c) (credEmail c)))]>
               (accounts s)))
      | None => raise "ValidationException: The document path provided is invalid for update"
      end
  | None => raise "ValidationException: The document path provided is invalid for update"
  end.

(** The body holds a string [newPassword]. *)
Definition resetPasswordBody (auth : Verified) (newPassword : string) : Act Reply :=
  match auth with
  | NoHeader => answer 401 (Failure "Unauthorized")
  | BadToken => raise "JsonWebTokenError"
  | GoodToken decoded =>
      let newHashedPassword := bcryptHash newPassword in
      setPassword (tokenUser decoded) newHashedPassword ~;;
      sendPasswordResetConfirmation (tokenEmail decoded) ~;;
      unit_ (mkReply 200 (Note "Password updated"))
  end.

Definition resetPassword (auth : Verified) (newPassword : string) : Site -> Site * Reply :=
  attempt (resetPasswordBody auth newPassword)
    (mkReply 401 (Failure "Invalid token or server error")).

(** *** [POST /api/login] *)

Definition isEmailSubscription (address : string) (sub : Subscription) : bool :=
  String.eqb (Protocol sub) "email" && String.eqb (Endpoint sub) address.

(** The body holds the strings [email] and [password]. *)
Definition loginBody (address password : string) : Act Reply :=
  found <~ reads (fun s => byEmail address (accounts s)) ;;
  match found with
  | [] => answer 400 (Failure "User not found")
  | (userId, mother) :: _ =>
      match accUser mother with
      | None => raise "TypeError: Cannot read properties of undefined"
      | Some c =>
          if negb (bcryptCompare password (hashed_password c))
          then answer 401 (Failure "Invalid credentials")
          else
            let token := mkToken userId address loginExpiry in
            existingSubs <~ reads subscriptions ;;
            let alreadySubscribed := existsb (isEmailSubscription address) existingSubs in
            (if alreadySubscribed then unit_ tt
             else update (fun s =>
                    mkSite (accounts s) (babyItems s) (outbox s)
                      (subscriptions s ++ [mkSubscription "email" address])%list
                      (uuidsDrawn s) (passwordsDrawn s))) ~;;
            unit_ (mkReply 200 (LoggedIn "Login successful" token userId (mustReset c)))
      end
  end.

Definition login (address password : string) : Site -> Site * Reply :=
  attempt (loginBody address password) (mkReply 500 (Failure "Server error")).

(** *** [POST /api/profile] *)

Definition authenticate (a : Authorization) : Act string :=
  match a with
  | NoBearer => answer 401 (Failure "Missing or invalid Authorization header")
  | InvalidToken => answer 403 (Failure "Invalid token")
  | Bearer userId => unit_ userId
  end.

(** [existingBabies.some(b => b.babyName.toLowerCase() === babyName.toLowerCase())]:
    the test reads the name of each baby up to the first that agrees, and
    raises on a baby without a name. *)
Fixpoint someSameName (name : string) (existingBabies : list (string * BabyItem))
  : option bool :=
  match existingBabies with
  | [] => Some false
  | b :: rest =>
      match babyName (babyRecord b.2) with
      | None => None
      | Some n =>
          if String.eqb (Js.toLowerCase n) (Js.toLowerCase name) then Some true
          else someSameName name rest
      end
  end.

(** The handler, behind [authenticateToken] and the validation of the body
    against [profileUpdateSchema]. *)
Definition postProfileBody (auth : Authorization) (b : ProfileBody) : Act Reply :=
  userId <~ authenticate auth ;;
  if negb (profileUpdateSchema b) then answer 400 (Failure (validationMessage b))
  else
    let name := default EmptyString (fullName b) in
    let phone := default EmptyString (phoneNumber b) in
    (* A) fetch the mother *)
    mother <~ reads (fun s => accounts s !! userId) ;;
    match mother with
    | None => answer 404 (Failure "Profile not found")
    | Some mother =>
        match accUser mother with
        | None => raise "TypeError: Cannot read properties of undefined"
        | Some c =>
            if mustReset c
            then answer 403 (Failure "Password reset required before updating profile")
            else
              (* B) unique phone *)
              phoneCheck <~ reads (fun s => byPhone phone (accounts s)) ;;
              if match phoneCheck with
                 | (owner, _) :: _ => negb (String.eqb owner userId)
                 | [] => false
                 end
              then answer 409 (Failure "Phone number already in use")
              else
                (* C) update the mother *)
                update (fun s => setAccounts s
                  (<[userId := mkAccount (accEmail mother) (Some name) (Some phone)
                                 (accUser mother)]> (accounts s))) ~;;
                (* D) no baby fields *)
                if falsy (profileBabyName b) || falsy (profileDateOfBirth b)
                   || falsy (profileGender b)
                then answer 200 (Note "Profile updated")
                else
                  let babyName := default EmptyString (profileBabyName b) in
                  let dateOfBirth := default EmptyString (profileDateOfBirth b) in
                  let sex := default EmptyString (profileGender b) in
                  (* E) duplicate baby name *)
                  existingBabies <~ reads (fun s => babyItemsOf userId (babyItems s)) ;;
                  match someSameName babyName existingBabies with
                  | None => raise "TypeError: Cannot read properties of undefined"
                  | Some true =>
                      answer 409 (Failure "You already have a baby with that name")
                  | Some false =>
                      (* F) insert the baby *)
                      babyId <~ drawUuid ;;
                      match parseUtcMidnight dateOfBirth with
                      | None => raise "RangeError: Invalid time value"
                      | Some dob =>
                          update (fun s => setBabyItems s
                            (<[babyId := mkBabyItem
                                           (mkBaby (Some babyName) (Some userId) (Some dob)
                                              None)
                                           (accEmail mother) (Some sex)]> (babyItems s))) ~;;
                          unit_ (mkReply 201
                                   (BabyAdded "Profile updated & baby added successfully"
                                      babyId babyName dateOfBirth sex))
                      end
                  end
        end
    end.

Definition postProfile (auth : Authorization) (b : ProfileBody) : Site -> Site * Reply :=
  attempt (postProfileBody auth b) (mkReply 500 (Failure "Server error")).

(** *** [GET /api/profile] *)

(** [b.dateOfBirth.split('T')[0]] and the other fields of a listed baby *)
Definition formatBaby (p : string * BabyItem) : option BabyView :=
  match dateOfBirth (babyRecord p.2) with
  | Some t => Some (mkBabyView p.1 (babyName (babyRecord p.2)) (JsDate.isoDate t) (gender p.2))
  | None => None
  end.

Fixpoint formatBabies (items : list (string * BabyItem)) : Act (list BabyView) :=
  match items with
  | [] => unit_ []
  | p :: rest =>
      match formatBaby p with
      | None => raise "TypeError: Cannot read properties of undefined"
      | Some v => vs <~ formatBabies rest ;; unit_ (v :: vs)
      end
  end.

(** [!!value] *)
Definition truthy (field : option string) : bool := negb (falsy field).

Definition getProfileBody (auth : Authorization) : Act Reply :=
  userId <~ authenticate auth ;;
  mother <~ reads (fun s => accounts s !! userId) ;;
  match mother with
  | None => answer 404 (Failure "Profile not found")
  | Some mother =>
      babyList <~ reads (fun s => babyItemsOf userId (babyItems s)) ;;
      formattedBabies <~ formatBabies babyList ;;
      match accUser mother with
      | None => raise "TypeError: Cannot read properties of undefined"
      | Some c =>
          unit_ (mkReply 200
                   (ProfileView (mustReset c)
                      (truthy (accFullName mother) && truthy (accPhone mother)
                       && (0 <? length formattedBabies)%nat)
                      (accFullName mother) (accPhone mother) formattedBabies))
      end
  end.

Definition getProfile (auth : Authorization) : Site -> Site * Reply :=
  attempt (getProfileBody auth) (mkReply 500 (Failure "Server error")).

(** *** The routes of the accounts *)

Definition serve (r : AccountRequest) : Site -> Site * Reply :=
  match r with
  | Signup mail now => signup mail now
  | ResetPassword auth newPassword => resetPassword auth newPassword
  | Login address password => login address password
  | PostProfile auth b => postProfile auth b
  | GetProfile auth => getProfile auth
  end.

(** The site after a sequence of requests. *)
Definition serveAll (rs : list AccountRequest) (s : Site) : Site :=
  foldl (fun s r => (serve r s).1) s rs.

End AccountRoutes.

(** The record of a mother as the cron handlers read it. *)
Definition motherOf (a : Account) : Mother :=
  mkMother (accEmail a) (accFullName a)
    (option_map (fun c => mkUser (credEmail c) (mustReset c)) (accUser a)).


(** * Specification-level definitions *)

(** A nonnegative integer. *)
Definition isNonnegInteger (x : number) : Prop :=
  exists n : Z, 0 <= n /\ x = Js.of_Z n.

(** A nonnegative multiple of one half. *)
Definition isNonnegHalfInteger (x : number) : Prop :=
  exists k : Z, 0 <= k /\ x = Num (Qred (k # 2)).

(** The time invariant of a reminder at generation time. *)
Definition inFuture (now : Z) (r : Reminder) : Prop :=
  now < vaccination_date r /\ now < scheduled_at r /\ scheduled_at r < vaccination_date r.

(** The projector emits a weekly candidate for a schedule entry. *)
Definition hasWeekly (cs : list Candidate) : Prop :=
  exists c, c ∈ cs /\ candCadence c = weekly.

(** The [reminders] table is keyed by the [reminderId] attribute. *)
Definition wellKeyed (t : gmap string Reminder) : Prop :=
  map_Forall (fun k r => reminderId r = k) t.

(** The items [uuidItems] builds when [n] identifiers were drawn before. *)
Fixpoint uuidItemsFrom (rng : nat -> string) (n : nat) (userId baby : string)
    (cs : list Candidate) : list Reminder :=
  match cs with
  | [] => []
  | c :: cs' => item (rng n) userId baby c :: uuidItemsFrom rng (S n) userId baby cs'
  end.

Definition bumpUuidBy (k : nat) (w : World) : World :=
  mkWorld (reminders w) (babies w) (mothers w) (schedule w) (mailLog w) (k + uuidCount w).

(** Deleting the reminders selected by [P] and writing [items]: the common
    shape of the correction and regeneration routes. *)
Definition rewriteTable (P : Reminder -> Prop) `{!forall r, Decision (P r)}
    (items : list Reminder) (t : gmap string Reminder) : gmap string Reminder :=
  foldl applyRequest
    (foldl applyRequest t (deleteRequests (filter P (scanReminders t))))
    (map PutRequest items).

(** ** A sample deployment

    Server clock on UTC; one mother with one baby born on 2025-06-01; the
    requests arrive on 2025-06-02 at 08:00 UTC. *)

Definition utc : Z := 0.

Definition sampleRng (n : nat) : string := "uuid-" ++ JsDate.pad 4 (Z.of_nat n).

Definition sampleBirth : Z := 20240 * msPerDay.

Definition sampleNow : Z := 20241 * msPerDay + 8 * msPerHour.

Definition sampleSchedule : list ScheduleEntry :=
  [mkEntry "Birth" "BCG"; mkEntry "6 weeks" "OPV1"; mkEntry "10 weeks" "OPV2"].

Definition sampleMother : Mother :=
  mkMother (Some "amina@example.org") (Some "Amina Otieno")
    (Some (mkUser (Some "amina@example.org") false)).

Definition sampleBaby : Baby :=
  mkBaby (Some "Baraka Otieno") (Some "u1") (Some sampleBirth) None.

Definition sampleWorld : World :=
  mkWorld ∅ {["b1" := sampleBaby]} {["u1" := sampleMother]} sampleSchedule [] 0.

(** An unsent daily reminder of the sample baby whose trigger time,
    2025-05-31 11:00 UTC, has passed at [sampleNow]. *)
Definition overdueReminder : Reminder :=
  mkReminder "b1#HepB#daily#2025-05-31" "u1" "b1" "HepB"
    (20240 * msPerDay) (20239 * msPerDay + 11 * msPerHour) false daily.

Definition worldWithOverdue : World :=
  mkWorld {[reminderId overdueReminder := overdueReminder]}
    {["b1" := sampleBaby]} {["u1" := sampleMother]} sampleSchedule [] 0.

(** The (vaccine, date) pair of an administered entry. *)
Definition entryKey (e : AdministeredEntry) : string * string :=
  (admVaccine e, admDate e).

(** The administered list of a baby in a world. *)
Definition administeredOf (id : string) (w : World) : list AdministeredEntry :=
  match babies w !! id with
  | Some b => administeredList b
  | None => []
  end.

(** ** The cron run, step by step *)

(** The groups [due.reduce] builds from an accumulator. *)
Definition grouped (due : list Reminder) (acc : list (string * list Reminder))
  : list (string * list Reminder) :=
  foldl (fun acc r => pushTo (motherId r) r acc) acc due.

(** Some due reminder names a recipient that [Object.prototype] defines. *)
Definition hasInheritedName (due : list Reminder) : bool :=
  existsb (fun r => existsb (String.eqb (motherId r)) inherited_names) due.

(** The recipient groups of a run, in the order of the loop. *)
Definition recipientGroups (c : Cadence) (now : Z) (w : World) : list (string * list Reminder) :=
  ObjectEntries (grouped (queryDue c now (reminders w)) []).

(** The due reminders of a recipient. *)
Definition dueOf (c : Cadence) (now : Z) (w : World) (m : string) : list Reminder :=
  filter (fun r => motherId r = m) (queryDue c now (reminders w)).

(** The message the daily handler sends for a group, if it sends one. *)
Definition dispatchOf (tz : Z) (sentence : string) (ms : gmap string Mother)
    (e : string * list Reminder) : option Mail :=
  match dailyAddress (ms !! e.1), e.2 with
  | Some (address, m), first :: _ =>
      Some (combinedMail tz sentence address (full_name m) first e.2)
  | _, _ => None
  end.

(** The loop that marks the reminders of a group. *)
Definition markAll (rems : list Reminder) (t : gmap string Reminder) : gmap string Reminder :=
  foldl (fun t r => alter markedSent (reminderId r) t) t rems.

(** The loop over the groups: the table, the mail log and whether no
    dispatch was rejected. *)
Fixpoint runGroups (transport : Mail -> bool) (tz : Z) (sentence : string)
    (ms : gmap string Mother) (es : list (string * list Reminder))
    (t : gmap string Reminder) (log : list Mail)
  : gmap string Reminder * list Mail * bool :=
  match es with
  | [] => (t, log, true)
  | e :: es' =>
      match dispatchOf tz sentence ms e with
      | None => runGroups transport tz sentence ms es' t log
      | Some mail =>
          if transport mail
          then runGroups transport tz sentence ms es' (markAll e.2 t) (log ++ [mail])%list
          else (t, (log ++ [mail])%list, false)
      end
  end.

(** The table after the groups that were dispatched have been marked. *)
Definition markDispatched (tz : Z) (sentence : string) (ms : gmap string Mother)
    (es : list (string * list Reminder)) (t : gmap string Reminder) : gmap string Reminder :=
  foldl (fun t e => match dispatchOf tz sentence ms e with
                    | Some _ => markAll e.2 t
                    | None => t
                    end) t es.

(** The state of a reminder of group [e] after the group was handled. *)
Definition afterGroup (tz : Z) (sentence : string) (ms : gmap string Mother)
    (e : string * list Reminder) (r : Reminder) : Reminder :=
  match dispatchOf tz sentence ms e with
  | Some _ => markedSent r
  | None => r
  end.

(** [x] occurs in [s]. *)
Definition occursIn (x s : string) : Prop :=
  exists before after, s = before ++ x ++ after.

Definition dailySentence : string := "Your baby has these vaccines due on".

(** The failure policy of the specification, for one run of the daily
    handler: the run ends with status 200 and every group whose message the
    transport accepts is dispatched and marked sent. *)
Definition failuresIsolated (tz : Z) (transport : Mail -> bool) (now : Z) (w : World) : Prop :=
  let '(w', resp) := dailyHandler tz transport now w in
  status resp = 200
  /\ forall e mail,
      e ∈ recipientGroups daily now w ->
      dispatchOf tz dailySentence (mothers w) e = Some mail ->
      transport mail = true ->
      mail ∈ mailLog w'
      /\ forall r, r ∈ e.2 -> sent <$> reminders w' !! reminderId r = Some true.

(** The grouped dispatch of the specification, for one recipient of one
    run of the daily handler: the message of the recipient's group is among
    the calls of the run and, when the transport accepts it, the group is
    marked sent. *)
Definition dispatchedOnce (tz : Z) (transport : Mail -> bool) (now : Z) (w : World)
    (m : string) : Prop :=
  let w' := (dailyHandler tz transport now w).1 in
  exists mail before after,
    dispatchOf tz dailySentence (mothers w) (m, dueOf daily now w m) = Some mail
    /\ mailLog w' = (mailLog w ++ before ++ [mail] ++ after)%list
    /\ (transport mail = true ->
        forall r, r ∈ dueOf daily now w m -> sent <$> reminders w' !! reminderId r = Some true).

(** ** A sample run of the daily handler

    [cronNow] is 2025-07-12 11:05 UTC.  Amina has two daily reminders due
    since 11:00; Wanjiru has one that is due since the day before and still
    unsent, so the query, earliest first, lists it first. *)

Definition cronNow : Z := 20281 * msPerDay + 11 * msPerHour + 300000.

Definition wanjiru : Mother :=
  mkMother (Some "wanjiru@example.org") (Some "Wanjiru Kamau")
    (Some (mkUser (Some "wanjiru@example.org") false)).

Definition dueOPV : Reminder :=
  mkReminder "b1#OPV1#daily#2025-07-12" "u1" "b1" "OPV1"
    (20282 * msPerDay) (20281 * msPerDay + 11 * msPerHour) false daily.

Definition duePenta : Reminder :=
  mkReminder "b1#Penta1#daily#2025-07-12" "u1" "b1" "Penta1"
    (20282 * msPerDay) (20281 * msPerDay + 11 * msPerHour) false daily.

Definition dueOther : Reminder :=
  mkReminder "b2#OPV1#daily#2025-07-11" "u2" "b2" "OPV1"
    (20281 * msPerDay) (20280 * msPerDay + 11 * msPerHour) false daily.

Definition cronWorld : World :=
  mkWorld
    (<[reminderId dueOPV := dueOPV]>
       (<[reminderId duePenta := duePenta]> {[reminderId dueOther := dueOther]}))
    ∅ (<["u1" := sampleMother]> {["u2" := wanjiru]}) sampleSchedule [] 0.

(** The same, with the record of Wanjiru lacking the address. *)
Definition cronWorldNoContact : World :=
  mkWorld (reminders cronWorld) ∅
    (<["u1" := sampleMother]> {["u2" := mkMother None (Some "Wanjiru Kamau") None]})
    sampleSchedule [] 0.

Definition acceptAll (m : Mail) : bool := true.

(** A transport that rejects the messages to one address. *)
Definition rejecting (address : string) (m : Mail) : bool :=
  negb (String.eqb (mailTo m) address).
(** ** The domain of the offset calculator

    The numbers of the model are exact, and its strings are the UTF-8
    bytes of the strings of the language.  On an age expression of ASCII
    characters and en dashes whose numerals have at most 13 digits the two
    agree: white space, letters and digits are the ASCII ones, and every
    number the calculator forms is a multiple of one half below 2^52, which
    a double holds exactly. *)

Definition is_ascii (c : ascii) : bool := (Js.code c <? 128)%nat.

(** ASCII characters and en dashes (E2 80 93) only. *)
Fixpoint plainText (s : string) : bool :=
  match s with
  | EmptyString => true
  | String c s' =>
      if is_ascii c then plainText s'
      else
        match s' with
        | String c2 (String c3 s'') =>
            ((Js.code c =? 226) && (Js.code c2 =? 128) && (Js.code c3 =? 147))%nat
            && plainText s''
        | _ => false
        end
  end.

(** What the patterns of the calculator capture of an age expression: the
    numerals and the unit word of the range pattern, else of the single
    pattern. *)
Definition captures (ageStr : string) : option (list string * string) :=
  let ageStr := Js.toLowerCase (Js.trim ageStr) in
  match rangeRegex ageStr with
  | Some (start, end_, unit) => Some ([start; end_], unit)
  | None =>
      match singleRegex ageStr with
      | Some (num, unit) => Some ([num], unit)
      | None => None
      end
  end.

Definition shortNumerals (ageStr : string) : Prop :=
  plainText ageStr = true
  /\ forall ns u, captures ageStr = Some (ns, u) ->
       Forall (fun n => (String.length n <= 13)%nat) ns.

(** The unit word is no name that an object literal inherits. *)
Definition ownUnit (ageStr : string) : Prop :=
  forall ns u, captures ageStr = Some (ns, u) -> unitMap u <> Inherited.


(** ** Definitions for the further properties *)

(** What comes after the run of [p]-characters does not start with one. *)
Definition stopsAt (p : ascii -> bool) (r : string) : Prop :=
  match r with
  | String c _ => p c = false
  | EmptyString => True
  end.

(** The dash of a range expression. *)
Definition isDash (d : string) : Prop := d = "-" \/ d = "–".

(** A number of the form the age expressions use: decimal digits. *)
Definition isDigits (s : string) : Prop :=
  s <> EmptyString /\ Js.all_chars Js.is_digit s = true.

(** A unit word in lower case. *)
Definition isLowerWord (s : string) : Prop :=
  s <> EmptyString /\ Js.all_chars Js.is_lower s = true.

(** White space between the number and the unit, possibly none. *)
Definition isBlank (s : string) : Prop := Js.all_chars Js.is_space s = true.

(** How many days before the vaccination date a reminder of a cadence is
    set. *)
Definition leadDays (c : Cadence) : Z :=
  match c with weekly => 7 | daily => 1 end.

(** The projector emits a daily candidate for a schedule entry. *)
Definition hasDaily (cs : list Candidate) : Prop :=
  exists c, c ∈ cs /\ candCadence c = daily.




(** ** The cron handlers, version by version *)

(** The versions that dispatch: by mail to [mother.user.email] (the daily
    handler of the claims, its on-demand variant and the weekly handler
    that reads the same field), or by a publish call to the topic. *)
Inductive CronVersion : Type :=
| DailyMail
| DailyMailOnDemand
| WeeklyMailUserEmail
| DailyTopic
| WeeklyTopic.

Definition handlerOf (tz : Z) (transport : Mail -> bool) (topicArn : string)
    (v : CronVersion) : Z -> World -> World * Response :=
  match v with
  | DailyMail => dailyHandler tz transport
  | DailyMailOnDemand => dailyHandlerOnDemand tz transport
  | WeeklyMailUserEmail => weeklyHandlerUserEmail tz transport
  | DailyTopic => dailyHandlerTopic tz transport topicArn
  | WeeklyTopic => weeklyHandlerTopic tz transport topicArn
  end.

Definition cadenceOf (v : CronVersion) : Cadence :=
  match v with
  | DailyMail | DailyMailOnDemand | DailyTopic => daily
  | WeeklyMailUserEmail | WeeklyTopic => weekly
  end.

(** The publish call a topic version makes for a group, if it makes one. *)
Definition publishOf (tz : Z) (topicArn : string) (ms : gmap string Mother)
    (e : string * list Reminder) : option Mail :=
  match topLevelAddress (ms !! e.1), e.2 with
  | Some (_, m), first :: _ => Some (publication tz topicArn (full_name m) first e.2)
  | _, _ => None
  end.

(** The call a version makes for a group, if it makes one. *)
Definition callOf (tz : Z) (topicArn : string) (v : CronVersion) (ms : gmap string Mother)
    (e : string * list Reminder) : option Mail :=
  match v with
  | DailyMail | WeeklyMailUserEmail => dispatchOf tz dailySentence ms e
  | DailyMailOnDemand =>
      dispatchOf tz "Your baby has the following vaccinations due on" ms e
  | DailyTopic | WeeklyTopic => publishOf tz topicArn ms e
  end.

(** The loop over the groups for any rule [call] that tells the message of
    a group: the table, the log and whether no call was rejected. *)
Fixpoint runWith (transport : Mail -> bool) (call : string * list Reminder -> option Mail)
    (es : list (string * list Reminder)) (t : gmap string Reminder) (log : list Mail)
  : gmap string Reminder * list Mail * bool :=
  match es with
  | [] => (t, log, true)
  | e :: es' =>
      match call e with
      | None => runWith transport call es' t log
      | Some mail =>
          if transport mail
          then runWith transport call es' (markAll e.2 t) (log ++ [mail])%list
          else (t, (log ++ [mail])%list, false)
      end
  end.

(** A loop body that handles a group by the rule [call]. *)
Definition handlesBy (transport : Mail -> bool)
    (call : gmap string Mother -> string * list Reminder -> option Mail)
    (group : string * list Reminder -> M unit) : Prop :=
  forall e w, e.2 <> [] ->
    group e w
    = match call (mothers w) e with
      | None => (w, Next tt)
      | Some mail =>
          if transport mail
          then (setReminders (logMail w mail) (markAll e.2 (reminders w)), Next tt)
          else (logMail w mail, Throw "sendMail rejected")
      end.

(** The address test of a version. *)
Definition addressFor (v : CronVersion) (mother : option Mother) : option (string * Mother) :=
  match v with
  | DailyMail | DailyMailOnDemand | WeeklyMailUserEmail => dailyAddress mother
  | DailyTopic | WeeklyTopic => topLevelAddress mother
  end.

(** The state of a reminder of group [e] after the group was handled by
    the rule [call]. *)
Definition afterCall (call : string * list Reminder -> option Mail)
    (e : string * list Reminder) (r : Reminder) : Reminder :=
  match call e with
  | Some _ => markedSent r
  | None => r
  end.

(** The date string of a calendar date with a four-digit year. *)
Definition dateString (y m d : Z) : string :=
  (JsDate.pad 4 y ++ "-" ++ JsDate.pad 2 m ++ "-" ++ JsDate.pad 2 d)%string.

(** The first and the last day number with a four-digit year: 0000-01-01
    and 9999-12-31. *)
Definition firstDay : Z := -719528.
Definition lastDay : Z := 2932896.


(** ** Where the store and its model agree *)



(** The candidates of a baby have distinct composite identifiers, so that
    the batches the routes write from them name no key twice. *)
Definition distinctIds (baby : string) (cs : list Candidate) : Prop :=
  NoDup (map (compositeId baby) cs).

(** An instant with a four-digit year, 0000 to 9999: the ISO strings of
    such instants are ordered as the instants are, which is how the store
    compares [scheduled_at] with [now]. *)
Definition fourDigitYear (t : Z) : Prop :=
  firstDay * msPerDay <= t < (lastDay + 1) * msPerDay.

Definition plainDates (now : Z) (t : gmap string Reminder) : Prop :=
  fourDigitYear now /\ forall k r, t !! k = Some r -> fourDigitYear (scheduled_at r).

(** Every baby with an owner has a name: the name comparison of the
    creation route reads [b.babyName] of each baby of the caller. *)
Definition ownedBabiesNamed (t : gmap string Baby) : Prop :=
  forall i b, t !! i = Some b -> motherUserId b <> None -> babyName b <> None.

(** The statuses by which a route turns a request down. *)
Definition refusal (code : Z) : Prop :=
  code = 400 \/ code = 401 \/ code = 403 \/ code = 404 \/ code = 409.
(** ** Definitions for the properties of the accounts *)

(** No two accounts share an e-mail address. *)
Definition uniqueEmails (t : gmap string Account) : Prop :=
  forall i j a b e,
    t !! i = Some a -> t !! j = Some b ->
    accEmail a = Some e -> accEmail b = Some e -> i = j.

(** No two accounts share a phone number. *)
Definition uniquePhones (t : gmap string Account) : Prop :=
  forall i j a b pn,
    t !! i = Some a -> t !! j = Some b ->
    accPhone a = Some pn -> accPhone b = Some pn -> i = j.

(** No account has the attribute [user.email]. *)
Definition noUserEmail (t : gmap string Account) : Prop :=
  forall i a c, t !! i = Some a -> accUser a = Some c -> credEmail c = None.

(** The versions of the cron handlers that write to [mother.user.email]. *)
Definition mailsUserEmail (v : CronVersion) : bool :=
  match v with
  | DailyMail | DailyMailOnDemand | WeeklyMailUserEmail => true
  | DailyTopic | WeeklyTopic => false
  end.

(** Every baby of a mother has a birth date. *)
Definition datedBabies (userId : string) (t : gmap string BabyItem) : Prop :=
  forall k b, t !! k = Some b -> motherUserId (babyRecord b) = Some userId ->
    dateOfBirth (babyRecord b) <> None.

(** The account a sign-up writes, with the hash of the [n]-th random
    password. *)
Definition newAccount (bcryptHash : string -> string) (randomPassword : nat -> string)
    (address : string) (n : nat) (now : Z) : Account :=
  mkAccount (Some address) None None
    (Some (mkCredentials (bcryptHash (randomPassword n)) true now None)).

(** A body with the five fields of the profile and nothing else. *)
Definition validProfile (name phone child born sex : string) : ProfileBody :=
  mkProfileBody (Some name) (Some phone) (Some child) (Some born) (Some sex) false.

(** An account with a new name and phone number. *)
Definition renamed (name phone : string) (a : Account) : Account :=
  mkAccount (accEmail a) (Some name) (Some phone) (accUser a).

(** An account with a new password that needs no reset. *)
Definition rehashed (hashed : string) (a : Account) (c : Credentials) : Account :=
  mkAccount (accEmail a) (accFullName a) (accPhone a)
    (Some (mkCredentials hashed false (created_at c) (credEmail c))).

(** The phone number is free for the account [k]: the index lists no
    account, or lists first the account [k] itself. *)
Definition phoneFreeFor (k phone : string) (t : gmap string Account) : Prop :=
  match byPhone phone t with
  | (owner, _) :: _ => owner = k
  | [] => True
  end.

(** What a request can do to the [mothers] table: nothing, the insertion of
    a new account under an address no account has, a new password for an
    account, or a new name and phone for an account. *)
Inductive accountsStep (t t' : gmap string Account) : Prop :=
| step_same : t' = t -> accountsStep t t'
| step_signup (k address : string) (hashed : string) (now : Z) :
    byEmail address t = [] ->
    t' = <[k := mkAccount (Some address) None None
                  (Some (mkCredentials hashed true now None))]> t ->
    accountsStep t t'
| step_reset (k hashed : string) (a : Account) (c : Credentials) :
    t !! k = Some a -> accUser a = Some c ->
    t' = <[k := rehashed hashed a c]> t ->
    accountsStep t t'
| step_profile (k name phone : string) (a : Account) :
    t !! k = Some a -> phoneFreeFor k phone t ->
    t' = <[k := renamed name phone a]> t ->
    accountsStep t t'.

(** Sample values of the parameters of the account routes, and a site
    with empty tables. *)
Definition samplePassword (n : nat) : string := JsDate.pad 6 (100000 + Z.of_nat n).

Definition sampleHash (password : string) : string := ("$2b$10$" ++ password)%string.

Definition sampleCompare (password hashed : string) : bool :=
  String.eqb hashed (sampleHash password).

Definition sampleMessage (b : ProfileBody) : string := "fullName is required"%string.

Definition emptySite : Site := mkSite ∅ ∅ [] [] 0 0.

(** A site with one account whose password was reset. *)
Definition sampleAccount : Account :=
  mkAccount (Some "amina@example.com"%string) None None
    (Some (mkCredentials (sampleHash "secret") false sampleNow None)).

Definition memberSite : Site :=
  mkSite {[ "uuid-0000"%string := sampleAccount ]} ∅ [] [] 1 1.

(** A baby of the profile as the route lists it when it has a birth
    date. *)
Definition viewOf (p : string * BabyItem) : BabyView :=
  mkBabyView p.1 (babyName (babyRecord p.2))
    (match dateOfBirth (babyRecord p.2) with
     | Some t => JsDate.isoDate t
     | None => EmptyString
     end)
    (gender p.2).

(** A daily reminder for the mother of [memberSite], due at [sampleNow]. *)
Definition dueForMember : Reminder :=
  mkReminder "b9#OPV1#daily#2025-06-01" "uuid-0000" "b9" "OPV1"
    (sampleBirth + msPerDay) (sampleBirth + 11 * msPerHour) false daily.


(** * Verification *)

Local Open Scope list_scope.

(** ** Worked examples *)

Example parse_6_weeks : parseAgeToDays "6 weeks" = Num 42.
Proof. reflexivity. Qed.

Example parse_2_4_months : parseAgeToDays "2-4 months" = Num 90.
Proof. reflexivity. Qed.

Example parse_birth : parseAgeToDays "  Birth " = Num 0.
Proof. reflexivity. Qed.

Example parse_bogus : parseAgeToDays "bogus" = Num 0.
Proof. reflexivity. Qed.

Example parse_1_2_weeks : parseAgeToDays "1-2 weeks" = Num (21 # 2).
Proof. reflexivity. Qed.

Example parse_en_dash : parseAgeToDays "9–12 Months" = Num 315.
Proof. reflexivity. Qed.

Example parse_digits_only : parseAgeToDays "42" = Num 0.
Proof. reflexivity. Qed.

Example parse_inherited : parseAgeToDays "6 constructor" = NaN.
Proof. reflexivity. Qed.

Example iso_epoch : JsDate.toISOString 0 = "1970-01-01T00:00:00.000Z".
Proof. reflexivity. Qed.

Example iso_2025 : JsDate.toISOString 1749031445678 = "2025-06-04T10:04:05.678Z".
Proof. reflexivity. Qed.

Example dateString_2025 : JsDate.toDateString 0 1749031445678 = "Wed Jun 04 2025".
Proof. reflexivity. Qed.

Example iso_leap : JsDate.isoDate (19782 * msPerDay) = "2024-02-29".
Proof. reflexivity. Qed.

Example iso_before_epoch : JsDate.toISOString (-1) = "1969-12-31T23:59:59.999Z".
Proof. reflexivity. Qed.

Example iso_2000 : JsDate.isoDate (11016 * msPerDay) = "2000-02-29".
Proof. reflexivity. Qed.

Example iso_1900 : JsDate.isoDate (-25508 * msPerDay) = "1900-03-01".
Proof. reflexivity. Qed.

Example iso_9999 : JsDate.isoDate (2932896 * msPerDay) = "9999-12-31".
Proof. reflexivity. Qed.

Example iso_expanded : JsDate.isoDate (2932897 * msPerDay) = "+010000-01-01".
Proof. reflexivity. Qed.

Example dateString_nairobi :
  JsDate.toDateString (3 * msPerHour) (16435 * msPerDay + 22 * msPerHour) = "Thu Jan 01 2015".
Proof. reflexivity. Qed.

Example setDate_truncates :
  vaccinationDate 0 (Some (20240 * msPerDay)) "1-2 weeks" = Some (20250 * msPerDay).
Proof. reflexivity. Qed.

Example setDate_invalid :
  vaccinationDate 0 (Some (20240 * msPerDay)) "6 constructor" = None.
Proof. reflexivity. Qed.

(** ** Properties of [parseAgeToDays] *)

Lemma span_all p s a b : Js.span p s = (a, b) -> Js.all_chars p a = true.
Proof.
  revert a b. induction s as [|c s IH]; simpl; intros a b H.
  - by inversion H.
  - destruct (p c) eqn:Hc.
    + destruct (Js.span p s) as [a' b'] eqn:Hs. inversion H; subst. simpl.
      rewrite Hc. simpl. by eapply IH.
    + by inversion H.
Qed.

Lemma unsnoc_all p s i l :
  Js.all_chars p s = true -> Js.unsnoc s = Some (i, l) -> Js.all_chars p i = true.
Proof.
  revert i l. induction s as [|c s IH]; simpl; intros i l Hall H; [done|].
  apply andb_true_iff in Hall as [Hc Hs].
  destruct (Js.unsnoc s) as [[i' l']|] eqn:Hu.
  - inversion H; subst. simpl. rewrite Hc. simpl. by eapply IH.
  - by inversion H.
Qed.

Lemma digit_val_nonneg c : Js.is_digit c = true -> 0 <= Js.digit_val c.
Proof.
  unfold Js.is_digit, Js.digit_val. intros H.
  apply andb_true_iff in H as [H _]. apply Nat.leb_le in H. lia.
Qed.

Lemma parseInt_from_nonneg s acc :
  Js.all_chars Js.is_digit s = true -> 0 <= acc -> 0 <= Js.parseInt_from acc s.
Proof.
  revert acc. induction s as [|c s IH]; simpl; intros acc Hall Hacc; [done|].
  apply andb_true_iff in Hall as [Hc Hs].
  apply IH; [done|]. pose proof (digit_val_nonneg c Hc). lia.
Qed.

Lemma match_num_unit_digits s d u :
  match_num_unit s = Some (d, u) -> Js.all_chars Js.is_digit d = true.
Proof.
  unfold match_num_unit.
  destruct (Js.span Js.is_digit s) as [ds r] eqn:Hs.
  pose proof (span_all _ _ _ _ Hs) as Hds.
  destruct (Js.is_empty ds); [done|].
  destruct (Js.span Js.is_space r) as [sp w].
  destruct (negb (Js.is_empty w) && Js.all_chars Js.is_word w).
  - intros H. by inversion H; subst.
  - destruct (Js.is_empty r); [|done].
    destruct (Js.unsnoc ds) as [[i l]|] eqn:Hu; [|done].
    destruct i as [|c i]; [done|]. intros H. inversion H; subst.
    by eapply unsnoc_all.
Qed.

Lemma rangeRegex_digits s a b u :
  rangeRegex s = Some (a, b, u) ->
  Js.all_chars Js.is_digit a = true /\ Js.all_chars Js.is_digit b = true.
Proof.
  unfold rangeRegex.
  destruct (Js.span Js.is_digit s) as [d1 r] eqn:Hs.
  pose proof (span_all _ _ _ _ Hs) as Hd1.
  destruct (Js.is_empty d1); [done|].
  destruct (strip_dash r) as [r'|]; [|done].
  destruct (match_num_unit r') as [[d2 w]|] eqn:Hm; [|done].
  intros H. inversion H; subst. split; [done|]. by eapply match_num_unit_digits.
Qed.

Lemma unitDays_cases u :
  unitDays u = NaN \/ exists d, 0 <= d /\ unitDays u = Js.of_Z d.
Proof.
  unfold unitDays, unitMap.
  repeat match goal with
         | |- context [if ?b then _ else _] => destruct b
         end; simpl; try (by left); right; eexists; (split; [|reflexivity]); lia.
Qed.

Lemma average_times a b d :
  Js.mul (Js.div (Js.add (Js.of_Z a) (Js.of_Z b)) (Js.of_Z 2)) (Js.of_Z d)
  = Num (Qred ((a + b) * d # 2)).
Proof.
  unfold Js.mul, Js.div, Js.add, Js.of_Z. f_equal. apply Qred_complete.
  rewrite !Qred_correct. unfold Qeq, Qdiv, Qmult, Qplus, Qinv, inject_Z; simpl. lia.
Qed.

Lemma single_times n d :
  Js.mul (Js.of_Z n) (Js.of_Z d) = Js.of_Z (n * d).
Proof.
  unfold Js.mul, Js.of_Z. f_equal.
  change (inject_Z n * inject_Z d)%Q with (inject_Z (n * d)).
  apply Qcanon.Qred_identity. simpl. apply Z.gcd_1_r.
Qed.

(** The value of [parseAgeToDays]: [NaN], a nonnegative integer, or, for a
    range only, a nonnegative multiple of one half. *)
Lemma parseAgeToDays_cases s :
  parseAgeToDays s = NaN
  \/ isNonnegInteger (parseAgeToDays s)
  \/ (is_Some (rangeRegex (Js.toLowerCase (Js.trim s)))
      /\ isNonnegHalfInteger (parseAgeToDays s)).
Proof.
  unfold parseAgeToDays.
  destruct (String.eqb _ "birth").
  { right. left. exists 0. split; [lia|]. reflexivity. }
  destruct (rangeRegex _) as [[[a b] u]|] eqn:Hr.
  - apply rangeRegex_digits in Hr as [Ha Hb].
    destruct (unitDays_cases u) as [->|(d & Hd & ->)].
    + left. unfold Js.parseInt. reflexivity.
    + right. right. split; [by eexists|]. unfold Js.parseInt. rewrite average_times.
      eexists. split; [|reflexivity].
      pose proof (parseInt_from_nonneg a 0 Ha). pose proof (parseInt_from_nonneg b 0 Hb). nia.
  - destruct (singleRegex _) as [[n u]|] eqn:Hsg.
    + apply match_num_unit_digits in Hsg.
      destruct (unitDays_cases u) as [->|(d & Hd & ->)].
      * left. reflexivity.
      * right. left. unfold Js.parseInt. rewrite single_times.
        eexists. split; [|reflexivity].
        pose proof (parseInt_from_nonneg n 0 Hsg). nia.
    + right. left. exists 0. split; [lia|]. reflexivity.
Qed.

(** C7, as stated, fails: the average of a range is not rounded, so the
    value of "1-2 weeks" is 10.5 days. *)
Lemma parseAgeToDays_not_integer : ~ isNonnegInteger (parseAgeToDays "1-2 weeks").
Proof.
  intros (n & _ & H). vm_compute in H. inversion H.
Qed.

Lemma digit_val_le_9 c : Js.is_digit c = true -> Js.digit_val c <= 9.
Proof.
  unfold Js.is_digit, Js.digit_val. rewrite andb_true_iff, !Nat.leb_le. lia.
Qed.

Lemma parseInt_from_bound s acc :
  Js.all_chars Js.is_digit s = true -> 0 <= acc ->
  Js.parseInt_from acc s < (acc + 1) * 10 ^ Z.of_nat (String.length s).
Proof.
  revert acc. induction s as [|c s IH]; intros acc Hall Hacc;
    cbn [Js.all_chars Js.parseInt_from String.length] in *.
  - change (10 ^ Z.of_nat 0) with 1. lia.
  - apply andb_true_iff in Hall as [Hc Hs].
    pose proof (digit_val_nonneg c Hc). pose proof (digit_val_le_9 c Hc).
    specialize (IH (10 * acc + Js.digit_val c) Hs ltac:(lia)).
    rewrite Nat2Z.inj_succ, Z.pow_succ_r by lia.
    assert (0 < 10 ^ Z.of_nat (String.length s)) by (apply Z.pow_pos_nonneg; lia).
    nia.
Qed.

(** A numeral of at most 13 digits is below 10^13. *)
Lemma numeral_bound ds :
  Js.all_chars Js.is_digit ds = true -> (String.length ds <= 13)%nat ->
  0 <= Js.parseInt_from 0 ds < 10 ^ 13.
Proof.
  intros Hd Hlen. split; [by apply parseInt_from_nonneg|].
  pose proof (parseInt_from_bound ds 0 Hd ltac:(lia)) as H.
  assert (10 ^ Z.of_nat (String.length ds) <= 10 ^ 13) by (apply Z.pow_le_mono_r; lia).
  lia.
Qed.

Lemma unitMap_own u d : unitMap u = Own d -> 0 < d <= 365.
Proof.
  unfold unitMap.
  repeat match goal with
         | |- context [if ?b then _ else _] => destruct b
         end; intros [= <-] || discriminate; lia.
Qed.

Lemma of_Z_halves n : Js.of_Z n = Num (Qred (2 * n # 2)).
Proof.
  unfold Js.of_Z. f_equal.
  rewrite <- (Qcanon.Qred_identity (inject_Z n)) by (simpl; apply Z.gcd_1_r).
  apply Qred_complete. unfold Qeq, inject_Z. simpl. lia.
Qed.

(** The value of [parseAgeToDays] on an expression with short numerals and
    a unit word of its own: a nonnegative integer or, for a range only, a
    nonnegative multiple of one half; in both cases [k / 2] for some [k]
    below 2^53. *)
Lemma parseAgeToDays_plain s :
  shortNumerals s -> ownUnit s ->
  (isNonnegInteger (parseAgeToDays s)
   \/ (is_Some (rangeRegex (Js.toLowerCase (Js.trim s)))
       /\ isNonnegHalfInteger (parseAgeToDays s)))
  /\ exists k, 0 <= k < 2 ^ 53 /\ parseAgeToDays s = Num (Qred (k # 2)).
Proof.
  intros [_ Hshort] Hown. unfold ownUnit in Hown. unfold captures in Hshort, Hown.
  unfold parseAgeToDays.
  assert (Hzero : (isNonnegInteger (Js.of_Z 0)
                   \/ (is_Some (rangeRegex (Js.toLowerCase (Js.trim s)))
                       /\ isNonnegHalfInteger (Js.of_Z 0)))
                  /\ exists k, 0 <= k < 2 ^ 53 /\ Js.of_Z 0 = Num (Qred (k # 2))).
  { split; [left; exists 0; split; [lia|reflexivity]|]. exists 0. split; [lia|reflexivity]. }
  destruct (String.eqb _ "birth"); [exact Hzero|].
  destruct (rangeRegex _) as [[[a b] u]|] eqn:Hr.
  - pose proof (Hshort _ _ eq_refl) as Hlen. pose proof (Hown _ _ eq_refl) as Hu.
    apply Forall_cons in Hlen as [Hla Hlen]. apply Forall_cons in Hlen as [Hlb _].
    apply rangeRegex_digits in Hr as [Ha Hb].
    pose proof (numeral_bound a Ha Hla). pose proof (numeral_bound b Hb Hlb).
    unfold unitDays, Js.parseInt. destruct (unitMap u) as [d| |] eqn:Hd; [|done|].
    + apply unitMap_own in Hd. rewrite average_times. split.
      * right. split; [by eexists|]. eexists. split; [|reflexivity]. nia.
      * eexists. split; [|reflexivity]. change (2 ^ 53) with 9007199254740992.
        change (10 ^ 13) with 10000000000000 in *. nia.
    + rewrite average_times, Z.mul_0_r. split.
      * right. split; [by eexists|]. exists 0. split; [lia|reflexivity].
      * exists 0. split; [lia|reflexivity].
  - destruct (singleRegex _) as [[n u]|] eqn:Hsg; [|exact Hzero].
    pose proof (Hshort _ _ eq_refl) as Hlen. pose proof (Hown _ _ eq_refl) as Hu.
    apply Forall_cons in Hlen as [Hln _].
    apply match_num_unit_digits in Hsg.
    pose proof (numeral_bound n Hsg Hln).
    unfold unitDays, Js.parseInt. destruct (unitMap u) as [d| |] eqn:Hd; [|done|].
    + apply unitMap_own in Hd. rewrite single_times. split.
      * left. eexists. split; [|reflexivity]. nia.
      * exists (2 * (Js.parseInt_from 0 n * d)). split; [|apply of_Z_halves].
        change (2 ^ 53) with 9007199254740992.
        change (10 ^ 13) with 10000000000000 in *. nia.
    + rewrite single_times, Z.mul_0_r. exact Hzero.
Qed.

Lemma plain_example s ns u :
  plainText s = true -> captures s = Some (ns, u) ->
  Forall (fun n => (String.length n <= 13)%nat) ns -> unitMap u <> Inherited ->
  shortNumerals s /\ ownUnit s.
Proof.
  intros Hp Hc Hn Hu. split; [split; [done|]|]; intros ns' u' Hc'; congruence.
Qed.

Lemma plain_unmatched s :
  plainText s = true -> captures s = None -> shortNumerals s /\ ownUnit s.
Proof.
  intros Hp Hc. split; [split; [done|]|]; intros ns' u' Hc'; congruence.
Qed.

(** C7, amended.  On an age expression of ASCII characters and en dashes
    whose numerals have at most 13 digits and whose unit word is no name an
    object inherits, [parseAgeToDays] returns a nonnegative integer or, for
    a range expression only, a nonnegative multiple of one half, in both
    cases a multiple of one half below 2^52, which the number type holds
    exactly; the four expressions of the specification are of this kind and
    have its four values. *)
Theorem parseAgeToDays_contract :
  (forall s, shortNumerals s -> ownUnit s ->
      (isNonnegInteger (parseAgeToDays s)
       \/ (is_Some (rangeRegex (Js.toLowerCase (Js.trim s)))
           /\ isNonnegHalfInteger (parseAgeToDays s)))
      /\ exists k, 0 <= k < 2 ^ 53 /\ parseAgeToDays s = Num (Qred (k # 2)))
  /\ (shortNumerals "6 weeks" /\ ownUnit "6 weeks" /\ parseAgeToDays "6 weeks" = Num 42)
  /\ (shortNumerals "2-4 months" /\ ownUnit "2-4 months"
      /\ parseAgeToDays "2-4 months" = Num 90)
  /\ (shortNumerals "birth" /\ ownUnit "birth" /\ parseAgeToDays "birth" = Num 0)
  /\ (shortNumerals "bogus" /\ ownUnit "bogus" /\ parseAgeToDays "bogus" = Num 0).
Proof.
  split; [exact parseAgeToDays_plain|].
  assert (H6 : shortNumerals "6 weeks" /\ ownUnit "6 weeks").
  { apply (plain_example _ ["6"] "weeks"); [reflexivity|reflexivity| |].
    - repeat constructor; simpl; lia.
    - unfold unitMap; simpl; discriminate. }
  assert (H24 : shortNumerals "2-4 months" /\ ownUnit "2-4 months").
  { apply (plain_example _ ["2"; "4"] "months"); [reflexivity|reflexivity| |].
    - repeat constructor; simpl; lia.
    - unfold unitMap; simpl; discriminate. }
  assert (Hbirth : shortNumerals "birth" /\ ownUnit "birth")
    by (apply plain_unmatched; reflexivity).
  assert (Hbogus : shortNumerals "bogus" /\ ownUnit "bogus")
    by (apply plain_unmatched; reflexivity).
  exact (conj (conj (proj1 H6) (conj (proj2 H6) eq_refl))
           (conj (conj (proj1 H24) (conj (proj2 H24) eq_refl))
              (conj (conj (proj1 Hbirth) (conj (proj2 Hbirth) eq_refl))
                 (conj (proj1 Hbogus) (conj (proj2 Hbogus) eq_refl))))).
Qed.

(** The amended contract at the range that refutes the original one: the
    value of "1-2 weeks" is the multiple 21 / 2 of one half. *)
Lemma parseAgeToDays_contract_witness :
  (isNonnegInteger (parseAgeToDays "1-2 weeks")
   \/ (is_Some (rangeRegex (Js.toLowerCase (Js.trim "1-2 weeks")))
       /\ isNonnegHalfInteger (parseAgeToDays "1-2 weeks")))
  /\ exists k, 0 <= k < 2 ^ 53 /\ parseAgeToDays "1-2 weeks" = Num (Qred (k # 2)).
Proof.
  assert (H : shortNumerals "1-2 weeks" /\ ownUnit "1-2 weeks").
  { apply (plain_example _ ["1"; "2"] "weeks"); [reflexivity|reflexivity| |].
    - repeat constructor; simpl; lia.
    - unfold unitMap; simpl; discriminate. }
  exact (proj1 parseAgeToDays_contract "1-2 weeks" (proj1 H) (proj2 H)).
Defined.

(** ** Date arithmetic *)

Lemma trunc_comp q q' : (q == q')%Q -> Js.trunc q = Js.trunc q'.
Proof.
  intros H. unfold Js.trunc. rewrite (Qleb_comp 0%Q 0%Q (Qeq_refl 0) q q' H).
  destruct (Qle_bool 0 q'); [apply Qfloor_comp | apply Qceiling_comp]; exact H.
Qed.

Lemma trunc_inject z : Js.trunc (inject_Z z) = z.
Proof. unfold Js.trunc. destruct (Qle_bool 0 (inject_Z z)); [apply Qfloor_Z | apply Qceiling_Z]. Qed.

Lemma trunc_sub_int a b : Js.trunc (Qred (inject_Z a - inject_Z b)) = a - b.
Proof.
  rewrite <- (trunc_inject (a - b)). apply trunc_comp.
  rewrite Qred_correct. unfold Z.sub. rewrite inject_Z_plus, inject_Z_opp. reflexivity.
Qed.

Lemma day_decompose t : t = JsDate.Day t * msPerDay + JsDate.TimeWithinDay t.
Proof.
  unfold JsDate.Day, JsDate.TimeWithinDay, msPerDay, JsDate.msPerDay.
  pose proof (Z.div_mod t 86400000). lia.
Qed.

Lemma timeWithinDay_range t : 0 <= JsDate.TimeWithinDay t < msPerDay.
Proof. unfold JsDate.TimeWithinDay, msPerDay, JsDate.msPerDay. apply Z.mod_pos_bound. lia. Qed.

Lemma day_shift t n : JsDate.Day (t - n * msPerDay) = JsDate.Day t - n.
Proof.
  unfold JsDate.Day, msPerDay, JsDate.msPerDay.
  replace (t - n * 86400000) with (t + (- n) * 86400000) by lia.
  rewrite Z.div_add by lia. lia.
Qed.

(** [d.setDate(d.getDate() - n)] moves a date by whole days. *)
Lemma setDate_minus tz t n :
  JsDate.setDate tz (Some t) (Js.sub (JsDate.getDate tz (Some t)) (Js.of_Z n))
  = JsDate.TimeClip (t - n * msPerDay).
Proof.
  unfold JsDate.setDate, JsDate.getDate, JsDate.MakeDay, Js.sub, Js.of_Z.
  rewrite trunc_sub_int. f_equal.
  unfold JsDate.UTC, JsDate.MakeDate, JsDate.firstOfMonth, JsDate.LocalTime.
  pose proof (day_decompose (t + tz)). lia.
Qed.

Lemma TimeClip_Some t u : JsDate.TimeClip t = Some u -> u = t /\ Z.abs t <= 8640000000000000.
Proof.
  unfold JsDate.TimeClip. destruct (Z.leb_spec (Z.abs t) 8640000000000000) as [Hle|]; [|done].
  intros Heq. inversion Heq; subst. by split.
Qed.

Lemma TimeClip_valid t : Z.abs t <= 8640000000000000 -> JsDate.TimeClip t = Some t.
Proof.
  unfold JsDate.TimeClip. intros Hle.
  destruct (Z.leb_spec (Z.abs t) 8640000000000000); [done|lia].
Qed.

(** The trigger time, when it is a valid date. *)
Lemma leadTime_Some tz v lead hour t :
  leadTime tz (Some v) lead hour = Some t ->
  t = (JsDate.Day (v + tz) - lead) * msPerDay + hour * msPerHour - tz.
Proof.
  unfold leadTime. rewrite setDate_minus.
  destruct (JsDate.TimeClip (v - lead * msPerDay)) as [u|] eqn:Hu; [|done].
  apply TimeClip_Some in Hu as [-> _]. unfold JsDate.setHours.
  intros H. apply TimeClip_Some in H as [-> _].
  unfold JsDate.UTC, JsDate.MakeDate, JsDate.LocalTime.
  replace (v - lead * msPerDay + tz) with (v + tz - lead * msPerDay) by lia.
  rewrite day_shift. lia.
Qed.

Lemma leadTime_valid tz v lead hour :
  Z.abs (v - lead * msPerDay) <= 8640000000000000 ->
  Z.abs ((JsDate.Day (v + tz) - lead) * msPerDay + hour * msPerHour - tz) <= 8640000000000000 ->
  leadTime tz (Some v) lead hour
  = Some ((JsDate.Day (v + tz) - lead) * msPerDay + hour * msPerHour - tz).
Proof.
  intros H1 H2. unfold leadTime. rewrite setDate_minus, TimeClip_valid by done.
  unfold JsDate.setHours, JsDate.UTC, JsDate.MakeDate, JsDate.LocalTime.
  replace (v - lead * msPerDay + tz) with (v + tz - lead * msPerDay) by lia.
  rewrite day_shift. by apply TimeClip_valid.
Qed.

(** A trigger set at least one day back, at an hour of the day, is before
    the vaccination date. *)
Lemma leadTime_before tz v lead hour t :
  1 <= lead -> hour < 24 ->
  leadTime tz (Some v) lead hour = Some t -> t < v.
Proof.
  intros Hl Hh H. apply leadTime_Some in H as ->.
  pose proof (day_decompose (v + tz)). pose proof (timeWithinDay_range (v + tz)).
  unfold msPerDay, msPerHour, JsDate.msPerDay, JsDate.msPerHour in *. nia.
Qed.

(** [diffDays >= 7] in milliseconds. *)
Lemma diffDays_ge_7 v now :
  Js.geb (diffDays (Some v) now) (Js.of_Z 7) = true <-> 7 * msPerDay <= v - now.
Proof.
  unfold diffDays, Js.geb, Js.div, Js.sub, JsDate.getTime, Js.of_Z.
  rewrite Qle_bool_iff, !Qred_correct.
  unfold Qle, Qdiv, Qmult, Qminus, Qplus, Qopp, Qinv, inject_Z, msPerDay, JsDate.msPerDay; simpl.
  lia.
Qed.

(** ** The reminders table under batch writes *)

Lemma writeChunks_foldl fuel reqs t :
  (length reqs <= fuel)%nat -> writeChunks fuel reqs t = foldl applyRequest t reqs.
Proof.
  revert reqs t. induction fuel as [|fuel IH]; intros reqs t Hlen.
  - destruct reqs; [done | simpl in Hlen; lia].
  - destruct reqs as [|rq reqs]; [done|].
    cbn [writeChunks]. rewrite IH.
    + unfold BatchWrite. rewrite <- foldl_app. by rewrite take_drop.
    + rewrite length_drop. simpl in *. lia.
Qed.

(** The loop over chunks of 25 ends and applies every request, in order. *)
Lemma batchWriteAll_run reqs w :
  batchWriteAll reqs w = (setReminders w (foldl applyRequest (reminders w) reqs), Next tt).
Proof. unfold batchWriteAll, modify. by rewrite writeChunks_foldl. Qed.

Lemma foldl_applyRequest_lookup reqs t k r :
  foldl applyRequest t reqs !! k = Some r ->
  t !! k = Some r \/ (PutRequest r ∈ reqs /\ reminderId r = k).
Proof.
  revert t. induction reqs as [|rq reqs IH]; intros t H; [by left|].
  simpl in H. apply IH in H as [H|[H1 H2]].
  - destruct rq as [x|key]; simpl in H.
    + destruct (decide (reminderId x = k)) as [<-|Hne].
      * rewrite lookup_insert_eq in H. inversion H; subst. right. split; [left|done].
      * rewrite lookup_insert_ne in H by done. by left.
    + destruct (decide (key = k)) as [<-|Hne].
      * by rewrite lookup_delete_eq in H.
      * rewrite lookup_delete_ne in H by done. by left.
  - right. split; [by right | done].
Qed.

Lemma foldl_delete_lookup (ks : list Reminder) t k r :
  foldl applyRequest t (deleteRequests ks) !! k = Some r -> t !! k = Some r.
Proof.
  intros H. apply foldl_applyRequest_lookup in H as [H|[H _]]; [done|].
  unfold deleteRequests in H. apply list_elem_of_fmap in H as (x & Hx & _). done.
Qed.

(** ** Projection *)

Lemma leadTime_invalid tz lead hour : leadTime tz None lead hour = None.
Proof. reflexivity. Qed.

Lemma pushIfFuture_elem vaccine c vaccDate rem now x :
  x ∈ pushIfFuture vaccine c vaccDate rem now ->
  exists v t, vaccDate = Some v /\ rem = Some t /\ now < t /\ x = mkCandidate vaccine v t c.
Proof.
  unfold pushIfFuture, JsDate.gtb, JsDate.ltb.
  destruct rem as [t|]; [|by intros ?%elem_of_nil].
  destruct (Z.ltb_spec now t); [|by intros ?%elem_of_nil].
  destruct vaccDate as [v|]; [|by intros ?%elem_of_nil].
  intros ->%list_elem_of_singleton. by exists v, t.
Qed.

(** Every candidate of a schedule entry carries the entry's vaccine and
    projected date, which is after [now], and a trigger between the two. *)
Lemma project_sound tz hour dob now e c :
  hour < 24 ->
  c ∈ project tz hour dob now e ->
  candVaccine c = entryVaccine e
  /\ vaccinationDate tz dob (age e) = Some (candVaccinationDate c)
  /\ now < candVaccinationDate c
  /\ now < candTrigger c
  /\ candTrigger c < candVaccinationDate c.
Proof.
  intros Hh. unfold project.
  destruct (vaccinationDate tz dob (age e)) as [v|] eqn:Hv.
  - unfold JsDate.leb. destruct (Z.leb_spec v now) as [|Hnow]; [by intros ?%elem_of_nil|].
    intros [H|H]%elem_of_app.
    + destruct (Js.geb _ _); [|by apply elem_of_nil in H].
      apply pushIfFuture_elem in H as (v' & t & Hv' & Ht & Hlt & ->).
      inversion Hv'; subst v'. simpl. repeat split; try done.
      eapply leadTime_before; [| exact Hh | exact Ht]. lia.
    + apply pushIfFuture_elem in H as (v' & t & Hv' & Ht & Hlt & ->).
      inversion Hv'; subst v'. simpl. repeat split; try done.
      eapply leadTime_before; [| exact Hh | exact Ht]. lia.
  - simpl. rewrite leadTime_invalid. unfold pushIfFuture. simpl.
    by intros ?%elem_of_nil.
Qed.

Lemma projectAll_sound tz hour dob now sched c :
  hour < 24 ->
  c ∈ projectAll tz hour dob now sched ->
  now < candVaccinationDate c /\ now < candTrigger c
  /\ candTrigger c < candVaccinationDate c.
Proof.
  intros Hh. unfold projectAll. rewrite list_elem_of_In, in_flat_map.
  intros (e & _ & Hc). apply list_elem_of_In in Hc.
  by apply (project_sound _ _ _ _ _ _ Hh) in Hc as (_ & _ & ? & ? & ?).
Qed.

(** An entry whose date is not after [now] is skipped. *)
Lemma project_skips_past tz hour dob now e :
  JsDate.leb (vaccinationDate tz dob (age e)) (Some now) = true ->
  project tz hour dob now e = [].
Proof. unfold project. by intros ->. Qed.

Lemma item_inFuture now id u b c :
  now < candVaccinationDate c -> now < candTrigger c ->
  candTrigger c < candVaccinationDate c -> inFuture now (item id u b c).
Proof. by unfold inFuture. Qed.

(** ** The draws of [uuidv4] *)

Lemma uuidItems_run rng u b cs w :
  uuidItems rng u b cs w
  = (bumpUuidBy (length cs) w, Next (uuidItemsFrom rng (uuidCount w) u b cs)).
Proof.
  revert w. induction cs as [|c cs IH]; intros w.
  - by destruct w.
  - cbn [uuidItems uuidItemsFrom]. unfold bind at 1. unfold uuidv4 at 1.
    unfold bind at 1. rewrite IH. unfold ret. destruct w; simpl.
    unfold bumpUuidBy; simpl. do 3 f_equal. lia.
Qed.

Lemma uuidItemsFrom_elem rng n u b cs r :
  r ∈ uuidItemsFrom rng n u b cs -> exists id c, c ∈ cs /\ r = item id u b c.
Proof.
  revert n. induction cs as [|c cs IH]; intros n; simpl; [by intros ?%elem_of_nil|].
  intros [->|H]%elem_of_cons.
  - exists (rng n), c. split; [left | done].
  - apply IH in H as (id & c' & Hc' & ->). exists id, c'. split; [by right | done].
Qed.

(** ** What the three routes write *)

Lemma putBirthDate_reminders tz auth id bd now w :
  reminders (putBirthDate tz auth id bd now w).1
  = match auth, bd with
    | Bearer u, Parsed (Some p) =>
        foldl applyRequest
          (foldl applyRequest (reminders w)
             (deleteRequests (queryByBabySent id false (reminders w))))
          (map PutRequest (map (compositeItem u id) (projectAll tz 14 (Some p) now (schedule w))))
    | _, _ => reminders w
    end.
Proof.
  unfold putBirthDate, tryCatch, putBirthDateBody.
  destruct auth as [| |u]; [done|done|].
  destruct bd as [|[p|]]; [done| |done].
  destruct w as [rs bs ms sc ml uc].
  unfold bind, authenticateToken, ret, gets, modify; simpl.
  by rewrite !writeChunks_foldl.
Qed.

Lemma postReminder_reminders tz auth id now w :
  reminders (postReminder tz auth id now w).1
  = match auth, babies w !! id with
    | Bearer u, Some baby =>
        if bool_decide (motherUserId baby = Some u) then
          foldl applyRequest
            (foldl applyRequest (reminders w)
               (deleteRequests
                  (filter (fun r => now < scheduled_at r)
                     (queryByBabySent id false (reminders w)))))
            (map PutRequest
               (map (compositeItem u id) (projectAll tz 11 (dateOfBirth baby) now (schedule w))))
        else reminders w
    | _, _ => reminders w
    end.
Proof.
  unfold postReminder, tryCatch, postReminderBody.
  destruct auth as [| |u]; [done|done|].
  destruct w as [rs bs ms sc ml uc]. unfold bind, authenticateToken, ret, gets; simpl.
  destruct (bs !! id) as [baby|]; [|done]. simpl.
  destruct (bool_decide (motherUserId baby = Some u)); [|done]. simpl.
  by rewrite !writeChunks_foldl.
Qed.

Lemma buildReminders_run tz rng u b dob now w :
  buildReminders tz rng u b dob now w
  = (setReminders (bumpUuidBy (length (projectAll tz 11 (Some dob) now (schedule w))) w)
       (foldl applyRequest (reminders w)
          (map PutRequest
             (uuidItemsFrom rng (uuidCount w) u b (projectAll tz 11 (Some dob) now (schedule w))))),
     Next tt).
Proof.
  unfold buildReminders, bind, gets. rewrite uuidItems_run, batchWriteAll_run. by destruct w.
Qed.

Lemma postBaby_written tz rng auth name dob gender now w k r :
  reminders (postBaby tz rng auth name dob gender now w).1 !! k = Some r ->
  reminders w !! k = Some r
  \/ exists id u b c, c ∈ projectAll tz 11 dob now (schedule w) /\ r = item id u b c.
Proof.
  unfold postBaby.
  destruct auth as [| |u]; [by left|by left|].
  destruct w as [rs bs ms sc ml uc]. unfold bind, authenticateToken, ret, gets; simpl.
  destruct (Js.is_empty name || Js.is_empty gender); [by left|]. simpl.
  destruct (ms !! u) as [m|]; [|by left]. simpl.
  destruct (existsb _ _); [by left|]. simpl.
  destruct dob as [d|]; [|by left]. simpl.
  rewrite buildReminders_run. simpl.
  intros [H|[H _]]%foldl_applyRequest_lookup; [by left|]. right.
  apply list_elem_of_fmap in H as (x & Hx & Hin). inversion Hx; subst x.
  apply uuidItemsFrom_elem in Hin as (i & c & Hc & ->). by exists i, u, (rng uc), c.
Qed.

Lemma composite_written (t : gmap string Reminder) (ds : list Reminder) u id cs k r :
  foldl applyRequest (foldl applyRequest t (deleteRequests ds))
    (map PutRequest (map (compositeItem u id) cs)) !! k = Some r ->
  t !! k = Some r \/ exists c, c ∈ cs /\ r = compositeItem u id c.
Proof.
  intros [H|[H _]]%foldl_applyRequest_lookup.
  - left. by eapply foldl_delete_lookup.
  - right. apply list_elem_of_fmap in H as (x & Hx & Hin). inversion Hx; subst x.
    apply list_elem_of_fmap in Hin as (c & -> & Hc). by exists c.
Qed.

(** C8.  Every reminder that one of the three routes writes has, at
    generation time, its vaccination date after [now] and its trigger time
    after [now] and before the vaccination date; a schedule entry whose
    projected vaccination date is at or before [now] yields no reminder. *)
Theorem written_reminders_in_future tz rng now w :
  (forall auth id bd k r,
      reminders (putBirthDate tz auth id bd now w).1 !! k = Some r ->
      reminders w !! k = Some r \/ inFuture now r)
  /\ (forall auth name dob gender k r,
      reminders (postBaby tz rng auth name dob gender now w).1 !! k = Some r ->
      reminders w !! k = Some r \/ inFuture now r)
  /\ (forall auth id k r,
      reminders (postReminder tz auth id now w).1 !! k = Some r ->
      reminders w !! k = Some r \/ inFuture now r)
  /\ (forall hour dob e,
      JsDate.leb (vaccinationDate tz dob (age e)) (Some now) = true ->
      project tz hour dob now e = []).
Proof.
  repeat split.
  - intros auth id bd k r. rewrite putBirthDate_reminders.
    destruct auth as [| |u]; [by left|by left|].
    destruct bd as [|[p|]]; [by left| |by left].
    intros [H|(c & Hc & ->)]%composite_written; [by left|]. right.
    apply projectAll_sound in Hc as (? & ? & ?); [|lia]. by apply item_inFuture.
  - intros auth name dob gender k r H.
    apply postBaby_written in H as [H|(i & u & b & c & Hc & ->)]; [by left|]. right.
    apply projectAll_sound in Hc as (? & ? & ?); [|lia]. by apply item_inFuture.
  - intros auth id k r. rewrite postReminder_reminders.
    destruct auth as [| |u]; [by left|by left|].
    destruct (babies w !! id) as [baby|]; [|by left].
    destruct (bool_decide _); [|by left].
    intros [H|(c & Hc & ->)]%composite_written; [by left|]. right.
    apply projectAll_sound in Hc as (? & ? & ?); [|lia]. by apply item_inFuture.
  - intros hour dob e. apply project_skips_past.
Qed.

Lemma written_reminders_in_future_witness :
  inFuture sampleNow
    (mkReminder "b1#OPV1#daily#2025-07-12" "u1" "b1" "OPV1"
       1752364800000 1752318000000 false daily).
Proof.
  destruct (written_reminders_in_future utc sampleRng sampleNow sampleWorld)
    as (_ & _ & H & _).
  destruct (H (Bearer "u1") "b1" "b1#OPV1#daily#2025-07-12"
              (mkReminder "b1#OPV1#daily#2025-07-12" "u1" "b1" "OPV1"
                 1752364800000 1752318000000 false daily)) as [Hold|Hnew].
  - vm_compute. reflexivity.
  - vm_compute in Hold. discriminate Hold.
  - exact Hnew.
Defined.

(** ** The weekly threshold *)

Lemma setDate_bound tz d n v :
  JsDate.setDate tz d n = Some v -> Z.abs v <= 8640000000000000.
Proof.
  unfold JsDate.setDate. destruct d as [t|]; [|done].
  destruct (JsDate.MakeDay _ _); [|done].
  intros H. apply TimeClip_Some in H as [-> H]. exact H.
Qed.

Lemma gtb_Some d now : JsDate.gtb d (Some now) = true <-> exists t, d = Some t /\ now < t.
Proof.
  unfold JsDate.gtb, JsDate.ltb. destruct d as [t|].
  - rewrite Z.ltb_lt. split; [by exists t | by intros (? & [= ->] & ?)].
  - split; [done | by intros (? & ? & _)].
Qed.



(** ** The trigger hour of each route *)

(** Every trigger time the projector emits is at [hour]:00 local time. *)
Lemma project_trigger_hour tz hour dob now sched c :
  0 <= hour < 24 ->
  c ∈ projectAll tz hour dob now sched ->
  JsDate.TimeWithinDay (candTrigger c + tz) = hour * msPerHour.
Proof.
  intros Hh. unfold projectAll. rewrite list_elem_of_In, in_flat_map.
  intros (e & _ & Hc). apply list_elem_of_In in Hc. revert Hc. unfold project.
  destruct (JsDate.leb _ _); [by intros ?%elem_of_nil|].
  assert (Hpush : forall cad lead, c ∈ pushIfFuture (entryVaccine e) cad
            (vaccinationDate tz dob (age e))
            (leadTime tz (vaccinationDate tz dob (age e)) lead hour) now ->
          JsDate.TimeWithinDay (candTrigger c + tz) = hour * msPerHour).
  { intros cad lead (v & t & Hv & Ht & _ & ->)%pushIfFuture_elem. rewrite Hv in Ht.
    apply leadTime_Some in Ht as ->. simpl.
    unfold JsDate.TimeWithinDay, msPerDay, msPerHour, JsDate.msPerDay, JsDate.msPerHour in *.
    replace ((JsDate.Day (v + tz) - lead) * 86400000 + hour * 3600000 - tz + tz)
      with (hour * 3600000 + (JsDate.Day (v + tz) - lead) * 86400000) by lia.
    rewrite Z.mod_add by lia. apply Z.mod_small. lia. }
  intros [H|H]%elem_of_app.
  - destruct (Js.geb _ _); [by eapply Hpush | by apply elem_of_nil in H].
  - by eapply Hpush.
Qed.

(** C9 (code defect).  On the sample deployment the birth-date correction
    route and the regeneration route, given the same baby, birth date,
    schedule and instant, write different reminder sets: the correction
    route sets the triggers at 14:00, the regeneration route at 11:00. *)
Theorem correction_uses_another_hour :
  let corrected :=
    reminders (putBirthDate utc (Bearer "u1") "b1" (Parsed (Some sampleBirth))
                 sampleNow sampleWorld).1 in
  let regenerated :=
    reminders (postReminder utc (Bearer "u1") "b1" sampleNow sampleWorld).1 in
  corrected <> regenerated
  /\ JsDate.toISOString <$> (scheduled_at <$> corrected !! "b1#OPV1#daily#2025-07-12")
     = Some "2025-07-12T14:00:00.000Z"
  /\ JsDate.toISOString <$> (scheduled_at <$> regenerated !! "b1#OPV1#daily#2025-07-12")
     = Some "2025-07-12T11:00:00.000Z".
Proof.
  cbv zeta. split; [|split; vm_compute; reflexivity].
  intros H. apply (f_equal (fun t => scheduled_at <$> t !! "b1#OPV1#daily#2025-07-12")) in H.
  vm_compute in H. discriminate H.
Qed.

(** ** Regeneration with composite identifiers is idempotent *)

Lemma wellKeyed_empty : wellKeyed ∅.
Proof. apply map_Forall_empty. Qed.

Lemma wellKeyed_insert r t : wellKeyed t -> wellKeyed (<[reminderId r := r]> t).
Proof. intros H. by apply map_Forall_insert_2. Qed.

Lemma wellKeyed_delete k t : wellKeyed t -> wellKeyed (delete k t).
Proof. intros H. by apply map_Forall_delete. Qed.

Lemma wellKeyed_applyRequest t rq : wellKeyed t -> wellKeyed (applyRequest t rq).
Proof. destruct rq; [apply wellKeyed_insert | apply wellKeyed_delete]. Qed.

Lemma wellKeyed_foldl reqs t : wellKeyed t -> wellKeyed (foldl applyRequest t reqs).
Proof.
  revert t. induction reqs as [|rq reqs IH]; intros t H; [done|].
  simpl. by apply IH, wellKeyed_applyRequest.
Qed.

Lemma puts_snoc t items x :
  foldl applyRequest t (map PutRequest (items ++ [x]))
  = <[reminderId x := x]> (foldl applyRequest t (map PutRequest items)).
Proof. by rewrite map_app, foldl_app. Qed.

(** Where some item is written, the table below does not matter. *)
Lemma puts_lookup_written items t t' k :
  k ∈ map reminderId items ->
  foldl applyRequest t (map PutRequest items) !! k
  = foldl applyRequest t' (map PutRequest items) !! k.
Proof.
  induction items as [|x items IH] using rev_ind; [by intros ?%elem_of_nil|].
  rewrite map_app, elem_of_app. simpl. rewrite list_elem_of_singleton, !puts_snoc.
  intros Hk. destruct (decide (reminderId x = k)) as [<-|Hne].
  - by rewrite !lookup_insert_eq.
  - rewrite !lookup_insert_ne by done. destruct Hk as [Hk|Hk]; [by apply IH | done].
Qed.

Lemma puts_lookup_other items t k :
  k ∉ map reminderId items ->
  foldl applyRequest t (map PutRequest items) !! k = t !! k.
Proof.
  induction items as [|x items IH] using rev_ind; [done|].
  rewrite map_app, not_elem_of_app. simpl. rewrite list_elem_of_singleton, puts_snoc.
  intros [Hk Hx]. rewrite lookup_insert_ne by done. by apply IH.
Qed.

Lemma deletes_snoc ds d t :
  foldl applyRequest t (deleteRequests (ds ++ [d]))
  = delete (reminderId d) (foldl applyRequest t (deleteRequests ds)).
Proof. unfold deleteRequests. by rewrite map_app, foldl_app. Qed.

Lemma deletes_lookup ds t k :
  foldl applyRequest t (deleteRequests ds) !! k
  = if decide (k ∈ map reminderId ds) then None else t !! k.
Proof.
  induction ds as [|d ds IH] using rev_ind.
  - case_decide as H; [by apply elem_of_nil in H | done].
  - assert (Hiff : k ∈ map reminderId (ds ++ [d])
                   <-> k ∈ map reminderId ds \/ reminderId d = k).
    { rewrite map_app, elem_of_app. simpl. rewrite list_elem_of_singleton.
      split; (intros [?|?]; [by left | by right]). }
    rewrite deletes_snoc.
    destruct (decide (reminderId d = k)) as [Heq|Hne].
    + subst k. rewrite lookup_delete_eq.
      destruct (decide (reminderId d ∈ map reminderId (ds ++ [d]))) as [|Hn]; [done|].
      exfalso. apply Hn, Hiff. by right.
    + rewrite lookup_delete_ne, IH by done.
      destruct (decide (k ∈ map reminderId ds)) as [Hin|Hnin];
        destruct (decide (k ∈ map reminderId (ds ++ [d]))) as [Hin'|Hnin']; try done.
      * exfalso. apply Hnin', Hiff. by left.
      * exfalso. apply Hiff in Hin' as [?|?]; done.
Qed.

Lemma scanReminders_elem (t : gmap string Reminder) r :
  r ∈ scanReminders t <-> exists k, t !! k = Some r.
Proof.
  unfold scanReminders. rewrite list_elem_of_fmap. split.
  - intros ((k & r') & -> & Hin). exists k. by apply elem_of_map_to_list.
  - intros (k & Hk). exists (k, r). split; [done|]. by apply elem_of_map_to_list.
Qed.

Lemma rewriteTable_twice (P : Reminder -> Prop) `{!forall r, Decision (P r)} items t :
  wellKeyed t ->
  rewriteTable P items (rewriteTable P items t) = rewriteTable P items t.
Proof.
  intros Hkeys. apply map_eq. intros k.
  assert (Hkeys1 : wellKeyed (rewriteTable P items t)).
  { unfold rewriteTable. by do 2 apply wellKeyed_foldl. }
  destruct (decide (k ∈ map reminderId items)) as [Hin|Hnin].
  { unfold rewriteTable at 1 3. by apply puts_lookup_written. }
  unfold rewriteTable at 1. rewrite puts_lookup_other, deletes_lookup by done.
  case_decide as Hdel; [|done]. exfalso.
  apply list_elem_of_fmap in Hdel as (r & Hid & Hr).
  apply list_elem_of_filter in Hr as [HP Hr].
  apply scanReminders_elem in Hr as (k' & Hk').
  pose proof (Hkeys1 k' r Hk') as Hkk. simpl in Hkk. rewrite <- Hid in Hkk. subst k'.
  unfold rewriteTable in Hk'. rewrite puts_lookup_other, deletes_lookup in Hk' by done.
  case_decide as Hdel0; [done|]. apply Hdel0.
  apply list_elem_of_fmap. exists r. split; [done|].
  apply list_elem_of_filter. split; [done|]. apply scanReminders_elem. by exists k.
Qed.

Lemma postReminder_frame tz auth id now w :
  babies (postReminder tz auth id now w).1 = babies w
  /\ schedule (postReminder tz auth id now w).1 = schedule w.
Proof.
  unfold postReminder, tryCatch, postReminderBody.
  destruct auth as [| |u]; [done|done|].
  destruct w as [rs bs ms sc ml uc]. unfold bind, authenticateToken, ret, gets; simpl.
  destruct (bs !! id) as [baby|]; [|done]. simpl.
  by destruct (bool_decide (motherUserId baby = Some u)).
Qed.

(** The regeneration route run a second time on the same instant leaves
    the reminders of its first run: same identifiers, same count. *)
Lemma postReminder_idempotent tz auth id now w :
  wellKeyed (reminders w) ->
  reminders (postReminder tz auth id now (postReminder tz auth id now w).1).1
  = reminders (postReminder tz auth id now w).1.
Proof.
  intros Hkeys. destruct (postReminder_frame tz auth id now w) as [Hb Hs].
  rewrite (postReminder_reminders _ _ _ _ (postReminder tz auth id now w).1), Hb, Hs.
  rewrite !postReminder_reminders.
  destruct auth as [| |u]; [done|done|].
  destruct (babies w !! id) as [baby|]; [|done].
  destruct (bool_decide (motherUserId baby = Some u)); [|done].
  unfold queryByBabySent. rewrite !list_filter_filter.
  apply (rewriteTable_twice
           (fun r => now < scheduled_at r /\ babyId r = id /\ sent r = false)).
  exact Hkeys.
Qed.

Lemma putBirthDate_frame tz auth id bd now w :
  schedule (putBirthDate tz auth id bd now w).1 = schedule w.
Proof.
  unfold putBirthDate, tryCatch, putBirthDateBody.
  destruct auth as [| |u]; [done|done|].
  by destruct bd as [|[p|]].
Qed.

(** So does the correction route. *)
Lemma putBirthDate_idempotent tz auth id bd now w :
  wellKeyed (reminders w) ->
  reminders (putBirthDate tz auth id bd now (putBirthDate tz auth id bd now w).1).1
  = reminders (putBirthDate tz auth id bd now w).1.
Proof.
  intros Hkeys.
  rewrite (putBirthDate_reminders _ _ _ _ _ (putBirthDate tz auth id bd now w).1).
  rewrite putBirthDate_frame, !putBirthDate_reminders.
  destruct auth as [| |u]; [done|done|].
  destruct bd as [|[p|]]; [done| |done].
  unfold queryByBabySent.
  apply (rewriteTable_twice (fun r => babyId r = id /\ sent r = false)).
  exact Hkeys.
Qed.

(** ** Identifiers drawn by the creation route *)

Lemma uuidItemsFrom_ids rng n u b cs :
  map reminderId (uuidItemsFrom rng n u b cs) = map rng (seq n (length cs)).
Proof.
  revert n. induction cs as [|c cs IH]; intros n; [done|]. simpl. by rewrite IH.
Qed.

Lemma uuidItemsFrom_length rng n u b cs :
  length (uuidItemsFrom rng n u b cs) = length cs.
Proof. revert n. induction cs as [|c cs IH]; intros n; [done|]. simpl. by rewrite IH. Qed.

Lemma puts_size items (t : gmap string Reminder) :
  NoDup (map reminderId items) ->
  (forall x, x ∈ items -> t !! reminderId x = None) ->
  size (foldl applyRequest t (map PutRequest items)) = (size t + length items)%nat.
Proof.
  induction items as [|x items IH] using rev_ind; intros Hnd Hfresh.
  - simpl. lia.
  - rewrite map_app in Hnd. apply NoDup_app in Hnd as (Hnd & Hdisj & _).
    rewrite puts_snoc, map_size_insert_None.
    + rewrite IH, length_app; [simpl; lia | done |].
      intros y Hy. apply Hfresh. apply elem_of_app. by left.
    + rewrite puts_lookup_other.
      * apply Hfresh. apply elem_of_app. right. left.
      * intros Hin. apply (Hdisj _ Hin). left.
Qed.

(** With an identifier source that never repeats, the build of the
    creation route run twice on the same baby, birth date, schedule and
    instant leaves twice the reminders of one run. *)
Lemma buildReminders_twice_doubles tz rng u b dob now w :
  Inj (=) (=) rng ->
  reminders w = ∅ ->
  let n := length (projectAll tz 11 (Some dob) now (schedule w)) in
  let once := (buildReminders tz rng u b dob now w).1 in
  let twice := (buildReminders tz rng u b dob now once).1 in
  size (reminders once) = n /\ size (reminders twice) = (2 * n)%nat.
Proof.
  intros Hinj Hempty n once twice.
  assert (Hnd : forall k, NoDup (map reminderId
            (uuidItemsFrom rng k u b (projectAll tz 11 (Some dob) now (schedule w))))).
  { intros k. rewrite uuidItemsFrom_ids. apply NoDup_fmap_2; [done|]. apply NoDup_seq. }
  assert (Honce : size (reminders once) = n).
  { unfold once. rewrite buildReminders_run. destruct w as [rs bs ms sc ml uc].
    simpl in *. subst rs.
    rewrite puts_size; [by rewrite map_size_empty, uuidItemsFrom_length | apply Hnd |].
    intros x _. apply lookup_empty. }
  split; [done|]. unfold twice. rewrite buildReminders_run.
  assert (Hs : schedule once = schedule w).
  { unfold once. rewrite buildReminders_run. by destruct w. }
  assert (Hc : uuidCount once = (n + uuidCount w)%nat).
  { unfold once. rewrite buildReminders_run. by destruct w. }
  rewrite Hs, Hc. destruct once as [rs1 bs1 ms1 sc1 ml1 uc1] eqn:Hw1. simpl in *.
  rewrite puts_size; [rewrite uuidItemsFrom_length; fold n; lia | apply Hnd |].
  intros x Hx.
  assert (Hrs1 : rs1 = reminders once) by (by rewrite Hw1).
  rewrite Hrs1. unfold once. rewrite buildReminders_run. destruct w as [rs bs ms sc ml uc].
  simpl in *. subst rs. rewrite puts_lookup_other; [apply lookup_empty|].
  rewrite uuidItemsFrom_ids. intros (i & Hi & Hin)%list_elem_of_fmap.
  assert (Hxid : reminderId x ∈ map reminderId
            (uuidItemsFrom rng (n + uc) u b (projectAll tz 11 (Some dob) now sc))).
  { by apply list_elem_of_fmap_2. }
  rewrite uuidItemsFrom_ids in Hxid. apply list_elem_of_fmap in Hxid as (j & Hj & Hjn).
  rewrite Hi in Hj. apply Hinj in Hj. subst j.
  apply elem_of_seq in Hin, Hjn. fold n in Hjn. lia.
Qed.

(** ** Every candidate of a new baby is written *)

Lemma puts_lookup_item items (t : gmap string Reminder) x :
  NoDup (map reminderId items) -> x ∈ items ->
  foldl applyRequest t (map PutRequest items) !! reminderId x = Some x.
Proof.
  induction items as [|y items IH] using rev_ind; [by intros _ ?%elem_of_nil|].
  rewrite map_app. intros (Hnd & Hdisj & _)%NoDup_app [Hx|Hx%list_elem_of_singleton]%elem_of_app.
  - rewrite puts_snoc, lookup_insert_ne; [by apply IH|].
    intros Heq. apply (Hdisj (reminderId x)); [by apply list_elem_of_fmap_2|].
    rewrite <- Heq. left.
  - subst y. by rewrite puts_snoc, lookup_insert_eq.
Qed.

Lemma uuidItemsFrom_item rng n u b cs c :
  c ∈ cs -> exists i, item (rng i) u b c ∈ uuidItemsFrom rng n u b cs.
Proof.
  revert n. induction cs as [|c0 cs IH]; intros n; [by intros ?%elem_of_nil|].
  intros [->|Hc]%elem_of_cons; simpl.
  - exists n. left.
  - destruct (IH (S n) Hc) as (i & Hi). exists i. by right.
Qed.

(** With an identifier source that never repeats, the creation route
    stores one reminder for every candidate of the projection: in
    particular a weekly reminder for every weekly candidate. *)
Lemma buildReminders_materializes tz rng u b dob now w c :
  Inj (=) (=) rng ->
  c ∈ projectAll tz 11 (Some dob) now (schedule w) ->
  exists r,
    reminders (buildReminders tz rng u b dob now w).1 !! reminderId r = Some r
    /\ babyId r = b /\ vaccine r = candVaccine c /\ type r = candCadence c
    /\ vaccination_date r = candVaccinationDate c /\ scheduled_at r = candTrigger c
    /\ sent r = false.
Proof.
  intros Hinj Hc. rewrite buildReminders_run.
  destruct (uuidItemsFrom_item rng (uuidCount w) u b _ c Hc) as (i & Hi).
  exists (item (rng i) u b c). split; [|done]. destruct w as [rs bs ms sc ml uc]. simpl in *.
  apply (puts_lookup_item _ rs (item (rng i) u b c)); [|done].
  rewrite uuidItemsFrom_ids. apply NoDup_fmap_2; [done|]. apply NoDup_seq.
Qed.

(** C1 (code defect).  The reminder build of [POST /api/baby] draws each
    [reminderId] from [uuidv4]: run twice on the same baby, birth date,
    schedule and instant it leaves eight reminders where one run leaves
    four, under fresh identifiers; and a regeneration after the creation
    replaces the identifiers of the creation by composite ones. *)
Theorem creation_ids_are_random :
  let once :=
    (buildReminders utc sampleRng "u1" "b1" sampleBirth sampleNow sampleWorld).1 in
  let twice := (buildReminders utc sampleRng "u1" "b1" sampleBirth sampleNow once).1 in
  let created :=
    (postBaby utc sampleRng (Bearer "u1") "Zawadi Otieno" (Some sampleBirth) "Female"
       sampleNow sampleWorld).1 in
  let regenerated := (postReminder utc (Bearer "u1") "uuid-0000" sampleNow created).1 in
  size (reminders once) = 4%nat
  /\ size (reminders twice) = 8%nat
  /\ reminders once !! "uuid-0004" = None
  /\ is_Some (reminders twice !! "uuid-0004")
  /\ dom (reminders created)
     = ({["uuid-0001"; "uuid-0002"; "uuid-0003"; "uuid-0004"]} : gset string)
  /\ dom (reminders regenerated)
     = ({["uuid-0000#OPV1#weekly#2025-07-06"; "uuid-0000#OPV1#daily#2025-07-12";
          "uuid-0000#OPV2#weekly#2025-08-03"; "uuid-0000#OPV2#daily#2025-08-09"]}
        : gset string).
Proof.
  cbv zeta. repeat split; try (vm_compute; reflexivity).
  vm_compute. eexists. reflexivity.
Qed.

(** ** What a correction and a regeneration delete *)

(** The correction route deletes every unsent reminder of the baby that it
    does not write anew, whatever its trigger time. *)
Lemma putBirthDate_deletes_unsent tz u id p now w k r :
  wellKeyed (reminders w) ->
  reminders w !! k = Some r -> babyId r = id -> sent r = false ->
  k ∉ map reminderId (map (compositeItem u id) (projectAll tz 14 (Some p) now (schedule w))) ->
  reminders (putBirthDate tz (Bearer u) id (Parsed (Some p)) now w).1 !! k = None.
Proof.
  intros Hkeys Hk Hb Hs Hnew. rewrite putBirthDate_reminders.
  rewrite puts_lookup_other, deletes_lookup by done.
  case_decide as Hdel; [done|]. exfalso. apply Hdel.
  apply list_elem_of_fmap. exists r. split; [symmetry; exact (Hkeys k r Hk)|].
  unfold queryByBabySent. apply list_elem_of_filter. split; [done|].
  apply scanReminders_elem. by exists k.
Qed.

(** Both routes leave a sent reminder as it is, unless they write its
    identifier anew. *)
Lemma putBirthDate_keeps_sent tz auth id bd now w k r :
  wellKeyed (reminders w) ->
  reminders w !! k = Some r -> sent r = true ->
  (forall u p, k ∉ map reminderId
                 (map (compositeItem u id) (projectAll tz 14 (Some p) now (schedule w)))) ->
  reminders (putBirthDate tz auth id bd now w).1 !! k = Some r.
Proof.
  intros Hkeys Hk Hs Hnew. rewrite putBirthDate_reminders.
  destruct auth as [| |u]; [done|done|].
  destruct bd as [|[p|]]; [done| |done].
  rewrite puts_lookup_other, deletes_lookup by apply Hnew.
  case_decide as Hdel; [|done]. exfalso.
  apply list_elem_of_fmap in Hdel as (r' & Hid & Hr').
  unfold queryByBabySent in Hr'. apply list_elem_of_filter in Hr' as [[_ Hs'] Hr'].
  apply scanReminders_elem in Hr' as (k' & Hk').
  pose proof (Hkeys k' r' Hk') as Hkk. simpl in Hkk. rewrite <- Hid in Hkk. subst k'.
  rewrite Hk in Hk'. inversion Hk'; subst r'. congruence.
Qed.

(** The regeneration route keeps a reminder whose trigger time has passed,
    sent or not. *)
Lemma postReminder_keeps_overdue tz auth id now w k r :
  wellKeyed (reminders w) ->
  reminders w !! k = Some r -> scheduled_at r <= now ->
  (forall u dob, k ∉ map reminderId
                   (map (compositeItem u id) (projectAll tz 11 dob now (schedule w)))) ->
  reminders (postReminder tz auth id now w).1 !! k = Some r.
Proof.
  intros Hkeys Hk Hs Hnew. rewrite postReminder_reminders.
  destruct auth as [| |u]; [done|done|].
  destruct (babies w !! id) as [baby|]; [|done].
  destruct (bool_decide (motherUserId baby = Some u)); [|done].
  rewrite puts_lookup_other, deletes_lookup by apply Hnew.
  case_decide as Hdel; [|done]. exfalso.
  apply list_elem_of_fmap in Hdel as (r' & Hid & Hr').
  apply list_elem_of_filter in Hr' as [Hfut Hr'].
  unfold queryByBabySent in Hr'. apply list_elem_of_filter in Hr' as [_ Hr'].
  apply scanReminders_elem in Hr' as (k' & Hk').
  pose proof (Hkeys k' r' Hk') as Hkk. simpl in Hkk. rewrite <- Hid in Hkk. subst k'.
  rewrite Hk in Hk'. inversion Hk'; subst r'. lia.
Qed.

(** C3 (code defect).  The sample baby has an unsent reminder whose trigger
    time has passed.  A birth-date correction deletes it; the regeneration
    route, which filters on [scheduled_at > now], keeps it. *)
Theorem correction_deletes_overdue :
  let key := reminderId overdueReminder in
  reminders worldWithOverdue !! key = Some overdueReminder
  /\ sent overdueReminder = false
  /\ scheduled_at overdueReminder < sampleNow
  /\ reminders (putBirthDate utc (Bearer "u1") "b1"
                  (Parsed (Some (sampleBirth + 2 * msPerDay))) sampleNow worldWithOverdue).1
       !! key = None
  /\ reminders (postReminder utc (Bearer "u1") "b1" sampleNow worldWithOverdue).1
       !! key = Some overdueReminder.
Proof. cbv zeta. repeat split; vm_compute; reflexivity. Qed.

(** ** The mark route keeps the administered list free of duplicates *)

Lemma sameEntry_key v d e : sameEntry v d e = true <-> entryKey e = (v, d).
Proof.
  unfold sameEntry, entryKey. rewrite andb_true_iff, !String.eqb_eq.
  split; [by intros [-> ->] | by intros [= -> ->]].
Qed.

Lemma existsb_sameEntry v d es :
  existsb (sameEntry v d) es = true <-> (v, d) ∈ map entryKey es.
Proof.
  rewrite existsb_exists, list_elem_of_fmap. split.
  - intros (e & He & Hk). exists e. split; [symmetry; by apply sameEntry_key|].
    by apply list_elem_of_In.
  - intros (e & Hk & He). exists e. split; [by apply list_elem_of_In|].
    by apply sameEntry_key.
Qed.

(** The [babies] table after the mark route. *)
Lemma markAdministered_babies rng auth id v d kind now w :
  babies (markAdministered rng auth id v d kind now w).1
  = match auth with
    | Bearer u =>
        if Js.is_empty v || Js.is_empty d then babies w
        else
          match babies w !! id with
          | Some baby =>
              if bool_decide (motherUserId baby = Some u)
              then
                if existsb (sameEntry v d) (administeredList baby) then babies w
                else
                  alter (fun b => setAdministered
                           (administeredList b
                              ++ [mkAdministered (Some (rng (uuidCount w))) v d
                                    (Some now) (Some kind)]) b)
                    id (babies w)
              else babies w
          | None => babies w
          end
    | _ => babies w
    end.
Proof.
  unfold markAdministered, tryCatch, markAdministeredBody.
  destruct auth as [| |u]; [done|done|].
  destruct w as [rs bs ms sc ml uc]. unfold bind, authenticateToken, ret, gets; simpl.
  destruct (Js.is_empty v || Js.is_empty d); [done|]. simpl.
  destruct (bs !! id) as [baby|]; [|done]. simpl.
  destruct (bool_decide (motherUserId baby = Some u)); [|done]. simpl.
  by destruct (existsb (sameEntry v d) (administeredList baby)).
Qed.

(** It appends one entry when the caller owns the baby and the pair is
    new, and nothing else. *)
Lemma markAdministered_list rng auth id v d kind now w :
  administeredOf id (markAdministered rng auth id v d kind now w).1
  = administeredOf id w
  \/ (exists newEntry : AdministeredEntry,
        entryKey newEntry = (v, d)
        /\ ((v, d) ∉ map entryKey (administeredOf id w))
        /\ administeredOf id (markAdministered rng auth id v d kind now w).1
           = administeredOf id w ++ [newEntry]).
Proof.
  unfold administeredOf at 1 4. rewrite markAdministered_babies.
  destruct auth as [| |u]; [by left|by left|].
  destruct (Js.is_empty v || Js.is_empty d); [by left|].
  unfold administeredOf.
  destruct (babies w !! id) as [baby|] eqn:Hb; [|left; by rewrite Hb].
  destruct (bool_decide (motherUserId baby = Some u)); [|left; by rewrite Hb].
  destruct (existsb (sameEntry v d) (administeredList baby)) eqn:Hex; [left; by rewrite Hb|].
  right. rewrite lookup_alter, Hb. case_decide; [|done]. simpl.
  eexists. split; [|split; [|reflexivity]]; [done|].
  intros Hin. apply existsb_sameEntry in Hin. congruence.
Qed.

Lemma markAdministered_unique rng auth id v d kind now w :
  NoDup (map entryKey (administeredOf id w)) ->
  NoDup (map entryKey (administeredOf id (markAdministered rng auth id v d kind now w).1)).
Proof.
  intros Hnd.
  destruct (markAdministered_list rng auth id v d kind now w)
    as [->|(e & Hk & Hnew & ->)]; [done|].
  rewrite map_app. simpl. rewrite Hk. apply NoDup_app. split; [done|].
  split; [|apply NoDup_singleton].
  intros x Hx ->%list_elem_of_singleton. done.
Qed.

(** A second call with the same vaccine and date changes nothing. *)
Lemma markAdministered_twice rng auth id v d kind now now' w :
  let once := (markAdministered rng auth id v d kind now w).1 in
  babies (markAdministered rng auth id v d kind now' once).1 = babies once.
Proof.
  intros once. rewrite markAdministered_babies.
  destruct auth as [| |u]; [done|done|].
  destruct (Js.is_empty v || Js.is_empty d) eqn:Hemp; [done|].
  destruct (babies once !! id) as [baby1|] eqn:Hb1; [|done].
  destruct (bool_decide (motherUserId baby1 = Some u)) eqn:Hown1; [|done].
  destruct (existsb (sameEntry v d) (administeredList baby1)) eqn:Hex1; [done|].
  exfalso. unfold once in Hb1. rewrite markAdministered_babies, Hemp in Hb1.
  destruct (babies w !! id) as [baby|] eqn:Hb; [|congruence].
  destruct (bool_decide (motherUserId baby = Some u)) eqn:Hown;
    [|rewrite Hb in Hb1; inversion Hb1; subst baby1;
      rewrite Hown in Hown1; discriminate Hown1].
  destruct (existsb (sameEntry v d) (administeredList baby)) eqn:Hex;
    [rewrite Hb in Hb1; inversion Hb1; subst baby1;
     rewrite Hex in Hex1; discriminate Hex1|].
  rewrite lookup_alter, Hb in Hb1. case_decide; [|done]. simpl in Hb1.
  inversion Hb1; subst baby1. clear Hb1.
  unfold administeredList at 1 in Hex1. simpl in Hex1.
  rewrite existsb_app in Hex1. simpl in Hex1. unfold sameEntry at 2 in Hex1.
  simpl in Hex1. rewrite !String.eqb_refl in Hex1. simpl in Hex1.
  by rewrite orb_true_r in Hex1.
Qed.

(** ** The init route appends without a duplicate check *)

Lemma initAdministered_list tz u id now w baby :
  babies w !! id = Some baby -> motherUserId baby = Some u ->
  administeredOf id (initAdministered tz (Bearer u) id now w).1
  = administeredOf id w ++ flat_map (pastVaccine tz (dateOfBirth baby) now) (schedule w).
Proof.
  intros Hb Hown. unfold initAdministered, tryCatch, initAdministeredBody.
  destruct w as [rs bs ms sc ml uc]. simpl in Hb.
  unfold bind, authenticateToken, ret, gets; simpl. rewrite Hb. simpl.
  rewrite bool_decide_eq_true_2 by done. simpl.
  unfold administeredOf. simpl.
  destruct (flat_map (pastVaccine tz (dateOfBirth baby) now) sc) as [|x xs] eqn:Hpast; simpl.
  - rewrite lookup_alter, Hb. case_decide; [|done]. simpl. by rewrite !app_nil_r.
  - rewrite !lookup_alter, Hb. case_decide; [|done]. simpl. by rewrite app_nil_r.
Qed.

Lemma initAdministered_frame tz u id now w baby :
  babies w !! id = Some baby -> motherUserId baby = Some u ->
  exists baby',
    babies (initAdministered tz (Bearer u) id now w).1 !! id = Some baby'
    /\ motherUserId baby' = Some u
    /\ dateOfBirth baby' = dateOfBirth baby
    /\ schedule (initAdministered tz (Bearer u) id now w).1 = schedule w.
Proof.
  intros Hb Hown. unfold initAdministered, tryCatch, initAdministeredBody.
  destruct w as [rs bs ms sc ml uc]. simpl in Hb.
  unfold bind, authenticateToken, ret, gets; simpl. rewrite Hb. simpl.
  rewrite bool_decide_eq_true_2 by done. simpl.
  destruct (flat_map (pastVaccine tz (dateOfBirth baby) now) sc) as [|x xs]; simpl.
  - rewrite lookup_alter, Hb. case_decide; [|done]. simpl. by eexists.
  - rewrite !lookup_alter, Hb. case_decide; [|done]. simpl. by eexists.
Qed.

(** Whenever some vaccine of the schedule is past, a second init leaves
    the list of the baby with a repeated (vaccine, date) pair. *)
Lemma initAdministered_twice_repeats tz u id now w baby :
  babies w !! id = Some baby -> motherUserId baby = Some u ->
  flat_map (pastVaccine tz (dateOfBirth baby) now) (schedule w) <> [] ->
  let once := (initAdministered tz (Bearer u) id now w).1 in
  ~ NoDup (map entryKey (administeredOf id (initAdministered tz (Bearer u) id now once).1)).
Proof.
  intros Hb Hown Hpast once.
  destruct (initAdministered_frame tz u id now w baby Hb Hown)
    as (baby' & Hb' & Hown' & Hdob & Hsched).
  fold once in Hb', Hsched.
  rewrite (initAdministered_list tz u id now once baby' Hb' Hown'), Hdob, Hsched.
  unfold once. rewrite (initAdministered_list tz u id now w baby Hb Hown).
  destruct (flat_map (pastVaccine tz (dateOfBirth baby) now) (schedule w)) as [|x xs]; [done|].
  rewrite !map_app. simpl. intros Hnd.
  apply NoDup_app in Hnd as ((_ & Hnd & _)%NoDup_app & Hdisj & _).
  apply (Hdisj (entryKey x)); [|left]. apply elem_of_app. right. left.
Qed.

(** C5 (code defect).  The init route appends the past vaccines without
    looking at the list: called twice for the sample baby it leaves two
    entries with the same vaccine and date. *)
Theorem init_twice_duplicates :
  let once := (initAdministered utc (Bearer "u1") "b1" sampleNow sampleWorld).1 in
  let twice := (initAdministered utc (Bearer "u1") "b1" sampleNow once).1 in
  map entryKey (administeredOf "b1" once) = [("BCG", "2025-06-01")]
  /\ map entryKey (administeredOf "b1" twice) = [("BCG", "2025-06-01"); ("BCG", "2025-06-01")]
  /\ ~ NoDup (map entryKey (administeredOf "b1" twice)).
Proof.
  cbv zeta. split; [vm_compute; reflexivity|]. split; [vm_compute; reflexivity|].
  intros H. vm_compute in H. apply NoDup_cons in H as [H _]. apply H. left.
Qed.

(** ** Reading the reminders of a baby *)



(** ** The cron loop *)

Lemma markAll_snoc rems r t :
  markAll (rems ++ [r]) t = alter markedSent (reminderId r) (markAll rems t).
Proof. unfold markAll. by rewrite foldl_app. Qed.

Lemma forEach_markSent rems w :
  forEach rems (fun r => markSent (reminderId r)) w
  = (setReminders w (markAll rems (reminders w)), Next tt).
Proof.
  revert w. induction rems as [|r rems IH]; intros w.
  - by destruct w.
  - cbn [forEach]. unfold bind, markSent at 1, modify. rewrite IH. by destruct w.
Qed.

Lemma processGroup_run tz transport sentence e w :
  e.2 <> [] ->
  processGroup tz transport dailyContact sentence e w
  = match dispatchOf tz sentence (mothers w) e with
    | None => (w, Next tt)
    | Some mail =>
        if transport mail
        then (setReminders (logMail w mail) (markAll e.2 (reminders w)), Next tt)
        else (logMail w mail, Throw "sendMail rejected")
    end.
Proof.
  destruct e as [mId rems]. simpl. intros Hne.
  unfold processGroup, dispatchOf, bind, gets, dailyContact, ret. simpl.
  destruct (dailyAddress (mothers w !! mId)) as [[address m]|]; [|done].
  destruct rems as [|first rems]; [done|].
  unfold sendCombinedReminderEmail, sendMail.
  destruct (transport _); [|done].
  rewrite forEach_markSent. by destruct w.
Qed.

Lemma forEach_groups_run tz transport sentence es w :
  (forall e, e ∈ es -> e.2 <> []) ->
  forEach es (processGroup tz transport dailyContact sentence) w
  = let '(t, log, ok) :=
      runGroups transport tz sentence (mothers w) es (reminders w) (mailLog w) in
    (mkWorld t (babies w) (mothers w) (schedule w) log (uuidCount w),
     if ok then Next tt else Throw "sendMail rejected").
Proof.
  revert w. induction es as [|e es IH]; intros w Hne.
  - by destruct w.
  - cbn [forEach runGroups]. unfold bind at 1.
    rewrite processGroup_run by (apply Hne; left).
    destruct (dispatchOf tz sentence (mothers w) e) as [mail|].
    + destruct (transport mail).
      * rewrite IH by (intros e' He'; apply Hne; by right). by destruct w.
      * by destruct w.
    + apply IH. intros e' He'. apply Hne. by right.
Qed.

(** ** Grouping by recipient *)

Lemma groupByMother_run due acc w :
  groupByMother due acc w
  = (w, if hasInheritedName due
        then Throw "TypeError: acc[r.motherId].push is not a function"
        else Next (grouped due acc)).
Proof.
  revert acc. induction due as [|r due IH]; intros acc; [done|].
  cbn [groupByMother hasInheritedName existsb].
  destruct (existsb (String.eqb (motherId r)) inherited_names); [done|].
  simpl. apply IH.
Qed.

Lemma grouped_snoc due r acc :
  grouped (due ++ [r]) acc = pushTo (motherId r) r (grouped due acc).
Proof. unfold grouped. by rewrite foldl_app. Qed.

Lemma pushTo_elem k r (acc : list (string * list Reminder)) m (g : list Reminder) :
  NoDup (acc.*1) ->
  (m, g) ∈ pushTo k r acc
  <-> (m <> k /\ (m, g) ∈ acc)
      \/ (m = k /\ ((exists g0, (k, g0) ∈ acc /\ g = (g0 ++ [r])%list)
                    \/ ((k ∉ acc.*1) /\ g = [r]))).
Proof.
  induction acc as [|[k' g'] acc IH]; intros Hnd.
  - simpl. rewrite list_elem_of_singleton. split.
    + intros [= -> ->]. right. split; [done|]. right. split; [apply not_elem_of_nil | done].
    + intros [[_ H]|[-> [(g0 & H & _)|[_ ->]]]]; try by apply elem_of_nil in H. done.
  - simpl in Hnd. apply NoDup_cons in Hnd as [Hk' Hnd]. specialize (IH Hnd).
    assert (Hkey : forall g1, (k', g1) ∈ acc -> False).
    { intros g1 Hin. apply Hk'. apply list_elem_of_fmap. by exists (k', g1). }
    cbn [pushTo]. destruct (String.eqb_spec k k') as [<-|Hne].
    + rewrite elem_of_cons. split.
      * intros [Heq|H].
        -- inversion Heq; subst. right. split; [done|]. left. exists g'.
           split; [left | done].
        -- left. split; [|by right]. intros ->. by eapply Hkey.
      * intros [[Hm H]|[-> [(g0 & H & ->)|[H _]]]].
        -- apply elem_of_cons in H as [Heq|H]; [by inversion Heq | by right].
        -- apply elem_of_cons in H as [Heq|H]; [inversion Heq; by left|].
           exfalso. by eapply Hkey.
        -- exfalso. apply H. simpl. left.
    + rewrite elem_of_cons, IH. split.
      * intros [Heq|[[Hm H]|[-> [(g0 & H & ->)|[H ->]]]]].
        -- inversion Heq; subst. left. split; [done | left].
        -- left. split; [done | by right].
        -- right. split; [done|]. left. exists g0. split; [by right | done].
        -- right. split; [done|]. right. split; [|done]. simpl.
           rewrite elem_of_cons. by intros [?|?].
      * intros [[Hm H]|[-> [(g0 & H & ->)|[H ->]]]].
        -- apply elem_of_cons in H as [Heq|H]; [by left|].
           right. left. done.
        -- apply elem_of_cons in H as [Heq|H]; [by inversion Heq|].
           right. right. split; [done|]. left. by exists g0.
        -- right. right. split; [done|]. right. split; [|done].
           simpl in H. rewrite elem_of_cons in H. intros ?. apply H. by right.
Qed.

Lemma pushTo_keys k r (acc : list (string * list Reminder)) :
  NoDup (acc.*1) -> NoDup ((pushTo k r acc).*1).
Proof.
  induction acc as [|[k' g'] acc IH]; intros Hnd.
  - simpl. apply NoDup_singleton.
  - simpl in Hnd. apply NoDup_cons in Hnd as [Hk' Hnd]. simpl.
    destruct (String.eqb_spec k k') as [<-|Hne]; simpl.
    + by apply NoDup_cons.
    + apply NoDup_cons. split; [|by apply IH].
      intros ((m & g) & Hm & Hin)%list_elem_of_fmap. simpl in Hm. subst m.
      apply pushTo_elem in Hin as [[_ Hin]|[-> _]]; [|done|done].
      apply Hk'. apply list_elem_of_fmap. by exists (k', g).
Qed.

(** The groups of a due list: one per recipient, holding the recipient's
    due reminders in the order of the list. *)
Lemma grouped_spec due :
  NoDup ((grouped due []).*1)
  /\ forall m g, (m, g) ∈ grouped due []
                 <-> g = filter (fun r => motherId r = m) due /\ g <> [].
Proof.
  induction due as [|r due [IHnd IH]] using rev_ind.
  - split; [apply NoDup_nil_2|]. intros m g. simpl. split.
    + by intros ?%elem_of_nil.
    + by intros [-> ?].
  - rewrite grouped_snoc. split; [by apply pushTo_keys|].
    intros m g. rewrite pushTo_elem by done. rewrite filter_app.
    rewrite !IH. split.
    + intros [[Hm [-> Hne]]|[-> [(g0 & Hin & ->)|[Hk ->]]]].
      * rewrite filter_cons_False by done. rewrite filter_nil, app_nil_r. done.
      * apply IH in Hin as [-> Hne]. rewrite filter_cons_True by done.
        rewrite filter_nil. split; [done|]. by destruct (filter _ due).
      * rewrite filter_cons_True by done. rewrite filter_nil. split; [|done].
        destruct (filter (fun r0 => motherId r0 = motherId r) due) as [|x xs] eqn:Hf; [done|].
        exfalso. apply Hk. apply list_elem_of_fmap.
        exists (motherId r, x :: xs). split; [done|]. apply IH. by rewrite Hf.
    + intros [-> Hne]. destruct (decide (m = motherId r)) as [->|Hm].
      * right. split; [done|]. rewrite filter_cons_True by done. rewrite filter_nil.
        destruct (filter (fun r0 => motherId r0 = motherId r) due) as [|x xs] eqn:Hf.
        -- right. split; [|done].
           intros ((m' & g') & Hm' & Hin)%list_elem_of_fmap. simpl in Hm'. subst m'.
           apply IH in Hin as [-> Hg']. by rewrite Hf in Hg'.
        -- left. exists (x :: xs). split; [|done]. apply IH. by rewrite Hf.
      * left. split; [done|]. rewrite filter_cons_False in * by done.
        rewrite filter_nil, app_nil_r in *. done.
Qed.

Lemma ObjectEntries_Permutation obj : ObjectEntries obj ≡ₚ obj.
Proof.
  unfold ObjectEntries. rewrite merge_sort_Permutation. apply filter_app_complement.
Qed.

(** ** The loop over the recipient groups *)

Section GroupLoop.

Variable transport : Mail -> bool.
Variable tz : Z.
Variable sentence : string.
Variable ms : gmap string Mother.

Lemma runGroups_accepted es t log :
  (forall e mail, e ∈ es -> dispatchOf tz sentence ms e = Some mail -> transport mail = true) ->
  runGroups transport tz sentence ms es t log
  = (markDispatched tz sentence ms es t, log ++ omap (dispatchOf tz sentence ms) es, true).
Proof.
  revert t log. induction es as [|e es IH]; intros t log Hacc.
  - simpl. by rewrite app_nil_r.
  - cbn [runGroups]. unfold markDispatched. cbn [foldl omap].
    destruct (dispatchOf tz sentence ms e) as [mail|] eqn:Hd.
    + assert (Ht : transport mail = true) by (apply (Hacc e); [left | done]).
      rewrite Ht, IH by (intros e' m' He'; apply Hacc; by right).
      unfold markDispatched. rewrite <- app_assoc. simpl. by rewrite Hd.
    + rewrite IH by (intros e' m' He'; apply Hacc; by right).
      unfold markDispatched. simpl. by rewrite Hd.
Qed.

Lemma runGroups_app pre rest t log :
  runGroups transport tz sentence ms (pre ++ rest) t log
  = match runGroups transport tz sentence ms pre t log with
    | (t1, log1, true) => runGroups transport tz sentence ms rest t1 log1
    | stopped => stopped
    end.
Proof.
  revert t log. induction pre as [|e pre IH]; intros t log; [done|].
  cbn [app runGroups]. destruct (dispatchOf tz sentence ms e) as [mail|]; [|apply IH].
  destruct (transport mail); [apply IH | done].
Qed.

Lemma runGroups_true es t log t' log' :
  runGroups transport tz sentence ms es t log = (t', log', true) ->
  forall e mail, e ∈ es -> dispatchOf tz sentence ms e = Some mail -> transport mail = true.
Proof.
  revert t log. induction es as [|e es IH]; intros t log Hrun e' mail He' Hd.
  - by apply elem_of_nil in He'.
  - cbn [runGroups] in Hrun. apply elem_of_cons in He' as [->|He'].
    + rewrite Hd in Hrun. by destruct (transport mail).
    + destruct (dispatchOf tz sentence ms e) as [m0|]; [|by eapply IH].
      destruct (transport m0); [by eapply IH | done].
Qed.

(** A run that stops does so at the first group whose message is
    rejected. *)
Lemma runGroups_false es t log t' log' :
  runGroups transport tz sentence ms es t log = (t', log', false) ->
  exists pre e post mail,
    es = pre ++ e :: post
    /\ dispatchOf tz sentence ms e = Some mail
    /\ transport mail = false
    /\ forall e' mail', e' ∈ pre -> dispatchOf tz sentence ms e' = Some mail' ->
                        transport mail' = true.
Proof.
  revert t log. induction es as [|e es IH]; intros t log Hrun; [done|].
  cbn [runGroups] in Hrun.
  destruct (dispatchOf tz sentence ms e) as [m0|] eqn:Hd.
  - destruct (transport m0) eqn:Htr.
    + apply IH in Hrun as (pre & e1 & post & mail & -> & Hd1 & Hrej & Hpre).
      exists (e :: pre), e1, post, mail. repeat split; try done.
      intros e' mail' [->|He']%elem_of_cons Hd'; [congruence | by eapply Hpre].
    + exists [], e, es, m0. repeat split; try done. by intros ? ? ?%elem_of_nil.
  - apply IH in Hrun as (pre & e1 & post & mail & -> & Hd1 & Hrej & Hpre).
    exists (e :: pre), e1, post, mail. repeat split; try done.
    intros e' mail' [->|He']%elem_of_cons Hd'; [congruence | by eapply Hpre].
Qed.

Lemma markedSent_idemp (x : option Reminder) :
  markedSent <$> (markedSent <$> x) = markedSent <$> x.
Proof. by destruct x. Qed.

Lemma markAll_lookup rems t k :
  markAll rems t !! k
  = if decide (k ∈ map reminderId rems) then markedSent <$> t !! k else t !! k.
Proof.
  induction rems as [|r rems IH] using rev_ind.
  - case_decide as H; [by apply elem_of_nil in H | done].
  - assert (Hiff : k ∈ map reminderId (rems ++ [r])
                   <-> k ∈ map reminderId rems \/ reminderId r = k).
    { rewrite map_app, elem_of_app. simpl. rewrite list_elem_of_singleton.
      split; (intros [?|?]; [by left | by right]). }
    rewrite markAll_snoc, lookup_alter.
    destruct (decide (reminderId r = k)) as [Heq|Hne].
    + subst k. rewrite IH.
      destruct (decide (reminderId r ∈ map reminderId (rems ++ [r]))) as [_|Hn];
        [|exfalso; apply Hn, Hiff; by right].
      destruct (decide (reminderId r ∈ map reminderId rems));
        [apply markedSent_idemp | done].
    + rewrite IH.
      destruct (decide (k ∈ map reminderId rems)) as [Hin|Hnin];
        destruct (decide (k ∈ map reminderId (rems ++ [r]))) as [Hin'|Hnin']; try done.
      * exfalso. apply Hnin', Hiff. by left.
      * exfalso. apply Hiff in Hin' as [?|?]; done.
Qed.

Lemma markDispatched_snoc es e t :
  markDispatched tz sentence ms (es ++ [e]) t
  = match dispatchOf tz sentence ms e with
    | Some _ => markAll e.2 (markDispatched tz sentence ms es t)
    | None => markDispatched tz sentence ms es t
    end.
Proof. unfold markDispatched. by rewrite foldl_app. Qed.

Lemma markDispatched_cases es t k :
  markDispatched tz sentence ms es t !! k = t !! k
  \/ markDispatched tz sentence ms es t !! k = markedSent <$> t !! k.
Proof.
  induction es as [|e es IH] using rev_ind; [by left|].
  rewrite markDispatched_snoc. destruct (dispatchOf tz sentence ms e); [|done].
  rewrite markAll_lookup. case_decide; [|done].
  right. destruct IH as [->| ->]; [done | apply markedSent_idemp].
Qed.

Lemma markDispatched_in es t k e :
  e ∈ es -> is_Some (dispatchOf tz sentence ms e) -> k ∈ map reminderId e.2 ->
  markDispatched tz sentence ms es t !! k = markedSent <$> t !! k.
Proof.
  induction es as [|e0 es IH] using rev_ind; [by intros ?%elem_of_nil|].
  intros [He|He%list_elem_of_singleton]%elem_of_app [mail Hd] Hk; rewrite markDispatched_snoc.
  - specialize (IH He (ex_intro _ mail Hd) Hk).
    destruct (dispatchOf tz sentence ms e0); [|done].
    rewrite markAll_lookup, IH. case_decide; [apply markedSent_idemp | done].
  - subst e0. rewrite Hd, markAll_lookup. case_decide; [|done].
    destruct (markDispatched_cases es t k) as [->| ->];
      [done | apply markedSent_idemp].
Qed.

Lemma markDispatched_notin es t k :
  (forall e, e ∈ es -> is_Some (dispatchOf tz sentence ms e) -> k ∉ map reminderId e.2) ->
  markDispatched tz sentence ms es t !! k = t !! k.
Proof.
  induction es as [|e0 es IH] using rev_ind; [done|]. intros Hnot.
  rewrite markDispatched_snoc.
  assert (Hes : markDispatched tz sentence ms es t !! k = t !! k).
  { apply IH. intros e He. apply Hnot. apply elem_of_app. by left. }
  destruct (dispatchOf tz sentence ms e0) as [mail|] eqn:Hd; [|done].
  rewrite markAll_lookup. case_decide as Hin; [|done].
  exfalso. eapply (Hnot e0); [apply elem_of_app; right; left | by exists mail | done].
Qed.

End GroupLoop.

(** ** The recipient groups of a run *)

Lemma queryDue_elem c now (t : gmap string Reminder) r :
  r ∈ queryDue c now t
  <-> (exists k, t !! k = Some r) /\ type r = c /\ scheduled_at r <= now /\ sent r = false.
Proof.
  unfold queryDue, scanReminders. rewrite merge_sort_Permutation.
  rewrite list_elem_of_filter, list_elem_of_fmap. split.
  - intros [H ((k & r') & -> & Hin)]. apply elem_of_map_to_list in Hin.
    split; [by exists k | done].
  - intros [(k & Hk) H]. split; [done|]. exists (k, r). split; [done|].
    by apply elem_of_map_to_list.
Qed.

Lemma queryDue_lookup c now (t : gmap string Reminder) r :
  wellKeyed t -> r ∈ queryDue c now t -> t !! reminderId r = Some r.
Proof.
  intros Hkeys [(k & Hk) _]%queryDue_elem. by rewrite (Hkeys k r Hk).
Qed.

Lemma recipientGroups_elem c now w e :
  e ∈ recipientGroups c now w <-> e.2 = dueOf c now w e.1 /\ e.2 <> [].
Proof.
  unfold recipientGroups, dueOf. rewrite ObjectEntries_Permutation.
  destruct e as [m g]. apply grouped_spec.
Qed.

Lemma recipientGroups_NoDup c now w : NoDup ((recipientGroups c now w).*1).
Proof.
  unfold recipientGroups. rewrite ObjectEntries_Permutation. apply grouped_spec.
Qed.

Lemma recipientGroups_member c now w e r :
  e ∈ recipientGroups c now w -> r ∈ e.2 ->
  r ∈ queryDue c now (reminders w) /\ motherId r = e.1.
Proof.
  intros [He _]%recipientGroups_elem Hr. rewrite He in Hr. unfold dueOf in Hr.
  apply list_elem_of_filter in Hr as [? ?]. done.
Qed.

(** Two groups of a run share no [reminderId]. *)
Lemma recipientGroups_disjoint c now w e e' r r' :
  wellKeyed (reminders w) ->
  e ∈ recipientGroups c now w -> e' ∈ recipientGroups c now w ->
  r ∈ e.2 -> r' ∈ e'.2 -> reminderId r = reminderId r' -> e = e'.
Proof.
  intros Hkeys He He' Hr Hr' Hid.
  destruct (recipientGroups_member _ _ _ _ _ He Hr) as [Hdue Hm].
  destruct (recipientGroups_member _ _ _ _ _ He' Hr') as [Hdue' Hm'].
  apply (queryDue_lookup _ _ _ _ Hkeys) in Hdue, Hdue'.
  rewrite Hid, Hdue' in Hdue. inversion Hdue; subst r'.
  apply recipientGroups_elem in He as [He _], He' as [He' _].
  destruct e as [m g], e' as [m' g']. simpl in *. congruence.
Qed.

(** ** The daily handler *)

Lemma recipientGroups_nil c now w :
  queryDue c now (reminders w) = [] -> recipientGroups c now w = [].
Proof. unfold recipientGroups. by intros ->. Qed.

Lemma dailyHandler_eq tz transport now w :
  dailyHandler tz transport now w
  = if (length (queryDue daily now (reminders w)) =? 0)%nat
    then (w, mkResponse 200 (Message "No daily reminders."))
    else if hasInheritedName (queryDue daily now (reminders w))
    then (w, mkResponse 500 (Message "Daily cron failure."))
    else
      let '(t, log, ok) :=
        runGroups transport tz dailySentence (mothers w) (recipientGroups daily now w)
          (reminders w) (mailLog w) in
      (mkWorld t (babies w) (mothers w) (schedule w) log (uuidCount w),
       if ok then mkResponse 200 (Message "Daily reminders processed.")
       else mkResponse 500 (Message "Daily cron failure.")).
Proof.
  unfold dailyHandler, tryCatch, cronBody, bind, gets.
  destruct (length (queryDue daily now (reminders w)) =? 0)%nat eqn:Hlen; [done|].
  rewrite groupByMother_run.
  destruct (hasInheritedName (queryDue daily now (reminders w))); [done|].
  change (ObjectEntries (grouped (queryDue daily now (reminders w)) []))
    with (recipientGroups daily now w).
  fold dailySentence. rewrite forEach_groups_run.
  - destruct (runGroups _ _ _ _ _ _ _) as [[t log] ok]. by destruct ok.
  - intros e He. by apply recipientGroups_elem in He as [_ ?].
Qed.

Lemma dailyHandler_run tz transport now w :
  hasInheritedName (queryDue daily now (reminders w)) = false ->
  exists t log ok,
    runGroups transport tz dailySentence (mothers w) (recipientGroups daily now w)
      (reminders w) (mailLog w) = (t, log, ok)
    /\ (dailyHandler tz transport now w).1
       = mkWorld t (babies w) (mothers w) (schedule w) log (uuidCount w)
    /\ status (dailyHandler tz transport now w).2 = if ok then 200 else 500.
Proof.
  intros Hnames. rewrite dailyHandler_eq, Hnames.
  destruct (length (queryDue daily now (reminders w)) =? 0)%nat eqn:Hlen.
  - apply Nat.eqb_eq, nil_length_inv in Hlen.
    rewrite recipientGroups_nil by done. exists (reminders w), (mailLog w), true.
    simpl. by destruct w.
  - destruct (runGroups _ _ _ _ _ _ _) as [[t log] ok]. exists t, log, ok.
    split; [done|]. by destruct ok.
Qed.

Lemma dailyHandler_inherited tz transport now w :
  hasInheritedName (queryDue daily now (reminders w)) = true ->
  dailyHandler tz transport now w = (w, mkResponse 500 (Message "Daily cron failure.")).
Proof.
  intros Hnames. rewrite dailyHandler_eq, Hnames.
  destruct (length (queryDue daily now (reminders w)) =? 0)%nat eqn:Hlen; [|done].
  apply Nat.eqb_eq, nil_length_inv in Hlen. by rewrite Hlen in Hnames.
Qed.

(** The state of the reminders of the groups after the first groups of a
    run, all accepted by the transport, were handled. *)
Lemma markDispatched_handled tz sentence c now w pre rest e r :
  wellKeyed (reminders w) ->
  recipientGroups c now w = pre ++ rest ->
  e ∈ pre -> r ∈ e.2 ->
  markDispatched tz sentence (mothers w) pre (reminders w) !! reminderId r
  = Some (afterGroup tz sentence (mothers w) e r).
Proof.
  intros Hkeys Hsplit He Hr.
  assert (Heg : e ∈ recipientGroups c now w) by (rewrite Hsplit, elem_of_app; by left).
  destruct (recipientGroups_member _ _ _ _ _ Heg Hr) as [Hdue _].
  apply (queryDue_lookup _ _ _ _ Hkeys) in Hdue.
  unfold afterGroup. destruct (dispatchOf tz sentence (mothers w) e) as [mail|] eqn:Hd.
  - rewrite (markDispatched_in _ _ _ _ _ _ e), Hdue; try done.
    apply list_elem_of_fmap. by exists r.
  - rewrite markDispatched_notin, Hdue; [done|].
    intros e' He' [mail' Hd'] (r' & Hid & Hr')%list_elem_of_fmap.
    assert (He'g : e' ∈ recipientGroups c now w) by (rewrite Hsplit, elem_of_app; by left).
    assert (e = e') by (by eapply recipientGroups_disjoint). congruence.
Qed.

Lemma markDispatched_pending tz sentence c now w pre rest e r :
  wellKeyed (reminders w) ->
  recipientGroups c now w = pre ++ rest ->
  e ∈ rest -> r ∈ e.2 ->
  markDispatched tz sentence (mothers w) pre (reminders w) !! reminderId r = Some r.
Proof.
  intros Hkeys Hsplit He Hr.
  assert (Heg : e ∈ recipientGroups c now w) by (rewrite Hsplit, elem_of_app; by right).
  destruct (recipientGroups_member _ _ _ _ _ Heg Hr) as [Hdue _].
  apply (queryDue_lookup _ _ _ _ Hkeys) in Hdue.
  rewrite markDispatched_notin, Hdue; [done|].
  intros e' He' _ (r' & Hid & Hr')%list_elem_of_fmap.
  assert (He'g : e' ∈ recipientGroups c now w) by (rewrite Hsplit, elem_of_app; by left).
  assert (e = e') by (by eapply recipientGroups_disjoint). subst e'.
  pose proof (recipientGroups_NoDup c now w) as Hnd. rewrite Hsplit, fmap_app in Hnd.
  apply NoDup_app in Hnd as (_ & Hnd & _). apply (Hnd e.1); by apply list_elem_of_fmap_2.
Qed.

(** C2, as stated, fails.  On the sample run the transport rejects the
    message to the first recipient: the run ends with status 500, and the
    group of the second recipient, whose message it would accept, is left
    undispatched. *)
Lemma dispatch_error_stops_run :
  ~ failuresIsolated utc (rejecting "wanjiru@example.org") cronNow cronWorld.
Proof.
  unfold failuresIsolated.
  assert (Hst : status (dailyHandler utc (rejecting "wanjiru@example.org") cronNow cronWorld).2
                = 500) by (vm_compute; reflexivity).
  destruct (dailyHandler _ _ _ _) as [w' resp]. simpl in Hst. intros [H200 _]. congruence.
Qed.

(** C2, amended.  In a run of the daily handler a group whose recipient
    has no record or no address is skipped, and this alone stops nothing:
    when the transport accepts every message the run ends with status 200,
    one message per resolvable group, those groups marked sent and the
    skipped ones left as they were.  A rejected message is not isolated: the
    run stops there with status 500, the groups before it stay dispatched
    and marked, the rejected group and the later ones stay unsent. *)
Theorem daily_failure_policy tz transport now w
    (Hkeys : wellKeyed (reminders w))
    (Hnames : hasInheritedName (queryDue daily now (reminders w)) = false) :
  let groups := recipientGroups daily now w in
  let send := dispatchOf tz dailySentence (mothers w) in
  let run := dailyHandler tz transport now w in
  ((forall e mail, e ∈ groups -> send e = Some mail -> transport mail = true) ->
   status run.2 = 200
   /\ mailLog run.1 = mailLog w ++ omap send groups
   /\ forall e r, e ∈ groups -> r ∈ e.2 ->
        reminders run.1 !! reminderId r
        = Some (afterGroup tz dailySentence (mothers w) e r))
  /\ (forall pre e post mail,
        groups = pre ++ e :: post ->
        send e = Some mail -> transport mail = false ->
        (forall e' mail', e' ∈ pre -> send e' = Some mail' -> transport mail' = true) ->
        status run.2 = 500
        /\ mailLog run.1 = mailLog w ++ omap send pre ++ [mail]
        /\ (forall e' r, e' ∈ pre -> r ∈ e'.2 ->
              reminders run.1 !! reminderId r
              = Some (afterGroup tz dailySentence (mothers w) e' r))
        /\ (forall e' r, e' ∈ e :: post -> r ∈ e'.2 ->
              reminders run.1 !! reminderId r = Some r)).
Proof.
  intros groups send run.
  destruct (dailyHandler_run tz transport now w Hnames) as (t & log & ok & Hrun & Hw & Hst).
  fold run in Hw, Hst. fold groups in Hrun. split.
  - intros Hacc. unfold groups in Hrun. rewrite runGroups_accepted in Hrun by exact Hacc.
    inversion Hrun; subst t log ok. rewrite Hw. simpl. repeat split; try done.
    intros e r He Hr.
    eapply (markDispatched_handled _ _ daily now w _ []); try done.
    by rewrite app_nil_r.
  - intros pre e post mail Hsplit Hd Hrej Hpre.
    rewrite Hsplit, runGroups_app, runGroups_accepted in Hrun by exact Hpre.
    cbn [runGroups] in Hrun. fold send in Hrun. rewrite Hd, Hrej in Hrun.
    inversion Hrun; subst t log ok. rewrite Hw. simpl. rewrite <- app_assoc.
    repeat split; try done.
    + intros e' r He' Hr. by eapply markDispatched_handled.
    + intros e' r He' Hr. by eapply markDispatched_pending.
Qed.

Lemma cronWorld_wellKeyed : wellKeyed (reminders cronWorld).
Proof. repeat apply wellKeyed_insert. apply wellKeyed_empty. Qed.

Lemma daily_failure_policy_witness :
  status (dailyHandler utc acceptAll cronNow cronWorldNoContact).2 = 200
  /\ sent <$> reminders (dailyHandler utc acceptAll cronNow cronWorldNoContact).1
                !! reminderId dueOPV = Some true
  /\ sent <$> reminders (dailyHandler utc acceptAll cronNow cronWorldNoContact).1
                !! reminderId dueOther = Some false
  /\ status (dailyHandler utc (rejecting "wanjiru@example.org") cronNow cronWorld).2 = 500
  /\ sent <$> reminders (dailyHandler utc (rejecting "wanjiru@example.org") cronNow cronWorld).1
                !! reminderId dueOPV = Some false.
Proof.
  assert (Hkeys : wellKeyed (reminders cronWorld)).
  { apply cronWorld_wellKeyed. }
  destruct (daily_failure_policy utc acceptAll cronNow cronWorldNoContact Hkeys)
    as [Hskip _]; [vm_compute; reflexivity|].
  destruct Hskip as (H200 & _ & Hmarks); [reflexivity|].
  destruct (daily_failure_policy utc (rejecting "wanjiru@example.org") cronNow cronWorld Hkeys)
    as [_ Hstop]; [vm_compute; reflexivity|].
  destruct (Hstop [] ("u2", [dueOther]) [("u1", [dueOPV; duePenta])]
              (combinedMail utc dailySentence "wanjiru@example.org" (Some "Wanjiru Kamau")
                 dueOther [dueOther]))
    as (H500 & _ & _ & Hpending).
  - vm_compute. reflexivity.
  - vm_compute. reflexivity.
  - vm_compute. reflexivity.
  - intros e' mail' He'. inversion He'.
  - split; [exact H200|]. split.
    { rewrite (Hmarks ("u1", [dueOPV; duePenta]) dueOPV).
      - vm_compute. reflexivity.
      - vm_compute. right. left.
      - left. }
    split.
    { rewrite (Hmarks ("u2", [dueOther]) dueOther).
      - vm_compute. reflexivity.
      - vm_compute. left.
      - left. }
    split; [exact H500|].
    rewrite (Hpending ("u1", [dueOPV; duePenta]) dueOPV).
    + reflexivity.
    + right. left.
    + left.
Defined.

(** ** Grouped dispatch *)

Lemma append_assoc (a b c : string) : ((a ++ b) ++ c = a ++ b ++ c)%string.
Proof.
  induction a as [|x a IH]; [reflexivity|].
  change (String x ((a ++ b) ++ c) = String x (a ++ b ++ c))%string. by f_equal.
Qed.

Lemma occursIn_here x after : occursIn x (x ++ after)%string.
Proof. by exists EmptyString, after. Qed.

Lemma occursIn_prepend x p s : occursIn x s -> occursIn x (p ++ s)%string.
Proof.
  intros (before & after & ->). exists (p ++ before)%string, after.
  by rewrite append_assoc.
Qed.

Lemma occursIn_append x s q : occursIn x s -> occursIn x (s ++ q)%string.
Proof.
  intros (before & after & ->). exists before, (after ++ q)%string.
  by rewrite !append_assoc.
Qed.

Lemma listItem_in_join rems r :
  r ∈ rems -> occursIn (listItem r) (joinStrings (map listItem rems)).
Proof.
  induction rems as [|x rems IH]; [by intros ?%elem_of_nil|].
  intros [->|Hr]%elem_of_cons;
    change (joinStrings (map listItem (x :: rems)))
      with (listItem x ++ joinStrings (map listItem rems))%string.
  - apply occursIn_here.
  - apply occursIn_prepend. by apply IH.
Qed.

(** The message of a group lists every vaccine of the group. *)
Lemma combinedMail_lists tz sentence address name first rems r :
  r ∈ rems -> occursIn (listItem r) (html (combinedMail tz sentence address name first rems)).
Proof.
  intros Hr. unfold combinedMail, mailBody. cbn [html].
  do 18 apply occursIn_prepend. apply occursIn_append. by apply listItem_in_join.
Qed.

(** C4, as stated, fails.  On the sample run Amina has two due reminders
    and an address the transport accepts, but the message to the recipient
    handled before her is rejected: no call is made for her and her
    reminders stay unsent. *)
Lemma earlier_failure_prevents_dispatch :
  ~ dispatchedOnce utc (rejecting "wanjiru@example.org") cronNow cronWorld "u1".
Proof.
  intros (mail & before & after & Hd & Hlog & _).
  assert (Heq : dueOf daily cronNow cronWorld "u1" = [dueOPV; duePenta])
    by (vm_compute; reflexivity).
  rewrite Heq in Hd.
  assert (Hto : mailTo mail = "amina@example.org").
  { vm_compute in Hd. inversion Hd. reflexivity. }
  assert (Hcalls : map mailTo
            (mailLog (dailyHandler utc (rejecting "wanjiru@example.org") cronNow cronWorld).1)
          = ["wanjiru@example.org"]) by (vm_compute; reflexivity).
  rewrite Hlog in Hcalls. clear Hlog Hd Heq.
  change (mailLog cronWorld) with (@nil Mail) in Hcalls. simpl in Hcalls.
  rewrite map_app in Hcalls. simpl in Hcalls. rewrite Hto in Hcalls.
  destruct before as [|x before]; simpl in Hcalls.
  - inversion Hcalls.
  - inversion Hcalls as [[Hx Hrest]]. destruct before; inversion Hrest.
Qed.

(** C4, amended.  In a run of the daily handler that ends with status 200,
    a recipient who has due reminders and an address gets exactly one call:
    the log grows by the calls for the other recipients and, once, by the
    message composed from all the due reminders of this recipient, which
    lists every vaccine of the group; and every reminder of the group is
    marked sent. *)
Theorem grouped_dispatch tz transport now w m address mother
    (Hkeys : wellKeyed (reminders w))
    (Hdue : dueOf daily now w m <> [])
    (Hcontact : dailyAddress (mothers w !! m) = Some (address, mother))
    (Hok : status (dailyHandler tz transport now w).2 = 200) :
  let w' := (dailyHandler tz transport now w).1 in
  let group := dueOf daily now w m in
  exists first mail before after,
    head group = Some first
    /\ mail = combinedMail tz dailySentence address (full_name mother) first group
    /\ mailLog w' = mailLog w ++ before ++ [mail] ++ after
    /\ (forall x, x ∈ before ++ after ->
          exists e, e ∈ recipientGroups daily now w /\ e.1 <> m
                    /\ dispatchOf tz dailySentence (mothers w) e = Some x)
    /\ (forall r, r ∈ group -> occursIn (listItem r) (html mail))
    /\ (forall r, r ∈ group -> reminders w' !! reminderId r = Some (markedSent r)).
Proof.
  intros w' group.
  destruct (hasInheritedName (queryDue daily now (reminders w))) eqn:Hnames.
  { rewrite dailyHandler_inherited in Hok by done. discriminate Hok. }
  destruct (dailyHandler_run tz transport now w Hnames) as (t & log & ok & Hrun & Hw & Hst).
  rewrite Hst in Hok. destruct ok; [|discriminate Hok].
  pose proof (runGroups_true _ _ _ _ _ _ _ _ _ Hrun) as Hacc.
  rewrite runGroups_accepted in Hrun by exact Hacc. inversion Hrun; subst t log.
  fold w' in Hw.
  assert (He : (m, group) ∈ recipientGroups daily now w) by (by apply recipientGroups_elem).
  destruct (list_elem_of_split _ _ He) as (l1 & l2 & Hsplit).
  destruct group as [|first rest] eqn:Hgroup; [done|].
  set (mail := combinedMail tz dailySentence address (full_name mother) first (first :: rest)).
  assert (Hd : dispatchOf tz dailySentence (mothers w) (m, first :: rest) = Some mail).
  { unfold dispatchOf. simpl. by rewrite Hcontact. }
  pose proof (recipientGroups_NoDup daily now w) as Hnd.
  rewrite Hsplit, fmap_app, fmap_cons in Hnd. simpl in Hnd.
  apply NoDup_app in Hnd as (_ & Hl1 & [Hl2 _]%NoDup_cons).
  exists first, mail, (omap (dispatchOf tz dailySentence (mothers w)) l1),
    (omap (dispatchOf tz dailySentence (mothers w)) l2).
  split; [done|]. split; [done|]. split.
  { rewrite Hw. simpl. rewrite Hsplit, omap_app. simpl. by rewrite Hd. }
  split.
  { intros x [Hx|Hx]%elem_of_app; apply list_elem_of_omap in Hx as (e & Hin & Hx);
      exists e; (split; [rewrite Hsplit, elem_of_app, elem_of_cons; by eauto|]);
      (split; [|done]); intros <-.
    - apply (Hl1 e.1); [by apply list_elem_of_fmap_2 | left].
    - apply Hl2. by apply list_elem_of_fmap_2. }
  split.
  { intros r Hr. by apply combinedMail_lists. }
  intros r Hr. rewrite Hw. simpl.
  rewrite (markDispatched_handled _ _ daily now w _ [] (m, first :: rest));
    try done; [|by rewrite app_nil_r].
  unfold afterGroup. by rewrite Hd.
Qed.

Lemma grouped_dispatch_witness :
  exists mail,
    mailLog (dailyHandler utc acceptAll cronNow cronWorld).1
    = [combinedMail utc dailySentence "wanjiru@example.org" (Some "Wanjiru Kamau")
         dueOther [dueOther]; mail]
    /\ occursIn (listItem dueOPV) (html mail)
    /\ occursIn (listItem duePenta) (html mail)
    /\ reminders (dailyHandler utc acceptAll cronNow cronWorld).1 !! reminderId duePenta
       = Some (markedSent duePenta).
Proof.
  assert (Hkeys : wellKeyed (reminders cronWorld)).
  { apply cronWorld_wellKeyed. }
  assert (Heq : dueOf daily cronNow cronWorld "u1" = [dueOPV; duePenta])
    by (vm_compute; reflexivity).
  destruct (grouped_dispatch utc acceptAll cronNow cronWorld "u1"
              "amina@example.org" sampleMother Hkeys)
    as (first & mail & before & after & Hhead & Hmail & Hlog & _ & Hlists & Hmarked).
  - rewrite Heq. discriminate.
  - vm_compute. reflexivity.
  - vm_compute. reflexivity.
  - exists mail. rewrite Heq in *. simpl in Hhead. inversion Hhead; subst first.
    split.
    + subst mail. vm_compute. reflexivity.
    + split; [apply Hlists; left|]. split; [apply Hlists; right; left|].
      apply Hmarked. right. left.
Defined.

(** ** The weekly handler stops at the first recipient it finds *)

Lemma weekly_loop tz transport sentence es w :
  forEach es (processGroup tz transport weeklyContact sentence) w
  = (w, if forallb (fun e : string * list Reminder =>
                      bool_decide (mothers w !! e.1 = None)) es
        then Next tt else Throw "ReferenceError: email is not defined").
Proof.
  induction es as [|[m rems] es IH]; [done|].
  cbn [forEach forallb]. unfold bind at 1. unfold processGroup at 1.
  unfold bind, gets, weeklyContact. simpl.
  destruct (mothers w !! m) as [mo|] eqn:Hm; simpl; [done|].
  unfold ret. exact IH.
Qed.

(** The handler of cron/weekly.js sends no message and marks nothing. *)
Lemma weeklyHandler_never_dispatches tz transport now w :
  (weeklyHandler tz transport now w).1 = w.
Proof.
  unfold weeklyHandler, tryCatch, cronBody, bind, gets.
  destruct (length (queryDue weekly now (reminders w)) =? 0)%nat; [done|].
  rewrite groupByMother_run.
  destruct (hasInheritedName (queryDue weekly now (reminders w))); [done|].
  rewrite weekly_loop. by destruct (forallb _ _).
Qed.

(** It fails as soon as a due reminder belongs to a mother on record. *)
Lemma weeklyHandler_fails tz transport now w r :
  r ∈ queryDue weekly now (reminders w) ->
  is_Some (mothers w !! motherId r) ->
  status (weeklyHandler tz transport now w).2 = 500.
Proof.
  intros Hr Hm. unfold weeklyHandler, tryCatch, cronBody, bind, gets.
  destruct (length (queryDue weekly now (reminders w)) =? 0)%nat eqn:Hlen.
  { apply Nat.eqb_eq, nil_length_inv in Hlen. rewrite Hlen in Hr. by apply elem_of_nil in Hr. }
  rewrite groupByMother_run.
  destruct (hasInheritedName (queryDue weekly now (reminders w))); [done|].
  rewrite weekly_loop.
  destruct (forallb _ _) eqn:Hall; [|done]. exfalso.
  rewrite forallb_forall in Hall.
  assert (He : (motherId r, dueOf weekly now w (motherId r)) ∈ recipientGroups weekly now w).
  { apply recipientGroups_elem. split; [done|]. simpl. unfold dueOf.
    intros Hnil. assert (Hin : r ∈ filter (fun r0 => motherId r0 = motherId r)
                                  (queryDue weekly now (reminders w))).
    { by apply list_elem_of_filter. }
    rewrite Hnil in Hin. by apply elem_of_nil in Hin. }
  apply list_elem_of_In, Hall in He. simpl in He.
  apply bool_decide_eq_true_1 in He. destruct Hm as [mo Hmo]. congruence.
Qed.
(** ** The weekly threshold, from the projection to the table *)






(** * Further properties *)

(** ** The expressions the age parser understands *)

Section AgeExpressions.

Local Open Scope string_scope.

Lemma lower_not_space c : Js.is_lower c = true -> Js.is_space c = false.
Proof.
  unfold Js.is_lower, Js.is_space. intros [H1 H2]%andb_true_iff.
  apply Nat.leb_le in H1, H2.
  apply orb_false_iff. split.
  - apply andb_false_iff. right. apply Nat.leb_gt. lia.
  - apply Nat.eqb_neq. lia.
Qed.

Lemma lower_not_digit c : Js.is_lower c = true -> Js.is_digit c = false.
Proof.
  unfold Js.is_lower, Js.is_digit. intros [H1 H2]%andb_true_iff.
  apply Nat.leb_le in H1, H2.
  apply andb_false_iff. right. apply Nat.leb_gt. lia.
Qed.

Lemma lower_not_upper c : Js.is_lower c = true -> Js.is_upper c = false.
Proof.
  unfold Js.is_lower, Js.is_upper. intros [H1 H2]%andb_true_iff.
  apply Nat.leb_le in H1, H2.
  apply andb_false_iff. right. apply Nat.leb_gt. lia.
Qed.

Lemma lower_is_word c : Js.is_lower c = true -> Js.is_word c = true.
Proof. unfold Js.is_word. intros ->. by rewrite !orb_true_r. Qed.

Lemma digit_not_space c : Js.is_digit c = true -> Js.is_space c = false.
Proof.
  unfold Js.is_digit, Js.is_space. intros [H1 H2]%andb_true_iff.
  apply Nat.leb_le in H1, H2.
  apply orb_false_iff. split.
  - apply andb_false_iff. right. apply Nat.leb_gt. lia.
  - apply Nat.eqb_neq. lia.
Qed.

Lemma digit_not_upper c : Js.is_digit c = true -> Js.is_upper c = false.
Proof.
  unfold Js.is_digit, Js.is_upper. intros [H1 H2]%andb_true_iff.
  apply Nat.leb_le in H1, H2.
  apply andb_false_iff. left. apply Nat.leb_gt. lia.
Qed.

Lemma space_not_upper c : Js.is_space c = true -> Js.is_upper c = false.
Proof.
  unfold Js.is_space, Js.is_upper.
  intros [[H1 H2]%andb_true_iff|H]%orb_true_iff; apply andb_false_iff; left; apply Nat.leb_gt.
  - apply Nat.leb_le in H2. lia.
  - apply Nat.eqb_eq in H. lia.
Qed.

Lemma space_not_digit c : Js.is_space c = true -> Js.is_digit c = false.
Proof.
  unfold Js.is_space, Js.is_digit.
  intros [[H1 H2]%andb_true_iff|H]%orb_true_iff; apply andb_false_iff; left; apply Nat.leb_gt.
  - apply Nat.leb_le in H2. lia.
  - apply Nat.eqb_eq in H. lia.
Qed.

Lemma all_chars_app p a b :
  Js.all_chars p (a ++ b) = Js.all_chars p a && Js.all_chars p b.
Proof.
  induction a as [|c a IH]; [reflexivity|].
  change (Js.all_chars p (String c (a ++ b)) = Js.all_chars p (String c a) && Js.all_chars p b).
  simpl. by rewrite IH, andb_assoc.
Qed.

Lemma all_chars_impl (p q : ascii -> bool) s :
  (forall c, p c = true -> q c = true) -> Js.all_chars p s = true -> Js.all_chars q s = true.
Proof.
  intros Hpq. induction s as [|c s IH]; [done|]. simpl.
  intros [Hc Hs]%andb_true_iff. by rewrite (Hpq _ Hc), IH.
Qed.

Lemma span_app p a r :
  Js.all_chars p a = true -> stopsAt p r -> Js.span p (a ++ r) = (a, r).
Proof.
  induction a as [|c a IH]; intros Ha Hr.
  - change (Js.span p r = (EmptyString, r)). destruct r as [|c r]; [done|].
    simpl in *. by rewrite Hr.
  - simpl in Ha. apply andb_true_iff in Ha as [Hc Ha].
    change (Js.span p (String c (a ++ r)) = (String c a, r)).
    simpl. by rewrite Hc, IH.
Qed.

Lemma toLowerCase_fixed s :
  Js.all_chars (fun c => negb (Js.is_upper c)) s = true -> Js.toLowerCase s = s.
Proof.
  induction s as [|c s IH]; [done|]. simpl.
  intros [Hc Hs]%andb_true_iff. apply negb_true_iff in Hc.
  unfold Js.lower_char. by rewrite Hc, IH.
Qed.

Lemma trimEnd_fixed a u :
  u <> EmptyString -> Js.all_chars (fun c => negb (Js.is_space c)) u = true ->
  Js.trimEnd (a ++ u) = a ++ u.
Proof.
  intros Hu Hall.
  assert (Hbase : forall v, Js.all_chars (fun c => negb (Js.is_space c)) v = true ->
                            Js.trimEnd v = v).
  { induction v as [|c v IH]; [done|]. simpl.
    intros [Hc Hv]%andb_true_iff. apply negb_true_iff in Hc.
    rewrite (IH Hv), Hc. by destruct v. }
  induction a as [|x a IH].
  - by apply Hbase.
  - change (Js.trimEnd (String x (a ++ u)) = String x (a ++ u)).
    simpl. rewrite IH. destruct (a ++ u) eqn:E; [|done].
    destruct a; [|discriminate E]. by destruct u.
Qed.

Lemma append_nil_r (s : string) : s ++ "" = s.
Proof.
  induction s as [|c s IH]; [reflexivity|].
  change (String c (s ++ "") = String c s). by rewrite IH.
Qed.

Lemma trimStart_fixed s : stopsAt Js.is_space s -> Js.trimStart s = s.
Proof. destruct s as [|c s]; [done|]. simpl. by intros ->. Qed.

Lemma stopsAt_app p a b :
  a <> EmptyString -> Js.all_chars (fun c => negb (p c)) a = true -> stopsAt p (a ++ b).
Proof.
  destruct a as [|c a]; [done|]. intros _ [Hc _]%andb_true_iff.
  by apply negb_true_iff in Hc.
Qed.

Lemma stopsAt_blank_word sp u :
  isBlank sp -> isLowerWord u -> stopsAt Js.is_digit (sp ++ u).
Proof.
  intros Hsp [Hu Hl]. destruct sp as [|c sp].
  - destruct u as [|c u]; [done|]. simpl in *.
    apply andb_true_iff in Hl as [Hc _]. by apply lower_not_digit.
  - unfold isBlank in Hsp. simpl in *.
    apply andb_true_iff in Hsp as [Hc _]. by apply space_not_digit.
Qed.

Lemma strip_dash_blank_word sp u :
  isBlank sp -> isLowerWord u -> strip_dash (sp ++ u) = None.
Proof.
  intros Hsp [Hu Hl].
  assert (Hc : exists c r, (sp ++ u = String c r) /\ (Js.code c <= 122)%nat /\ Js.code c <> 45%nat).
  { destruct sp as [|c sp].
    - destruct u as [|c u]; [done|]. exists c, u. split; [done|].
      simpl in Hl. apply andb_true_iff in Hl as [Hc _]. unfold Js.is_lower in Hc.
      apply andb_true_iff in Hc as [H1 H2]. apply Nat.leb_le in H1, H2. lia.
    - exists c, (sp ++ u). split; [done|].
      unfold isBlank in Hsp. simpl in Hsp. apply andb_true_iff in Hsp as [Hc _].
      unfold Js.is_space in Hc.
      apply orb_true_iff in Hc as [[H1 H2]%andb_true_iff|H].
      + apply Nat.leb_le in H1, H2. lia.
      + apply Nat.eqb_eq in H. lia. }
  destruct Hc as (c & r & -> & Hle & Hne). unfold strip_dash.
  destruct (Nat.eqb_spec (Js.code c) 45); [done|].
  destruct r as [|c2 [|c3 r]]; try done.
  destruct (Nat.eqb_spec (Js.code c) 226); [lia|done].
Qed.

Lemma match_num_unit_words ds sp u :
  isDigits ds -> isBlank sp -> isLowerWord u ->
  match_num_unit (ds ++ sp ++ u) = Some (ds, u).
Proof.
  intros [Hds Hd] Hsp [Hu Hl]. unfold match_num_unit.
  rewrite (span_app _ ds (sp ++ u) Hd) by (by apply stopsAt_blank_word).
  destruct ds as [|d ds]; [done|]. cbn [Js.is_empty].
  rewrite (span_app _ sp u Hsp).
  - destruct u as [|c u]; [done|]. cbn [Js.is_empty negb andb].
    by rewrite (all_chars_impl _ _ _ lower_is_word Hl).
  - destruct u as [|c u]; [done|]. simpl in *.
    apply andb_true_iff in Hl as [Hc _]. by apply lower_not_space.
Qed.

(** A number, white space and a unit word are already in the form the
    parser normalizes to. *)
Lemma normal_form_fixed ds rest u :
  isDigits ds -> Js.all_chars (fun c => negb (Js.is_upper c)) rest = true -> isLowerWord u ->
  Js.toLowerCase (Js.trim (ds ++ rest ++ u)) = ds ++ rest ++ u.
Proof.
  intros [Hds Hd] Hrest [Hu Hl]. unfold Js.trim.
  rewrite trimStart_fixed.
  - rewrite <- append_assoc. rewrite trimEnd_fixed; [|done|].
    + rewrite append_assoc. apply toLowerCase_fixed.
      rewrite !all_chars_app, Hrest.
      rewrite (all_chars_impl Js.is_digit _ ds), (all_chars_impl Js.is_lower _ u); try done.
      * intros c Hc. by rewrite lower_not_upper.
      * intros c Hc. by rewrite digit_not_upper.
    + apply (all_chars_impl Js.is_lower); [|done]. intros c Hc. by rewrite lower_not_space.
  - apply stopsAt_app; [done|].
    apply (all_chars_impl Js.is_digit); [|done]. intros c Hc. by rewrite digit_not_space.
Qed.

Lemma digits_not_birth ds rest : isDigits ds -> String.eqb (ds ++ rest) "birth" = false.
Proof.
  intros [Hds Hd]. destruct ds as [|c ds]; [done|].
  simpl in Hd. apply andb_true_iff in Hd as [Hc _].
  apply String.eqb_neq. intros E. injection E as -> _. discriminate Hc.
Qed.

Lemma blank_no_upper sp : isBlank sp -> Js.all_chars (fun c => negb (Js.is_upper c)) sp = true.
Proof. apply all_chars_impl. intros c Hc. by rewrite space_not_upper. Qed.

(** X1.  A number of at most 13 digits, optional white space and a unit
    word: the offset is the number times the days of the unit, 7 for a
    week, 30 for a month and 365 for a year, a product below 2^52 that the
    number type holds exactly; a word that is neither a unit nor a name an
    object inherits gives 0. *)
Theorem parseAgeToDays_single ds sp u
    (Hds : isDigits ds) (Hlen : (String.length ds <= 13)%nat)
    (Hsp : isBlank sp) (Hu : isLowerWord u) :
  parseAgeToDays (ds ++ sp ++ u) = Js.mul (Js.parseInt ds) (unitDays u)
  /\ (forall d, unitMap u = Own d ->
        parseAgeToDays (ds ++ sp ++ u) = Js.of_Z (Js.parseInt_from 0 ds * d)
        /\ 0 <= Js.parseInt_from 0 ds * d < 2 ^ 52)
  /\ (unitMap u = Undefined -> parseAgeToDays (ds ++ sp ++ u) = Js.of_Z 0).
Proof.
  assert (Hmain : parseAgeToDays (ds ++ sp ++ u) = Js.mul (Js.parseInt ds) (unitDays u)).
  { unfold parseAgeToDays.
    rewrite normal_form_fixed by (try done; by apply blank_no_upper).
    rewrite digits_not_birth by done.
    unfold rangeRegex.
    rewrite (span_app _ ds (sp ++ u)) by (try apply Hds; by apply stopsAt_blank_word).
    destruct Hds as [Hne Hd]. destruct ds as [|c ds]; [done|]. cbn [Js.is_empty].
    rewrite strip_dash_blank_word by done.
    unfold singleRegex. by rewrite match_num_unit_words. }
  split; [exact Hmain|]. split.
  - intros d Hd. rewrite Hmain. unfold unitDays, Js.parseInt. rewrite Hd.
    split; [apply single_times|].
    apply unitMap_own in Hd. pose proof (numeral_bound ds (proj2 Hds) Hlen) as Hn.
    change (2 ^ 52) with 4503599627370496. change (10 ^ 13) with 10000000000000 in Hn. nia.
  - intros Hd. rewrite Hmain. unfold unitDays, Js.parseInt. rewrite Hd.
    rewrite single_times. by rewrite Z.mul_0_r.
Qed.

Lemma parseAgeToDays_single_witness :
  parseAgeToDays "12  weeks" = Js.of_Z 84 /\ parseAgeToDays "10 days" = Js.of_Z 0.
Proof.
  assert (Hds1 : isDigits "12") by (split; [discriminate|reflexivity]).
  assert (Hds2 : isDigits "10") by (split; [discriminate|reflexivity]).
  assert (Hw : isLowerWord "weeks") by (split; [discriminate|reflexivity]).
  assert (Hd : isLowerWord "days") by (split; [discriminate|reflexivity]).
  assert (Hlen : (2 <= 13)%nat) by lia.
  split.
  - exact (proj1 (proj1 (proj2 (parseAgeToDays_single "12" "  " "weeks" Hds1 Hlen eq_refl Hw))
                    7 eq_refl)).
  - exact (proj2 (proj2 (parseAgeToDays_single "10" " " "days" Hds2 Hlen eq_refl Hd)) eq_refl).
Defined.

Lemma dash_no_upper d : isDash d -> Js.all_chars (fun c => negb (Js.is_upper c)) d = true.
Proof. by intros [->| ->]. Qed.

Lemma dash_stops d r : isDash d -> stopsAt Js.is_digit (d ++ r).
Proof. by intros [->| ->]. Qed.

Lemma strip_dash_dash d r : isDash d -> strip_dash (d ++ r) = Some r.
Proof. by intros [->| ->]. Qed.

(** X2.  A range, two numbers of at most 13 digits joined by a hyphen
    or an en dash, then optional white space and a unit word: the offset is
    the average of the two numbers times the days of the unit, not rounded,
    a multiple of one half below 2^52 that the number type holds exactly. *)
Theorem parseAgeToDays_range a d b sp u
    (Ha : isDigits a) (Hla : (String.length a <= 13)%nat) (Hdash : isDash d)
    (Hb : isDigits b) (Hlb : (String.length b <= 13)%nat) (Hsp : isBlank sp)
    (Hu : isLowerWord u) :
  parseAgeToDays (a ++ d ++ b ++ sp ++ u)
  = Js.mul (Js.div (Js.add (Js.parseInt a) (Js.parseInt b)) (Js.of_Z 2)) (unitDays u)
  /\ (forall days, unitMap u = Own days ->
        parseAgeToDays (a ++ d ++ b ++ sp ++ u)
        = Num (Qred ((Js.parseInt_from 0 a + Js.parseInt_from 0 b) * days # 2))
        /\ 0 <= (Js.parseInt_from 0 a + Js.parseInt_from 0 b) * days < 2 ^ 53).
Proof.
  assert (Hmain : parseAgeToDays (a ++ d ++ b ++ sp ++ u)
                  = Js.mul (Js.div (Js.add (Js.parseInt a) (Js.parseInt b)) (Js.of_Z 2))
                      (unitDays u)).
  { unfold parseAgeToDays.
    replace (a ++ d ++ b ++ sp ++ u) with (a ++ (d ++ b ++ sp) ++ u)
      by (by rewrite !append_assoc).
    rewrite normal_form_fixed; [|done| |done].
    - rewrite digits_not_birth by done. rewrite !append_assoc.
      unfold rangeRegex.
      rewrite (span_app _ a (d ++ b ++ sp ++ u)) by (try apply Ha; by apply dash_stops).
      destruct Ha as [Hne Had]. destruct a as [|c a]; [done|]. cbn [Js.is_empty].
      rewrite strip_dash_dash by done.
      by rewrite match_num_unit_words.
    - rewrite !all_chars_app. rewrite (dash_no_upper d Hdash), (blank_no_upper sp Hsp).
      rewrite (all_chars_impl Js.is_digit (fun c => negb (Js.is_upper c)) b);
        [reflexivity| |apply Hb].
      intros c Hc. by rewrite digit_not_upper. }
  split; [exact Hmain|].
  intros days Hdays. rewrite Hmain. unfold unitDays, Js.parseInt. rewrite Hdays.
  split; [apply average_times|].
  apply unitMap_own in Hdays.
  pose proof (numeral_bound a (proj2 Ha) Hla) as Hna.
  pose proof (numeral_bound b (proj2 Hb) Hlb) as Hnb.
  change (2 ^ 53) with 9007199254740992.
  change (10 ^ 13) with 10000000000000 in Hna, Hnb. nia.
Qed.

Lemma parseAgeToDays_range_witness :
  parseAgeToDays "9–12 months" = Num 315 /\ parseAgeToDays "1-2weeks" = Num (21 # 2).
Proof.
  assert (H9 : isDigits "9") by (split; [discriminate|reflexivity]).
  assert (H12 : isDigits "12") by (split; [discriminate|reflexivity]).
  assert (H1 : isDigits "1") by (split; [discriminate|reflexivity]).
  assert (H2 : isDigits "2") by (split; [discriminate|reflexivity]).
  assert (Hm : isLowerWord "months") by (split; [discriminate|reflexivity]).
  assert (Hw : isLowerWord "weeks") by (split; [discriminate|reflexivity]).
  assert (Hl1 : (1 <= 13)%nat) by lia.
  assert (Hl2 : (2 <= 13)%nat) by lia.
  split.
  - exact (proj1 (proj2 (parseAgeToDays_range "9" "–" "12" " " "months" H9 Hl1
                           (or_intror eq_refl) H12 Hl2 eq_refl Hm) 30 eq_refl)).
  - exact (proj1 (proj2 (parseAgeToDays_range "1" "-" "2" "" "weeks" H1 Hl1
                           (or_introl eq_refl) H2 Hl1 eq_refl Hw) 7 eq_refl)).
Defined.

Lemma code_lower_char c :
  Js.is_upper c = true -> Js.code (Js.lower_char c) = (Js.code c + 32)%nat.
Proof.
  intros Hu. unfold Js.lower_char. rewrite Hu. unfold Js.code.
  apply nat_ascii_embedding.
  unfold Js.is_upper, Js.code in Hu. apply andb_true_iff in Hu as [H1 H2].
  apply Nat.leb_le in H1, H2. lia.
Qed.

Lemma lower_char_not_upper c : Js.is_upper (Js.lower_char c) = false.
Proof.
  destruct (Js.is_upper c) eqn:Hu.
  - pose proof (code_lower_char c Hu) as Hc.
    unfold Js.is_upper in *. rewrite Hc.
    apply andb_true_iff in Hu as [H1 H2]. apply Nat.leb_le in H1, H2.
    apply andb_false_iff. right. apply Nat.leb_gt. lia.
  - unfold Js.lower_char. by rewrite Hu.
Qed.

Lemma lower_char_space c : Js.is_space (Js.lower_char c) = Js.is_space c.
Proof.
  destruct (Js.is_upper c) eqn:Hu.
  - pose proof (code_lower_char c Hu) as Hc.
    unfold Js.is_space. rewrite Hc.
    unfold Js.is_upper in Hu. apply andb_true_iff in Hu as [H1 H2].
    apply Nat.leb_le in H1, H2.
    replace (Js.code c + 32 <=? 13)%nat with false by (symmetry; apply Nat.leb_gt; lia).
    replace (Js.code c <=? 13)%nat with false by (symmetry; apply Nat.leb_gt; lia).
    replace (Js.code c + 32 =? 32)%nat with false by (symmetry; apply Nat.eqb_neq; lia).
    replace (Js.code c =? 32)%nat with false by (symmetry; apply Nat.eqb_neq; lia).
    by rewrite !andb_false_r.
  - unfold Js.lower_char. by rewrite Hu.
Qed.

Lemma toLowerCase_idemp s : Js.toLowerCase (Js.toLowerCase s) = Js.toLowerCase s.
Proof.
  induction s as [|c s IH]; [done|]. simpl. rewrite IH. f_equal.
  unfold Js.lower_char at 1. by rewrite lower_char_not_upper.
Qed.

Lemma trimStart_lower s : Js.trimStart (Js.toLowerCase s) = Js.toLowerCase (Js.trimStart s).
Proof.
  induction s as [|c s IH]; [done|]. simpl. rewrite lower_char_space.
  by destruct (Js.is_space c).
Qed.

Lemma trimEnd_lower s : Js.trimEnd (Js.toLowerCase s) = Js.toLowerCase (Js.trimEnd s).
Proof.
  induction s as [|c s IH]; [done|]. simpl. rewrite IH, lower_char_space.
  destruct (Js.trimEnd s); simpl; [by destruct (Js.is_space c)|done].
Qed.

Lemma trim_lower s : Js.trim (Js.toLowerCase s) = Js.toLowerCase (Js.trim s).
Proof. unfold Js.trim. by rewrite trimStart_lower, trimEnd_lower. Qed.

Lemma trimEnd_idemp s : Js.trimEnd (Js.trimEnd s) = Js.trimEnd s.
Proof.
  induction s as [|c s IH]; [done|]. simpl.
  destruct (Js.trimEnd s) as [|x r] eqn:E.
  - destruct (Js.is_space c) eqn:Hc; [done|]. simpl. by rewrite Hc.
  - simpl in *. by rewrite IH.
Qed.

Lemma trimStart_stops s : stopsAt Js.is_space (Js.trimStart s).
Proof.
  induction s as [|c s IH]; [done|]. simpl.
  destruct (Js.is_space c) eqn:Hc; [done|]. by simpl.
Qed.

Lemma trimEnd_stops s : stopsAt Js.is_space s -> stopsAt Js.is_space (Js.trimEnd s).
Proof.
  destruct s as [|c s]; [done|]. simpl. intros Hc.
  destruct (Js.trimEnd s); [by rewrite Hc|done].
Qed.

Lemma trim_idemp s : Js.trim (Js.trim s) = Js.trim s.
Proof.
  unfold Js.trim.
  rewrite (trimStart_fixed (Js.trimEnd (Js.trimStart s))).
  - apply trimEnd_idemp.
  - apply trimEnd_stops, trimStart_stops.
Qed.

(** X3.  The parser ignores the white space around an expression and the
    case of its letters. *)
Theorem parseAgeToDays_normalizes s :
  parseAgeToDays (Js.trim s) = parseAgeToDays s
  /\ parseAgeToDays (Js.toLowerCase s) = parseAgeToDays s.
Proof.
  split; unfold parseAgeToDays.
  - by rewrite trim_idemp.
  - by rewrite trim_lower, toLowerCase_idemp.
Qed.

End AgeExpressions.
(** ** The due date of a schedule entry *)

Lemma civil_day_range day : 1 <= (JsDate.civil day).2 <= 31.
Proof.
  unfold JsDate.civil. cbv zeta. cbn [snd].
  set (doe := (day + 719468) mod 146097).
  set (yoe := (doe - doe / 1460 + doe / 36524 - doe / 146096) / 365).
  set (doy := doe - (365 * yoe + yoe / 4 - yoe / 100)).
  set (mp := (5 * doy + 2) / 153).
  assert (Hdoe : 0 <= doe < 146097) by (apply Z.mod_pos_bound; lia).
  assert (Hdoy : 0 <= doy <= 365).
  { subst doy yoe. Z.div_mod_to_equations. lia. }
  subst mp. Z.div_mod_to_equations. lia.
Qed.

Lemma trunc_add_nonneg D q :
  0 <= D -> (0 <= q)%Q -> Js.trunc (Qred (inject_Z D + q)) = D + Qfloor q.
Proof.
  intros HD Hq.
  rewrite (trunc_comp _ (inject_Z D + q)%Q) by apply Qred_correct.
  unfold Js.trunc.
  assert (Hpos : (0 <= inject_Z D + q)%Q).
  { rewrite <- (Qplus_0_r 0). apply Qplus_le_compat; [|done].
    change 0%Q with (inject_Z 0). by rewrite <- Zle_Qle. }
  apply Qle_bool_iff in Hpos. rewrite Hpos.
  destruct q as [n d]. unfold Qfloor, Qplus, inject_Z. cbn [Qnum Qden].
  rewrite Z.mul_1_r, Pos.mul_1_l. by rewrite Z.div_add_l.
Qed.

Lemma parseAgeToDays_nonneg s q : parseAgeToDays s = Num q -> (0 <= q)%Q.
Proof.
  intros Hq.
  destruct (parseAgeToDays_cases s) as [H|[(n & Hn & H)|(_ & k & Hk & H)]];
    rewrite Hq in H; [done| |]; injection H as ->.
  - change 0%Q with (inject_Z 0). by rewrite <- Zle_Qle.
  - rewrite Qred_correct. unfold Qle. simpl. lia.
Qed.

(** In the model, whose local time is a fixed offset from UTC, the
    vaccination date is the date of birth moved by the whole days of the
    offset. *)
Lemma vaccinationDate_eq tz dob ageStr :
  vaccinationDate tz (Some dob) ageStr
  = match parseAgeToDays ageStr with
    | Num q => JsDate.TimeClip (dob + Qfloor q * msPerDay)
    | NaN => None
    end.
Proof.
  unfold vaccinationDate.
  destruct (parseAgeToDays ageStr) as [q|] eqn:Hq; [|done].
  apply parseAgeToDays_nonneg in Hq.
  unfold JsDate.setDate, JsDate.getDate, JsDate.MakeDay, Js.add, Js.of_Z.
  rewrite trunc_add_nonneg; [|pose proof (civil_day_range (JsDate.Day (JsDate.LocalTime tz dob))); unfold JsDate.DateFromTime; lia|done].
  f_equal.
  unfold JsDate.UTC, JsDate.MakeDate, JsDate.firstOfMonth, JsDate.LocalTime.
  pose proof (day_decompose (dob + tz)). lia.
Qed.

Lemma day_plus t n : JsDate.Day (t + n * msPerDay) = JsDate.Day t + n.
Proof.
  replace (t + n * msPerDay) with (t - (- n) * msPerDay) by lia. rewrite day_shift. lia.
Qed.

Lemma timeWithinDay_plus t n :
  JsDate.TimeWithinDay (t + n * msPerDay) = JsDate.TimeWithinDay t.
Proof.
  unfold JsDate.TimeWithinDay, msPerDay, JsDate.msPerDay. apply Z.mod_add. lia.
Qed.

(** X4.  For an age expression of ASCII characters and en dashes with
    numerals of at most 13 digits, the vaccination date of a schedule entry
    falls on the local calendar day that lies the whole days of the offset
    after the local day of birth, a fraction being dropped, at the local
    time of day of the birth.  An offset that is not a number gives the
    invalid date; an offset that is one gives a valid date whenever the
    result stays a day clear of the end of the range of dates. *)
Theorem vaccinationDate_offset tz dob ageStr
    (Hage : shortNumerals ageStr) :
  (parseAgeToDays ageStr = NaN -> vaccinationDate tz (Some dob) ageStr = None)
  /\ (forall v, vaccinationDate tz (Some dob) ageStr = Some v ->
        exists q, parseAgeToDays ageStr = Num q
          /\ JsDate.Day (JsDate.LocalTime tz v)
             = JsDate.Day (JsDate.LocalTime tz dob) + Qfloor q
          /\ JsDate.TimeWithinDay (JsDate.LocalTime tz v)
             = JsDate.TimeWithinDay (JsDate.LocalTime tz dob))
  /\ (forall q, parseAgeToDays ageStr = Num q ->
        Z.abs (dob + Qfloor q * msPerDay) <= 8640000000000000 - msPerDay ->
        is_Some (vaccinationDate tz (Some dob) ageStr)).
Proof.
  rewrite vaccinationDate_eq. split; [by intros ->|]. split.
  - intros v Hv. destruct (parseAgeToDays ageStr) as [q|]; [|done].
    apply TimeClip_Some in Hv as [-> _]. exists q. split; [done|].
    unfold JsDate.LocalTime.
    replace (dob + Qfloor q * msPerDay + tz) with (dob + tz + Qfloor q * msPerDay) by lia.
    by rewrite day_plus, timeWithinDay_plus.
  - intros q -> Hrange. rewrite TimeClip_valid; [by eexists|].
    unfold msPerDay, JsDate.msPerDay in *. lia.
Qed.

(** A birth at 15:30 UTC on a server three hours ahead: "1-2 weeks" is
    10.5 days and moves the date by 10 local days, to 18:30 local time. *)
Lemma vaccinationDate_offset_witness :
  exists v,
    vaccinationDate (3 * msPerHour) (Some (sampleBirth + 55800000)) "1-2 weeks" = Some v
    /\ JsDate.Day (JsDate.LocalTime (3 * msPerHour) v) = 20240 + 10
    /\ JsDate.TimeWithinDay (JsDate.LocalTime (3 * msPerHour) v) = 66600000.
Proof.
  assert (Hage : shortNumerals "1-2 weeks").
  { apply (plain_example "1-2 weeks" ["1"; "2"] "weeks"); [reflexivity|reflexivity| |].
    - repeat constructor; simpl; lia.
    - unfold unitMap; simpl; discriminate. }
  destruct (vaccinationDate_offset (3 * msPerHour) (sampleBirth + 55800000) "1-2 weeks" Hage)
    as (_ & Hlocal & Hvalid).
  destruct (Hvalid (21 # 2)%Q) as [v Hv]; [reflexivity|vm_compute; discriminate|].
  exists v. split; [exact Hv|].
  destruct (Hlocal v Hv) as (q & Hq & Hday & Htime).
  assert (q = (21 # 2)%Q) as -> by (vm_compute in Hq; congruence).
  rewrite Hday, Htime. split; vm_compute; reflexivity.
Defined.
(** ** The candidates of a schedule entry *)

(** The candidates of an entry, spelled out. *)
Lemma project_elem tz hour dob now e c :
  c ∈ project tz hour dob now e
  <-> exists v,
        vaccinationDate tz dob (age e) = Some v /\ now < v
        /\ leadTime tz (Some v) (leadDays (candCadence c)) hour = Some (candTrigger c)
        /\ now < candTrigger c
        /\ (candCadence c = weekly -> 7 * msPerDay <= v - now)
        /\ c = mkCandidate (entryVaccine e) v (candTrigger c) (candCadence c).
Proof.
  unfold project. destruct (vaccinationDate tz dob (age e)) as [v|] eqn:Hv.
  - unfold JsDate.leb. destruct (Z.leb_spec v now) as [Hle|Hnow].
    { split; [by intros ?%elem_of_nil|]. intros (v' & [= <-] & Hlt & _). lia. }
    rewrite elem_of_app. split.
    + intros [H|H].
      * destruct (Js.geb _ _) eqn:Hge; [|by apply elem_of_nil in H].
        apply diffDays_ge_7 in Hge.
        apply pushIfFuture_elem in H as (v' & t & [= <-] & Ht & Hlt & ->).
        exists v. simpl. repeat split; done.
      * apply pushIfFuture_elem in H as (v' & t & [= <-] & Ht & Hlt & ->).
        exists v. simpl. repeat split; done.
    + intros (v' & [= <-] & _ & Ht & Hlt & Hw & Hc).
      assert (Hgt : JsDate.gtb (Some (candTrigger c)) (Some now) = true).
      { apply gtb_Some. by eexists. }
      destruct (candCadence c) eqn:Hcad; simpl in Ht.
      * right. unfold pushIfFuture. rewrite Ht, Hgt. rewrite Hc. by left.
      * left. specialize (Hw eq_refl). apply diffDays_ge_7 in Hw. rewrite Hw.
        unfold pushIfFuture. rewrite Ht, Hgt. rewrite Hc. by left.
  - simpl. rewrite leadTime_invalid. unfold pushIfFuture. simpl.
    split; [by intros ?%elem_of_nil|]. by intros (v' & [=] & _).
Qed.

Lemma projectAll_elem tz hour dob now sched c :
  c ∈ projectAll tz hour dob now sched <-> exists e, e ∈ sched /\ c ∈ project tz hour dob now e.
Proof.
  unfold projectAll. rewrite list_elem_of_In, in_flat_map.
  split; intros (e & He & Hc); exists e; by rewrite ?list_elem_of_In in *.
Qed.

(** X5.  A reminder is set on the local calendar day that lies 7 days
    (weekly) or 1 day (daily) before the local calendar day of the
    vaccination, at the route's hour of that day, sharp. *)
Theorem trigger_local_time tz hour dob now sched c
    (Hhour : 0 <= hour < 24)
    (Hc : c ∈ projectAll tz hour dob now sched) :
  JsDate.Day (candTrigger c + tz)
  = JsDate.Day (candVaccinationDate c + tz) - leadDays (candCadence c)
  /\ JsDate.TimeWithinDay (candTrigger c + tz) = hour * msPerHour.
Proof.
  apply projectAll_elem in Hc as (e & _ & Hc).
  apply project_elem in Hc as (v & _ & _ & Ht & _ & _ & Hc).
  apply leadTime_Some in Ht. rewrite Hc at 2. cbn [candVaccinationDate].
  rewrite Ht.
  set (d := JsDate.Day (v + tz) - leadDays (candCadence c)).
  replace (d * msPerDay + hour * msPerHour - tz + tz)
    with (hour * msPerHour + d * msPerDay) by lia.
  clearbody d.
  unfold JsDate.Day, JsDate.TimeWithinDay, msPerDay, msPerHour, JsDate.msPerDay,
    JsDate.msPerHour in *.
  rewrite Z.div_add, Z.mod_add by lia.
  rewrite Z.div_small, Z.mod_small by lia. split; lia.
Qed.

Lemma trigger_local_time_witness :
  let c := mkCandidate "OPV1" (20282 * msPerDay) (20281 * msPerDay + 11 * msPerHour) daily in
  c ∈ projectAll utc 11 (Some sampleBirth) sampleNow sampleSchedule
  /\ JsDate.Day (candTrigger c + utc) = JsDate.Day (candVaccinationDate c + utc) - 1
  /\ JsDate.TimeWithinDay (candTrigger c + utc) = 11 * msPerHour.
Proof.
  intros c.
  assert (Hc : c ∈ projectAll utc 11 (Some sampleBirth) sampleNow sampleSchedule).
  { vm_compute. right. left. }
  split; [exact Hc|].
  apply (trigger_local_time utc 11 (Some sampleBirth) sampleNow sampleSchedule c); [lia|exact Hc].
Defined.
Lemma leadTime_bounds tz v lead hour t :
  leadTime tz (Some v) lead hour = Some t ->
  Z.abs (v - lead * msPerDay) <= 8640000000000000 /\ Z.abs t <= 8640000000000000.
Proof.
  unfold leadTime. rewrite setDate_minus.
  destruct (JsDate.TimeClip (v - lead * msPerDay)) as [u|] eqn:Hu; [|done].
  apply TimeClip_Some in Hu as [-> Hb]. unfold JsDate.setHours.
  intros H. apply TimeClip_Some in H as [-> Ht]. by split.
Qed.

(** X6.  A schedule entry that gets a weekly reminder gets a daily
    reminder too: no weekly reminder stands alone. *)
Theorem weekly_comes_with_daily tz hour dob now e
    (Hhour : hour < 24)
    (Hweekly : hasWeekly (project tz hour dob now e)) :
  hasDaily (project tz hour dob now e).
Proof.
  destruct Hweekly as (c & Hc & Hcad).
  apply project_elem in Hc as (v & Hv & Hnow & Ht & Hlt & _ & _).
  rewrite Hcad in Ht. simpl in Ht.
  pose proof (setDate_bound _ _ _ _ Hv) as Hvb.
  pose proof (leadTime_bounds _ _ _ _ _ Ht) as [Hb7 Htb].
  apply leadTime_Some in Ht.
  pose proof (day_decompose (v + tz)) as Hdec.
  pose proof (timeWithinDay_range (v + tz)) as Hr.
  set (t1 := (JsDate.Day (v + tz) - 1) * msPerDay + hour * msPerHour - tz).
  assert (H1 : leadTime tz (Some v) 1 hour = Some t1).
  { apply leadTime_valid; unfold msPerDay, msPerHour, JsDate.msPerDay, JsDate.msPerHour in *; lia. }
  exists (mkCandidate (entryVaccine e) v t1 daily). split; [|done].
  apply project_elem. exists v. simpl. repeat split; try done.
  subst t1. unfold msPerDay, msPerHour, JsDate.msPerDay, JsDate.msPerHour in *. lia.
Qed.

Lemma weekly_comes_with_daily_witness :
  hasWeekly (project utc 14 (Some sampleBirth) sampleNow (mkEntry "6 weeks" "OPV1"))
  /\ hasDaily (project utc 14 (Some sampleBirth) sampleNow (mkEntry "6 weeks" "OPV1")).
Proof.
  assert (Hw : hasWeekly (project utc 14 (Some sampleBirth) sampleNow (mkEntry "6 weeks" "OPV1"))).
  { eexists. split; [vm_compute; left|reflexivity]. }
  split; [exact Hw|].
  apply (weekly_comes_with_daily utc 14 (Some sampleBirth) sampleNow (mkEntry "6 weeks" "OPV1"));
    [lia|exact Hw].
Defined.
(** ** The correction and regeneration routes, in full *)

Lemma puts_lookup_in items (t : gmap string Reminder) k :
  k ∈ map reminderId items ->
  exists x, x ∈ items /\ reminderId x = k
            /\ foldl applyRequest t (map PutRequest items) !! k = Some x.
Proof.
  induction items as [|x items IH] using rev_ind; [by intros ?%elem_of_nil|].
  rewrite puts_snoc. intros Hin.
  destruct (decide (reminderId x = k)) as [<-|Hne].
  - exists x. rewrite lookup_insert_eq. split; [|done]. apply elem_of_app. right. left.
  - rewrite map_app, elem_of_app in Hin. destruct Hin as [Hin|Hin].
    + destruct (IH Hin) as (y & Hy & Hk & Hl). exists y.
      rewrite lookup_insert_ne by done. split; [|done]. apply elem_of_app. by left.
    + simpl in Hin. apply list_elem_of_singleton in Hin. congruence.
Qed.

Lemma deleted_elem (P : Reminder -> Prop) `{!forall r, Decision (P r)}
    (t : gmap string Reminder) k :
  wellKeyed t ->
  k ∈ map reminderId (filter P (scanReminders t)) <-> exists r, t !! k = Some r /\ P r.
Proof.
  intros Hkeys. rewrite list_elem_of_fmap. split.
  - intros (r & -> & [HP Hr]%list_elem_of_filter).
    apply scanReminders_elem in Hr as (k' & Hk').
    pose proof (Hkeys k' r Hk') as Hkk. simpl in Hkk. subst k'. by exists r.
  - intros (r & Hk & HP). exists r. split; [symmetry; exact (Hkeys k r Hk)|].
    apply list_elem_of_filter. split; [done|]. apply scanReminders_elem. by exists k.
Qed.

(** The table after the selected reminders were deleted and the new items
    written, key by key. *)
Lemma rewriteTable_lookup (P : Reminder -> Prop) `{!forall r, Decision (P r)} items t k :
  wellKeyed t ->
  (k ∈ map reminderId items
   /\ exists x, x ∈ items /\ reminderId x = k /\ rewriteTable P items t !! k = Some x)
  \/ ((k ∉ map reminderId items)
      /\ rewriteTable P items t !! k
         = match t !! k with
           | Some r => if decide (P r) then None else Some r
           | None => None
           end).
Proof.
  intros Hkeys. unfold rewriteTable.
  destruct (decide (k ∈ map reminderId items)) as [Hin|Hnin].
  - left. split; [done|]. by apply puts_lookup_in.
  - right. split; [done|]. rewrite puts_lookup_other, deletes_lookup by done.
    case_decide as Hdel.
    + apply deleted_elem in Hdel as (r & -> & HP); [|done]. by rewrite decide_True.
    + destruct (t !! k) as [r|] eqn:Hk; [|done].
      rewrite decide_False; [done|]. intros HP. apply Hdel. apply deleted_elem; [done|].
      by exists r.
Qed.

Lemma postReminder_eq tz auth id now w :
  postReminder tz auth id now w
  = match auth with
    | NoBearer => (w, mkResponse 401 (ErrorMsg "Missing or invalid Authorization header"))
    | InvalidToken => (w, mkResponse 403 (ErrorMsg "Invalid token"))
    | Bearer u =>
        match babies w !! id with
        | None => (w, mkResponse 404 (ErrorMsg "Baby not found"))
        | Some baby =>
            if bool_decide (motherUserId baby = Some u) then
              (setReminders w
                 (rewriteTable (fun r => now < scheduled_at r /\ babyId r = id /\ sent r = false)
                    (map (compositeItem u id)
                       (projectAll tz 11 (dateOfBirth baby) now (schedule w)))
                    (reminders w)),
               mkResponse 201 (Message "Reminders generated successfully"))
            else (w, mkResponse 403 (ErrorMsg "Not authorized for this baby"))
        end
    end.
Proof.
  unfold postReminder, tryCatch, postReminderBody.
  destruct auth as [| |u]; [done|done|].
  destruct w as [rs bs ms sc ml uc]. unfold bind, authenticateToken, ret, gets; simpl.
  destruct (bs !! id) as [baby|]; [|done]. simpl.
  destruct (bool_decide (motherUserId baby = Some u)); [|done]. simpl.
  unfold modify, setReminders. simpl. rewrite !writeChunks_foldl by done.
  unfold rewriteTable, queryByBabySent. by rewrite list_filter_filter.
Qed.

Lemma putBirthDate_eq tz auth id bd now w :
  putBirthDate tz auth id bd now w
  = match auth, bd with
    | NoBearer, _ => (w, mkResponse 401 (ErrorMsg "Missing or invalid Authorization header"))
    | InvalidToken, _ => (w, mkResponse 403 (ErrorMsg "Invalid token"))
    | Bearer u, Malformed => (w, mkResponse 400 (ErrorMsg "Use YYYY-MM-DD."))
    | Bearer u, Parsed None => (w, mkResponse 400 (ErrorMsg "Invalid date"))
    | Bearer u, Parsed (Some p) =>
        (mkWorld
           (rewriteTable (fun r => babyId r = id /\ sent r = false)
              (map (compositeItem u id) (projectAll tz 14 (Some p) now (schedule w)))
              (reminders w))
           (partial_alter (setDateOfBirth p) id (babies w))
           (mothers w) (schedule w) (mailLog w) (uuidCount w),
         mkResponse 200 (Message "Baby DOB and reminders updated"))
    end.
Proof.
  unfold putBirthDate, tryCatch, putBirthDateBody.
  destruct auth as [| |u]; [done|done|].
  destruct bd as [|[p|]]; [done| |done].
  destruct w as [rs bs ms sc ml uc].
  unfold bind, authenticateToken, ret, gets, modify; simpl.
  by rewrite !writeChunks_foldl.
Qed.
Lemma compositeItem_id u id c : reminderId (compositeItem u id c) = compositeId id c.
Proof. reflexivity. Qed.

Lemma composite_ids u id cs :
  map reminderId (map (compositeItem u id) cs) = map (compositeId id) cs.
Proof. by rewrite map_map. Qed.

(** What a rewrite leaves in the table, in terms of the candidates. *)
Lemma rewrite_contract (P : Reminder -> Prop) `{!forall r, Decision (P r)} u id cs t :
  wellKeyed t ->
  let t' := rewriteTable P (map (compositeItem u id) cs) t in
  (forall k r, t' !! k = Some r -> P r -> exists c, c ∈ cs /\ r = compositeItem u id c)
  /\ (forall c, c ∈ cs ->
        exists c', c' ∈ cs /\ compositeId id c' = compositeId id c
                   /\ t' !! compositeId id c = Some (compositeItem u id c'))
  /\ (forall k r, t !! k = Some r -> ~ P r ->
        (forall c, c ∈ cs -> compositeId id c <> k) -> t' !! k = Some r).
Proof.
  intros Hkeys t'. split; [|split].
  - intros k r Hk HP.
    destruct (rewriteTable_lookup P (map (compositeItem u id) cs) t k Hkeys)
      as [(_ & x & Hx & _ & Hl)|(_ & Hl)]; fold t' in Hl; rewrite Hl in Hk.
    + inversion Hk; subst x. apply list_elem_of_fmap in Hx as (c & -> & Hc). by exists c.
    + destruct (t !! k) as [r0|]; [|done]. case_decide; [done|]. by inversion Hk; subst r0.
  - intros c Hc.
    destruct (rewriteTable_lookup P (map (compositeItem u id) cs) t (compositeId id c) Hkeys)
      as [(_ & x & Hx & Hid & Hl)|(Hnin & _)].
    + apply list_elem_of_fmap in Hx as (c' & -> & Hc'). by exists c'.
    + exfalso. apply Hnin. rewrite composite_ids. by apply list_elem_of_fmap_2.
  - intros k r Hk HP Hnew.
    destruct (rewriteTable_lookup P (map (compositeItem u id) cs) t k Hkeys)
      as [(Hin & _)|(_ & Hl)].
    + exfalso. rewrite composite_ids in Hin. apply list_elem_of_fmap in Hin as (c & -> & Hc).
      by apply (Hnew c).
    + subst t'. rewrite Hl, Hk. by rewrite decide_False.
Qed.

Lemma NoDup_map_eq {A B} (f : A -> B) (l : list A) (x y : A) :
  NoDup (map f l) -> x ∈ l -> y ∈ l -> f x = f y -> x = y.
Proof.
  induction l as [|a l IH]; [by intros _ ?%elem_of_nil|].
  cbn [map]. intros [Ha Hnd]%NoDup_cons [->|Hx]%elem_of_cons [->|Hy]%elem_of_cons Heq.
  - done.
  - exfalso. apply Ha. rewrite Heq. by apply list_elem_of_fmap_2.
  - exfalso. apply Ha. rewrite <- Heq. by apply list_elem_of_fmap_2.
  - by apply IH.
Qed.

(** With distinct composite identifiers every candidate is stored as its
    own item. *)
Lemma rewrite_stores (P : Reminder -> Prop) `{!forall r, Decision (P r)} u id cs t c :
  wellKeyed t -> distinctIds id cs -> c ∈ cs ->
  rewriteTable P (map (compositeItem u id) cs) t !! compositeId id c
  = Some (compositeItem u id c).
Proof.
  intros Hkeys Hnd Hc.
  destruct (rewrite_contract P u id cs t Hkeys) as (_ & Hcomplete & _).
  destruct (Hcomplete c Hc) as (c' & Hc' & Hid & ->).
  by rewrite (NoDup_map_eq (compositeId id) cs c' c Hnd Hc' Hc Hid).
Qed.

(** X7.  Regeneration by the owner of the baby, when the projected
    candidates have distinct composite identifiers and the dates at hand
    have four-digit years: the route answers 201; afterwards the unsent
    reminders of the baby that are still to come are the ones projected from
    the schedule, each stored under its composite identifier; a reminder of
    another baby, a sent one and one whose trigger time has passed stay as
    they were, unless a new reminder takes their identifier. *)
Theorem postReminder_regenerates tz u id now w baby
    (Hkeys : wellKeyed (reminders w))
    (Hbaby : babies w !! id = Some baby)
    (Hown : motherUserId baby = Some u)
    (Hdates : plainDates now (reminders w))
    (Hids : distinctIds id (projectAll tz 11 (dateOfBirth baby) now (schedule w))) :
  let run := postReminder tz (Bearer u) id now w in
  let cs := projectAll tz 11 (dateOfBirth baby) now (schedule w) in
  status run.2 = 201
  /\ (forall k r, reminders run.1 !! k = Some r ->
        babyId r = id -> sent r = false -> now < scheduled_at r ->
        exists c, c ∈ cs /\ r = compositeItem u id c)
  /\ (forall c, c ∈ cs ->
        reminders run.1 !! compositeId id c = Some (compositeItem u id c))
  /\ (forall k r, reminders w !! k = Some r ->
        babyId r <> id \/ sent r = true \/ scheduled_at r <= now ->
        (forall c, c ∈ cs -> compositeId id c <> k) ->
        reminders run.1 !! k = Some r).
Proof.
  intros run cs. subst run. rewrite postReminder_eq, Hbaby.
  rewrite bool_decide_eq_true_2 by done. cbn [fst snd status reminders setReminders].
  split; [done|].
  destruct (rewrite_contract (fun r => now < scheduled_at r /\ babyId r = id /\ sent r = false)
              u id cs (reminders w) Hkeys) as (Hsound & _ & Hkept).
  split; [|split].
  - intros k r Hk Hb Hs Hn. by apply (Hsound k r Hk).
  - intros c Hc. by apply rewrite_stores.
  - intros k r Hk Hor Hnew. apply Hkept; [done| |done].
    intros (Hn & Hb & Hs). destruct Hor as [H|[H|H]]; [done|congruence|lia].
Qed.

Lemma worldWithOverdue_dates : plainDates sampleNow (reminders worldWithOverdue).
Proof.
  split; [unfold fourDigitYear; vm_compute; split; [discriminate|reflexivity]|].
  intros k r Hk. unfold worldWithOverdue, reminders in Hk.
  apply lookup_singleton_Some in Hk as [_ <-].
  unfold fourDigitYear. vm_compute. split; [discriminate|reflexivity].
Qed.

Lemma postReminder_regenerates_witness :
  reminders (postReminder utc (Bearer "u1") "b1" sampleNow worldWithOverdue).1
    !! reminderId overdueReminder = Some overdueReminder
  /\ is_Some (reminders (postReminder utc (Bearer "u1") "b1" sampleNow worldWithOverdue).1
                !! "b1#OPV1#weekly#2025-07-06").
Proof.
  assert (Hkeys : wellKeyed (reminders worldWithOverdue)).
  { apply wellKeyed_insert. apply wellKeyed_empty. }
  assert (Hids : distinctIds "b1"
                   (projectAll utc 11 (dateOfBirth sampleBaby) sampleNow
                      (schedule worldWithOverdue))).
  { unfold distinctIds. apply (@bool_decide_unpack _ (NoDup_dec _)). vm_compute. reflexivity. }
  destruct (postReminder_regenerates utc "u1" "b1" sampleNow worldWithOverdue sampleBaby
              Hkeys eq_refl eq_refl worldWithOverdue_dates Hids) as (_ & _ & Hstored & Hkept).
  split.
  - apply Hkept.
    + vm_compute. reflexivity.
    + right. right. vm_compute. discriminate.
    + intros c Hc. vm_compute in Hc.
      repeat (apply elem_of_cons in Hc as [->|Hc]; [vm_compute; discriminate|]).
      by apply elem_of_nil in Hc.
  - assert (Hc : mkCandidate "OPV1" (sampleBirth + 42 * msPerDay)
                   (sampleBirth + 35 * msPerDay + 11 * msPerHour) weekly
                 ∈ projectAll utc 11 (dateOfBirth sampleBaby) sampleNow
                     (schedule worldWithOverdue)).
    { vm_compute. left. }
    pose proof (Hstored _ Hc) as Hs.
    change (compositeId "b1" _) with "b1#OPV1#weekly#2025-07-06" in Hs at 1.
    rewrite Hs. by eexists.
Defined.

(** X8.  A birth-date correction, whoever the caller is: the route does
    not look at the owner of the baby.  It stores the new date of birth
    (creating the item when the baby is unknown); when the candidates
    projected from the new date have distinct composite identifiers it
    answers 200, and afterwards the unsent reminders of the baby are the
    ones projected from the new date, each stored under its composite
    identifier with the caller as the recipient; reminders of other babies
    and sent reminders stay, unless a new reminder takes their
    identifier. *)
Theorem putBirthDate_rewrites tz u id p now w
    (Hkeys : wellKeyed (reminders w))
    (Hids : distinctIds id (projectAll tz 14 (Some p) now (schedule w))) :
  let run := putBirthDate tz (Bearer u) id (Parsed (Some p)) now w in
  let cs := projectAll tz 14 (Some p) now (schedule w) in
  status run.2 = 200
  /\ dateOfBirth <$> babies run.1 !! id = Some (Some p)
  /\ (forall j, j <> id -> babies run.1 !! j = babies w !! j)
  /\ (forall k r, reminders run.1 !! k = Some r -> babyId r = id -> sent r = false ->
        exists c, c ∈ cs /\ r = compositeItem u id c)
  /\ (forall c, c ∈ cs ->
        reminders run.1 !! compositeId id c = Some (compositeItem u id c))
  /\ (forall k r, reminders w !! k = Some r ->
        babyId r <> id \/ sent r = true ->
        (forall c, c ∈ cs -> compositeId id c <> k) ->
        reminders run.1 !! k = Some r).
Proof.
  intros run cs. subst run. rewrite putBirthDate_eq.
  cbn [fst snd status reminders babies].
  split; [done|]. split.
  { rewrite lookup_partial_alter_eq. by destruct (babies w !! id). }
  split.
  { intros j Hj. by rewrite lookup_partial_alter_ne. }
  destruct (rewrite_contract (fun r => babyId r = id /\ sent r = false)
              u id cs (reminders w) Hkeys) as (Hsound & _ & Hkept).
  split; [|split].
  - intros k r Hk Hb Hs. by apply (Hsound k r Hk).
  - intros c Hc. by apply rewrite_stores.
  - intros k r Hk Hor Hnew. apply Hkept; [done| |done].
    intros (Hb & Hs). destruct Hor as [H|H]; [done|congruence].
Qed.

Lemma putBirthDate_rewrites_witness :
  let run := putBirthDate utc (Bearer "someone else") "b1"
               (Parsed (Some (sampleBirth + 2 * msPerDay))) sampleNow worldWithOverdue in
  status run.2 = 200
  /\ dateOfBirth <$> babies run.1 !! "b1" = Some (Some (sampleBirth + 2 * msPerDay)).
Proof.
  assert (Hkeys : wellKeyed (reminders worldWithOverdue)).
  { apply wellKeyed_insert. apply wellKeyed_empty. }
  assert (Hids : distinctIds "b1"
                   (projectAll utc 14 (Some (sampleBirth + 2 * msPerDay)) sampleNow
                      (schedule worldWithOverdue))).
  { unfold distinctIds. apply (@bool_decide_unpack _ (NoDup_dec _)). vm_compute. reflexivity. }
  destruct (putBirthDate_rewrites utc "someone else" "b1" (sampleBirth + 2 * msPerDay)
              sampleNow worldWithOverdue Hkeys Hids) as (Hst & Hdob & _).
  split; [exact Hst|exact Hdob].
Defined.
(** ** Repeating a request *)

(** X9.  The regeneration route is idempotent: a second call at the same
    instant answers as the first and leaves every table as the first call
    left it. *)
Theorem postReminder_twice tz auth id now w
    (Hkeys : wellKeyed (reminders w)) :
  postReminder tz auth id now (postReminder tz auth id now w).1
  = postReminder tz auth id now w.
Proof.
  rewrite (postReminder_eq tz auth id now w).
  destruct auth as [| |u]; [by rewrite postReminder_eq|by rewrite postReminder_eq|].
  destruct (babies w !! id) as [baby|] eqn:Hb;
    [|cbn [fst]; by rewrite postReminder_eq, Hb].
  destruct (bool_decide (motherUserId baby = Some u)) eqn:Hown;
    [|cbn [fst]; by rewrite postReminder_eq, Hb, Hown].
  cbn [fst]. rewrite postReminder_eq. cbn [babies setReminders reminders schedule].
  rewrite Hb, Hown. by rewrite rewriteTable_twice.
Qed.

Lemma postReminder_twice_witness :
  postReminder utc (Bearer "u1") "b1" sampleNow
    (postReminder utc (Bearer "u1") "b1" sampleNow worldWithOverdue).1
  = postReminder utc (Bearer "u1") "b1" sampleNow worldWithOverdue.
Proof.
  apply postReminder_twice. apply wellKeyed_insert. apply wellKeyed_empty.
Defined.

Lemma setDateOfBirth_twice p b :
  setDateOfBirth p (setDateOfBirth p b) = setDateOfBirth p b.
Proof. by destruct b. Qed.

(** X10.  So is the correction route: the same correction sent twice at
    the same instant answers the same and leaves the same tables. *)
Theorem putBirthDate_twice tz auth id bd now w
    (Hkeys : wellKeyed (reminders w)) :
  putBirthDate tz auth id bd now (putBirthDate tz auth id bd now w).1
  = putBirthDate tz auth id bd now w.
Proof.
  rewrite (putBirthDate_eq tz auth id bd now w).
  destruct auth as [| |u]; [by rewrite putBirthDate_eq|by rewrite putBirthDate_eq|].
  destruct bd as [|[p|]]; [by rewrite putBirthDate_eq| |by rewrite putBirthDate_eq].
  cbn [fst]. rewrite putBirthDate_eq.
  cbn [babies reminders schedule mothers mailLog uuidCount].
  rewrite rewriteTable_twice by done.
  rewrite partial_alter_partial_alter_eq.
  rewrite (partial_alter_ext (setDateOfBirth p ∘ setDateOfBirth p) (setDateOfBirth p));
    [reflexivity|].
  intros b _. apply setDateOfBirth_twice.
Qed.

Lemma putBirthDate_twice_witness :
  putBirthDate utc (Bearer "u1") "b1" (Parsed (Some sampleBirth)) sampleNow
    (putBirthDate utc (Bearer "u1") "b1" (Parsed (Some sampleBirth)) sampleNow
       worldWithOverdue).1
  = putBirthDate utc (Bearer "u1") "b1" (Parsed (Some sampleBirth)) sampleNow worldWithOverdue.
Proof.
  apply putBirthDate_twice. apply wellKeyed_insert. apply wellKeyed_empty.
Defined.
(** ** Requests that are turned down *)

Lemma initAdministered_status tz auth id now w :
  status (initAdministered tz auth id now w).2 <> 200 ->
  (initAdministered tz auth id now w).1 = w.
Proof.
  unfold initAdministered, tryCatch, initAdministeredBody.
  destruct auth as [| |u]; [done|done|].
  destruct w as [rs bs ms sc ml uc]. unfold bind, authenticateToken, ret, gets; simpl.
  destruct (bs !! id) as [baby|]; [|done]. simpl.
  destruct (bool_decide (motherUserId baby = Some u)); [|done]. simpl.
  by destruct (flat_map _ _).
Qed.

Lemma markAdministered_status rng auth id v d kind now w :
  status (markAdministered rng auth id v d kind now w).2 <> 201 ->
  (markAdministered rng auth id v d kind now w).1 = w.
Proof.
  unfold markAdministered, tryCatch, markAdministeredBody.
  destruct auth as [| |u]; [done|done|].
  destruct w as [rs bs ms sc ml uc]. unfold bind, authenticateToken, ret, gets; simpl.
  destruct (Js.is_empty v || Js.is_empty d); [done|]. simpl.
  destruct (bs !! id) as [baby|]; [|done]. simpl.
  destruct (bool_decide (motherUserId baby = Some u)); [|done]. simpl.
  by destruct (existsb (sameEntry v d) (administeredList baby)).
Qed.

Lemma postBaby_early tz rng auth name dob gender now w r :
  (postBaby tz rng auth name dob gender now w).2 = Return r ->
  (postBaby tz rng auth name dob gender now w).1 = w.
Proof.
  unfold postBaby.
  destruct auth as [| |u]; [done|done|].
  destruct w as [rs bs ms sc ml uc]. unfold bind, authenticateToken, ret, gets; simpl.
  destruct (Js.is_empty name || Js.is_empty gender); [done|]. simpl.
  destruct (ms !! u) as [m|]; [|done]. simpl.
  destruct (existsb _ _); [done|]. simpl.
  destruct dob as [d|]; [|done]. simpl.
  by rewrite buildReminders_run.
Qed.

(** X11.  A request that a route turns down changes nothing: whenever the
    correction, regeneration, init or mark route answers 400, 401, 403, 404
    or 409, whenever the mark route answers 200 for a pair it holds already,
    and whenever the creation route answers before its end (the babies on
    record having names), the tables, the mail log and the identifier
    counter are as before.  (An answer 500 is
    another matter: it may follow a write.) *)
Theorem refused_requests_change_nothing tz rng now w :
  (forall auth id bd,
      refusal (status (putBirthDate tz auth id bd now w).2) ->
      (putBirthDate tz auth id bd now w).1 = w)
  /\ (forall auth id,
      refusal (status (postReminder tz auth id now w).2) ->
      (postReminder tz auth id now w).1 = w)
  /\ (forall auth id,
      refusal (status (initAdministered tz auth id now w).2) ->
      (initAdministered tz auth id now w).1 = w)
  /\ (forall auth id v d kind,
      refusal (status (markAdministered rng auth id v d kind now w).2)
      \/ status (markAdministered rng auth id v d kind now w).2 = 200 ->
      (markAdministered rng auth id v d kind now w).1 = w)
  /\ (forall auth name dob gender r,
      ownedBabiesNamed (babies w) ->
      (postBaby tz rng auth name dob gender now w).2 = Return r ->
      (postBaby tz rng auth name dob gender now w).1 = w).
Proof.
  assert (Hne : forall code ok, refusal code -> ok = 200 \/ ok = 201 -> code <> ok).
  { unfold refusal. intros code ok H [-> | ->]; lia. }
  split; [|split; [|split; [|split]]].
  - intros auth id bd Href. apply (Hne _ 200) in Href; [|by left].
    revert Href. rewrite putBirthDate_eq.
    destruct auth as [| |u]; [done|done|]. by destruct bd as [|[p|]].
  - intros auth id Href. apply (Hne _ 201) in Href; [|by right].
    revert Href. rewrite postReminder_eq.
    destruct auth as [| |u]; [done|done|].
    destruct (babies w !! id) as [baby|]; [|done].
    by destruct (bool_decide (motherUserId baby = Some u)).
  - intros auth id Href. apply initAdministered_status. apply (Hne _ 200); [done|by left].
  - intros auth id v d kind Href. apply markAdministered_status.
    destruct Href as [Href| ->]; [|lia]. apply (Hne _ 201); [done|by right].
  - intros auth name dob gender r _. apply postBaby_early.
Qed.
(** ** Baby names *)







(** ** Marking a vaccine as administered *)

Lemma markAdministered_eq rng u id v d kind now w baby :
  v <> "" -> d <> "" ->
  babies w !! id = Some baby -> motherUserId baby = Some u ->
  markAdministered rng (Bearer u) id v d kind now w
  = if existsb (sameEntry v d) (administeredList baby)
    then (w, mkResponse 200 (Message "Already marked as administered"))
    else (mkWorld (reminders w)
            (<[id := setAdministered
                       (administeredList baby
                          ++ [mkAdministered (Some (rng (uuidCount w))) v d (Some now)
                                (Some kind)]) baby]> (babies w))
            (mothers w) (schedule w) (mailLog w) (S (uuidCount w)),
          mkResponse 201 (Message "Marked administered successfully")).
Proof.
  intros Hv Hd Hb Hown.
  assert (Hemp : Js.is_empty v || Js.is_empty d = false).
  { destruct v; [done|]. by destruct d. }
  unfold markAdministered, tryCatch, markAdministeredBody.
  destruct w as [rs bs ms sc ml uc]. unfold bind, authenticateToken, ret, gets; simpl in *.
  rewrite Hemp. simpl. rewrite Hb. simpl. rewrite bool_decide_eq_true_2 by done. simpl.
  destruct (existsb (sameEntry v d) (administeredList baby)); [done|]. simpl.
  unfold modify, setBabies, bumpUuid. simpl. f_equal. f_equal. apply map_eq. intros j. rewrite lookup_alter.
  case_decide as Hj.
  - subst j. by rewrite Hb, lookup_insert_eq.
  - by rewrite lookup_insert_ne.
Qed.

Lemma getAdministered_eq u id w baby :
  babies w !! id = Some baby -> motherUserId baby = Some u ->
  getAdministered (Bearer u) id w = (w, mkResponse 200 (Administered (administeredList baby))).
Proof.
  intros Hb Hown. unfold getAdministered, tryCatch, getAdministeredBody.
  unfold bind, authenticateToken, ret, gets. rewrite Hb.
  by rewrite bool_decide_eq_true_2.
Qed.

(** X13.  Marking and reading back.  When the owner marks a vaccine and
    date that the list of the baby does not hold, the route answers 201 and
    a read returns the former list followed by the new entry; when the list
    holds the pair already, the route answers 200 and changes nothing.
    Either way a second mark of the same pair, at any time and of any type,
    is answered 200 and changes nothing. *)
Theorem mark_then_read rng u id v d kind now w baby
    (Hv : v <> "") (Hd : d <> "")
    (Hbaby : babies w !! id = Some baby)
    (Hown : motherUserId baby = Some u) :
  let run := markAdministered rng (Bearer u) id v d kind now w in
  let entry := mkAdministered (Some (rng (uuidCount w))) v d (Some now) (Some kind) in
  ((v, d) ∉ map entryKey (administeredList baby) ->
     status run.2 = 201
     /\ getAdministered (Bearer u) id run.1
        = (run.1, mkResponse 200 (Administered (administeredList baby ++ [entry]))))
  /\ ((v, d) ∈ map entryKey (administeredList baby) ->
        run = (w, mkResponse 200 (Message "Already marked as administered")))
  /\ (forall kind' now',
        markAdministered rng (Bearer u) id v d kind' now' run.1
        = (run.1, mkResponse 200 (Message "Already marked as administered"))).
Proof.
  intros run entry. subst run entry.
  rewrite (markAdministered_eq rng u id v d kind now w baby) by done.
  set (entry := mkAdministered (Some (rng (uuidCount w))) v d (Some now) (Some kind)).
  destruct (existsb (sameEntry v d) (administeredList baby)) eqn:Hex.
  - apply existsb_sameEntry in Hex as Hin. split; [done|]. split; [done|].
    intros kind' now'. cbn [fst].
    rewrite (markAdministered_eq rng u id v d kind' now' w baby) by done. by rewrite Hex.
  - assert (Hnin : (v, d) ∉ map entryKey (administeredList baby)).
    { intros Hin. apply existsb_sameEntry in Hin. congruence. }
    set (baby' := setAdministered (administeredList baby ++ [entry]) baby).
    assert (Hb' : babies (mkWorld (reminders w) (<[id := baby']> (babies w)) (mothers w)
                            (schedule w) (mailLog w) (S (uuidCount w))) !! id = Some baby').
    { cbn [babies]. by rewrite lookup_insert_eq. }
    split; [|split; [done|]].
    + intros _. split; [done|]. cbn [fst].
      by rewrite (getAdministered_eq u id _ baby' Hb').
    + intros kind' now'. cbn [fst].
      rewrite (markAdministered_eq rng u id v d kind' now' _ baby' Hv Hd Hb') by done.
      cbn [baby' setAdministered administeredList administered].
      rewrite existsb_app. cbn [existsb]. unfold sameEntry at 2. cbn [entry admVaccine admDate].
      by rewrite !String.eqb_refl, orb_true_r.
Qed.

Lemma mark_then_read_witness :
  let run := markAdministered sampleRng (Bearer "u1") "b1" "OPV1" "2025-07-13" "manual"
               sampleNow sampleWorld in
  status run.2 = 201
  /\ markAdministered sampleRng (Bearer "u1") "b1" "OPV1" "2025-07-13" "manual"
       (sampleNow + 1) run.1
     = (run.1, mkResponse 200 (Message "Already marked as administered")).
Proof.
  assert (Hv : "OPV1" <> "") by discriminate.
  assert (Hd : "2025-07-13" <> "") by discriminate.
  destruct (mark_then_read sampleRng "u1" "b1" "OPV1" "2025-07-13" "manual" sampleNow
              sampleWorld sampleBaby Hv Hd eq_refl eq_refl) as (Hnew & _ & Htwice).
  split.
  - apply Hnew. simpl. apply not_elem_of_nil.
  - apply Htwice.
Defined.
(** ** The write loop *)




(** ** The cron handlers, version by version *)


Lemma publishGroup_handles tz transport topicArn :
  handlesBy transport (publishOf tz topicArn) (publishGroup tz transport topicArn).
Proof.
  intros [mId rems] w Hne. simpl in Hne.
  unfold publishGroup, publishOf, bind, gets. simpl.
  destruct (topLevelAddress (mothers w !! mId)) as [[address m]|]; [|done].
  destruct rems as [|first rems]; [done|].
  unfold sendMail. destruct (transport _); [|done].
  rewrite forEach_markSent. by destruct w.
Qed.

Lemma processGroup_handles tz transport sentence :
  handlesBy transport (dispatchOf tz sentence)
    (processGroup tz transport dailyContact sentence).
Proof. intros e w Hne. by apply processGroup_run. Qed.

Lemma forEach_runWith transport call group es w :
  handlesBy transport call group ->
  (forall e, e ∈ es -> e.2 <> []) ->
  forEach es group w
  = let '(t, log, ok) := runWith transport (call (mothers w)) es (reminders w) (mailLog w) in
    (mkWorld t (babies w) (mothers w) (schedule w) log (uuidCount w),
     if ok then Next tt else Throw "sendMail rejected").
Proof.
  intros Hgroup. revert w. induction es as [|e es IH]; intros w Hne.
  - by destruct w.
  - cbn [forEach runWith]. unfold bind at 1.
    rewrite Hgroup by (apply Hne; left).
    destruct (call (mothers w) e) as [mail|].
    + destruct (transport mail).
      * rewrite IH by (intros e' He'; apply Hne; by right). by destruct w.
      * by destruct w.
    + apply IH. intros e' He'. apply Hne. by right.
Qed.

(** The common shape of the handlers. *)
Lemma cron_shape transport call group c now okText failure w :
  handlesBy transport call group ->
  tryCatch
    (due <- gets (fun w => queryDue c now (reminders w)) ;;
     if (length due =? 0)%nat
     then respond 200 (Message ("No " ++ cadenceTag c ++ " reminders."))
     else
       byMother <- groupByMother due [] ;;
       forEach (ObjectEntries byMother) group ;;;
       ret (mkResponse 200 (Message okText)))
    (mkResponse 500 (Message failure)) w
  = if (length (queryDue c now (reminders w)) =? 0)%nat
    then (w, mkResponse 200 (Message ("No " ++ cadenceTag c ++ " reminders.")))
    else if hasInheritedName (queryDue c now (reminders w))
    then (w, mkResponse 500 (Message failure))
    else
      let '(t, log, ok) :=
        runWith transport (call (mothers w)) (recipientGroups c now w)
          (reminders w) (mailLog w) in
      (mkWorld t (babies w) (mothers w) (schedule w) log (uuidCount w),
       if ok then mkResponse 200 (Message okText) else mkResponse 500 (Message failure)).
Proof.
  intros Hgroup. unfold tryCatch, bind, gets.
  destruct (length (queryDue c now (reminders w)) =? 0)%nat eqn:Hlen; [done|].
  rewrite groupByMother_run.
  destruct (hasInheritedName (queryDue c now (reminders w))); [done|].
  change (ObjectEntries (grouped (queryDue c now (reminders w)) []))
    with (recipientGroups c now w).
  rewrite (forEach_runWith transport call group) by
    (try done; intros e He; by apply recipientGroups_elem in He as [_ ?]).
  destruct (runWith _ _ _ _ _) as [[t log] ok]. by destruct ok.
Qed.

(** Every dispatching version, in one equation. *)
Lemma handlerOf_eq tz transport topicArn v now w :
  exists okText failure,
    handlerOf tz transport topicArn v now w
    = if (length (queryDue (cadenceOf v) now (reminders w)) =? 0)%nat
      then (w, mkResponse 200 (Message ("No " ++ cadenceTag (cadenceOf v) ++ " reminders.")))
      else if hasInheritedName (queryDue (cadenceOf v) now (reminders w))
      then (w, mkResponse 500 (Message failure))
      else
        let '(t, log, ok) :=
          runWith transport (callOf tz topicArn v (mothers w))
            (recipientGroups (cadenceOf v) now w) (reminders w) (mailLog w) in
        (mkWorld t (babies w) (mothers w) (schedule w) log (uuidCount w),
         if ok then mkResponse 200 (Message okText) else mkResponse 500 (Message failure)).
Proof.
  destruct v; do 2 eexists; cbn [handlerOf cadenceOf callOf];
    unfold dailyHandler, dailyHandlerOnDemand, weeklyHandlerUserEmail, dailyHandlerTopic,
      weeklyHandlerTopic, cronBody, publishBody.
  - apply cron_shape, processGroup_handles.
  - apply cron_shape, processGroup_handles.
  - apply cron_shape, processGroup_handles.
  - apply cron_shape, publishGroup_handles.
  - apply cron_shape, publishGroup_handles.
Qed.
Section Loop.

Variable transport : Mail -> bool.
Variable call : string * list Reminder -> option Mail.

Lemma runWith_none es t log :
  (forall e, e ∈ es -> call e = None) -> runWith transport call es t log = (t, log, true).
Proof.
  induction es as [|e es IH]; intros Hnone; [done|].
  cbn [runWith]. rewrite (Hnone e) by left. apply IH. intros e' He'. apply Hnone. by right.
Qed.

(** The loop appends to the log and changes the table only by marking
    reminders of groups it has a message for. *)
Lemma runWith_frame es t log t' log' ok :
  runWith transport call es t log = (t', log', ok) ->
  (exists new, log' = log ++ new)
  /\ forall k,
       t' !! k = t !! k
       \/ (exists e, e ∈ es /\ is_Some (call e) /\ k ∈ map reminderId e.2)
          /\ t' !! k = markedSent <$> t !! k.
Proof.
  revert t log. induction es as [|e es IH]; intros t log Hrun.
  - simpl in Hrun. inversion Hrun; subst. split; [exists []; by rewrite app_nil_r|]. by left.
  - cbn [runWith] in Hrun. destruct (call e) as [mail|] eqn:Hcall.
    + destruct (transport mail).
      * apply IH in Hrun as [(new & ->) Hk]. split.
        { exists (mail :: new). by rewrite <- app_assoc. }
        intros k. specialize (Hk k). rewrite markAll_lookup in Hk.
        case_decide as Hin.
        -- right. split; [exists e; split; [left|by rewrite Hcall]|].
           destruct Hk as [->|[_ ->]]; [done|apply markedSent_idemp].
        -- destruct Hk as [->|[(e' & He' & Hs & Hin') ->]]; [by left|].
           right. split; [|done]. exists e'. split; [by right|done].
      * inversion Hrun; subst. split; [by exists [mail]|]. by left.
    + apply IH in Hrun as [Hlog Hk]. split; [done|].
      intros k. destruct (Hk k) as [->|[(e' & He' & Hs & Hin') ->]]; [by left|].
      right. split; [|done]. exists e'. split; [by right|done].
Qed.

(** When no call is rejected, every group with a message is marked. *)
Lemma runWith_marked es t log t' log' e k :
  runWith transport call es t log = (t', log', true) ->
  e ∈ es -> is_Some (call e) -> k ∈ map reminderId e.2 ->
  t' !! k = markedSent <$> t !! k.
Proof.
  revert t log. induction es as [|e0 es IH]; intros t log Hrun He Hs Hk;
    [by apply elem_of_nil in He|].
  cbn [runWith] in Hrun. destruct (call e0) as [mail|] eqn:Hcall.
  - destruct (transport mail); [|done].
    apply elem_of_cons in He as [->|He].
    + apply runWith_frame in Hrun as [_ Hf]. specialize (Hf k).
      rewrite markAll_lookup, decide_True in Hf by done.
      destruct Hf as [->|[_ ->]]; [done|apply markedSent_idemp].
    + rewrite (IH _ _ Hrun He Hs Hk), markAll_lookup.
      case_decide; [apply markedSent_idemp|done].
  - apply elem_of_cons in He as [->|He]; [rewrite Hcall in Hs; by destruct Hs|].
    by apply (IH _ _ Hrun).
Qed.

End Loop.

Lemma dispatchOf_is_Some tz sentence ms e :
  is_Some (dispatchOf tz sentence ms e) <-> is_Some (dailyAddress (ms !! e.1)) /\ e.2 <> [].
Proof.
  unfold dispatchOf. destruct (dailyAddress (ms !! e.1)) as [[a m]|]; destruct e.2 as [|r rs].
  - split; [by intros [x Hx]|by intros [_ H]].
  - split; [by intros _|by eauto].
  - split; [by intros [x Hx]|by intros [_ H]].
  - split; [by intros [x Hx]|by intros [[x Hx] _]].
Qed.

Lemma publishOf_is_Some tz topicArn ms e :
  is_Some (publishOf tz topicArn ms e) <-> is_Some (topLevelAddress (ms !! e.1)) /\ e.2 <> [].
Proof.
  unfold publishOf. destruct (topLevelAddress (ms !! e.1)) as [[a m]|]; destruct e.2 as [|r rs].
  - split; [by intros [x Hx]|by intros [_ H]].
  - split; [by intros _|by eauto].
  - split; [by intros [x Hx]|by intros [_ H]].
  - split; [by intros [x Hx]|by intros [[x Hx] _]].
Qed.

Lemma callOf_is_Some tz topicArn v ms e :
  is_Some (callOf tz topicArn v ms e) <-> is_Some (addressFor v (ms !! e.1)) /\ e.2 <> [].
Proof.
  destruct v; cbn [callOf addressFor]; apply dispatchOf_is_Some || apply publishOf_is_Some.
Qed.

Lemma markedSent_id r : reminderId (markedSent r) = reminderId r.
Proof. done. Qed.

Lemma wellKeyed_frame (t t' : gmap string Reminder) :
  wellKeyed t ->
  (forall k, t' !! k = t !! k \/ t' !! k = markedSent <$> t !! k) ->
  wellKeyed t'.
Proof.
  intros Hkeys Hf k r Hk. simpl. destruct (Hf k) as [H|H]; rewrite H in Hk.
  - exact (Hkeys k r Hk).
  - destruct (t !! k) as [r0|] eqn:Hr0; [|done]. simpl in Hk. inversion Hk; subst r.
    exact (Hkeys k r0 Hr0).
Qed.

Lemma hasInheritedName_elem due :
  hasInheritedName due = true
  <-> exists r, r ∈ due /\ existsb (String.eqb (motherId r)) inherited_names = true.
Proof.
  unfold hasInheritedName. rewrite existsb_exists.
  split; intros (r & Hr & H); exists r; by rewrite ?list_elem_of_In in *.
Qed.


(** X16.  No reminder is dispatched twice.  After a run that ended with
    status 200, a second run of the same version at the same instant,
    whatever the transport then does, makes no call, changes nothing and
    ends with status 200: what is still due and unsent belongs to
    recipients without an address. *)
Theorem cron_rerun_is_silent tz transport transport' topicArn v now w
    (Hkeys : wellKeyed (reminders w))
    (Hok : status (handlerOf tz transport topicArn v now w).2 = 200) :
  let w1 := (handlerOf tz transport topicArn v now w).1 in
  (handlerOf tz transport' topicArn v now w1).1 = w1
  /\ status (handlerOf tz transport' topicArn v now w1).2 = 200.
Proof.
  intros w1. subst w1.
  destruct (handlerOf_eq tz transport topicArn v now w) as (okText & failure & Heq).
  destruct (handlerOf_eq tz transport' topicArn v now
              (handlerOf tz transport topicArn v now w).1) as (okText' & failure' & Heq').
  rewrite Heq in Hok. rewrite Heq'. clear Heq'. rewrite Heq. clear Heq.
  set (c := cadenceOf v) in *.
  destruct (length (queryDue c now (reminders w)) =? 0)%nat eqn:Hlen.
  { cbn [fst]. rewrite Hlen. by split. }
  destruct (hasInheritedName (queryDue c now (reminders w))) eqn:Hnames; [done|].
  destruct (runWith transport _ _ _ _) as [[t log] ok] eqn:Hrun.
  destruct ok; [|done]. clear Hok.
  cbn [fst reminders mothers mailLog babies schedule uuidCount].
  set (w1 := mkWorld t (babies w) (mothers w) (schedule w) log (uuidCount w)).
  pose proof (runWith_frame _ _ _ _ _ _ _ _ Hrun) as [_ Hf].
  assert (Hkeys1 : wellKeyed t).
  { apply (wellKeyed_frame (reminders w)); [done|].
    intros k. destruct (Hf k) as [H|[_ H]]; [by left|by right]. }
  (* what is still due was due before and belongs to a group without message *)
  assert (Hstill : forall r, r ∈ queryDue c now t ->
            r ∈ queryDue c now (reminders w)
            /\ addressFor v (mothers w !! motherId r) = None).
  { intros r Hr.
    pose proof (queryDue_lookup _ _ _ _ Hkeys1 Hr) as Hl.
    apply queryDue_elem in Hr as (_ & Hty & Hsched & Hsent).
    assert (Hold : reminders w !! reminderId r = Some r).
    { destruct (Hf (reminderId r)) as [H|[_ H]]; rewrite H in Hl; [done|].
      destruct (reminders w !! reminderId r) as [r0|]; [|done].
      simpl in Hl. inversion Hl; subst r. done. }
    assert (Hdue : r ∈ queryDue c now (reminders w)).
    { apply queryDue_elem. split; [by eexists|done]. }
    split; [done|].
    destruct (addressFor v (mothers w !! motherId r)) as [a|] eqn:Ha; [|done]. exfalso.
    set (e := (motherId r, dueOf c now w (motherId r))).
    assert (Hrin : r ∈ e.2).
    { unfold e, dueOf. simpl. by apply list_elem_of_filter. }
    assert (He : e ∈ recipientGroups c now w).
    { apply recipientGroups_elem. split; [done|]. intros Hnil. rewrite Hnil in Hrin.
      by apply elem_of_nil in Hrin. }
    assert (Hcall : is_Some (callOf tz topicArn v (mothers w) e)).
    { apply callOf_is_Some. split; [simpl; by rewrite Ha|].
      intros Hnil. rewrite Hnil in Hrin. by apply elem_of_nil in Hrin. }
    assert (Hk : reminderId r ∈ map reminderId e.2) by (by apply list_elem_of_fmap_2).
    rewrite (runWith_marked _ _ _ _ _ _ _ _ _ Hrun He Hcall Hk), Hold in Hl.
    simpl in Hl. inversion Hl as [Hr]. rewrite <- Hr in Hsent. done. }
  destruct (length (queryDue c now t) =? 0)%nat eqn:Hlen1; [by split|].
  destruct (hasInheritedName (queryDue c now t)) eqn:Hnames1.
  { exfalso. apply hasInheritedName_elem in Hnames1 as (r & Hr & Hname).
    apply Hstill in Hr as [Hr _].
    assert (hasInheritedName (queryDue c now (reminders w)) = true); [|congruence].
    apply hasInheritedName_elem. by exists r. }
  rewrite runWith_none; [by split|].
  intros e He.
  destruct (callOf tz topicArn v (mothers w) e) as [mail|] eqn:Hcall; [|done]. exfalso.
  assert (Hs : is_Some (callOf tz topicArn v (mothers w) e)) by (by rewrite Hcall).
  apply callOf_is_Some in Hs as [[a Ha] Hne].
  destruct e.2 as [|r rest] eqn:He2; [done|].
  assert (Hr : r ∈ e.2) by (rewrite He2; left).
  destruct (recipientGroups_member _ _ _ _ _ He Hr) as [Hdue Hm].
  apply Hstill in Hdue as [_ Hnone]. rewrite Hm in Hnone. congruence.
Qed.

Lemma cron_rerun_is_silent_witness :
  let w1 := (handlerOf utc acceptAll "arn:topic" DailyMail cronNow cronWorld).1 in
  mailLog (handlerOf utc (rejecting "amina@example.org") "arn:topic" DailyMail cronNow w1).1
  = mailLog w1.
Proof.
  assert (Hok : status (handlerOf utc acceptAll "arn:topic" DailyMail cronNow cronWorld).2 = 200)
    by (vm_compute; reflexivity).
  destruct (cron_rerun_is_silent utc acceptAll (rejecting "amina@example.org") "arn:topic"
              DailyMail cronNow cronWorld cronWorld_wellKeyed Hok) as [Hw _].
  intros w1. subst w1. by rewrite Hw.
Defined.
(** X17.  The handler of cron/weekly.js that tests [email], a name that is
    not in scope: it never sends a message and never marks a reminder.  It
    fails with status 500 as soon as a due weekly reminder belongs to a
    mother on record; when no due reminder does, it ends with status 200,
    having done nothing. *)
Theorem weeklyHandler_is_inert tz transport now w :
  (weeklyHandler tz transport now w).1 = w
  /\ (forall r, r ∈ queryDue weekly now (reminders w) ->
                is_Some (mothers w !! motherId r) ->
                status (weeklyHandler tz transport now w).2 = 500)
  /\ ((forall r, r ∈ queryDue weekly now (reminders w) -> mothers w !! motherId r = None) ->
      hasInheritedName (queryDue weekly now (reminders w)) = false ->
      status (weeklyHandler tz transport now w).2 = 200).
Proof.
  split; [apply weeklyHandler_never_dispatches|]. split; [apply weeklyHandler_fails|].
  intros Hnone Hnames. unfold weeklyHandler, tryCatch, cronBody, bind, gets.
  destruct (length (queryDue weekly now (reminders w)) =? 0)%nat; [done|].
  rewrite groupByMother_run, Hnames, weekly_loop.
  destruct (forallb _ _) eqn:Hall; [done|]. exfalso.
  apply not_true_iff_false in Hall. apply Hall. apply forallb_forall.
  intros e He. apply list_elem_of_In in He. apply bool_decide_eq_true_2.
  change (ObjectEntries (grouped (queryDue weekly now (reminders w)) []))
    with (recipientGroups weekly now w) in He.
  pose proof He as [_ Hne]%recipientGroups_elem.
  destruct e.2 as [|r rest] eqn:He2; [done|].
  assert (Hr : r ∈ e.2) by (rewrite He2; left).
  destruct (recipientGroups_member _ _ _ _ _ He Hr) as [Hdue Hm].
  rewrite <- Hm. by apply Hnone.
Qed.
Section Texts.

Local Open Scope string_scope.

Lemma occursIn_trans x y s : occursIn x y -> occursIn y s -> occursIn x s.
Proof.
  intros (b1 & a1 & ->) (b2 & a2 & ->). exists (b2 ++ b1), (a1 ++ a2).
  by rewrite !append_assoc.
Qed.

Lemma joinWith_cons sep s ss :
  joinWith sep (s :: ss) = s ++ match ss with
                                | nil => ""
                                | _ => sep ++ joinWith sep ss
                                end.
Proof.
  unfold joinWith.
  assert (H : forall rest acc x,
             fold_left (fun acc y => acc ++ sep ++ y) rest (acc ++ x)
             = acc ++ fold_left (fun acc y => acc ++ sep ++ y) rest x).
  { induction rest as [|y rest IH]; intros acc x; [done|]. simpl.
    by rewrite <- IH, !append_assoc. }
  destruct ss as [|y ss]; simpl.
  - by rewrite append_nil_r.
  - rewrite H. f_equal. replace (sep ++ y) with ((sep ++ y) ++ "") at 1 by apply append_nil_r.
    rewrite (H ss (sep ++ y) ""). rewrite append_assoc. f_equal.
    rewrite <- (H ss y ""). by rewrite append_nil_r.
Qed.

Lemma occursIn_joinWith sep x ss : In x ss -> occursIn x (joinWith sep ss).
Proof.
  induction ss as [|s ss IH]; [done|]. intros [->|Hin]; rewrite joinWith_cons.
  - apply occursIn_here.
  - apply occursIn_prepend. destruct ss as [|y ss]; [done|].
    apply occursIn_prepend. by apply IH.
Qed.

(** The published text has a line for every vaccine of the group. *)
Lemma publication_lists tz topicArn name first rems r :
  r ∈ rems -> occursIn (bulletLine r) (html (publication tz topicArn name first rems)).
Proof.
  intros Hr. unfold publication, buildPlainText. cbn [html].
  apply (occursIn_trans _ (joinWith nl (map bulletLine rems))).
  - apply occursIn_joinWith. apply in_map. by apply list_elem_of_In.
  - apply occursIn_joinWith. simpl. auto 10.
Qed.

Lemma vaccine_in_bullet r : occursIn (vaccine r) (bulletLine r).
Proof. exists "  • ", "". unfold bulletLine. by rewrite append_nil_r. Qed.

Lemma vaccine_in_item r : occursIn (vaccine r) (listItem r).
Proof. by exists "<li><strong>", "</strong></li>". Qed.

End Texts.

Lemma callOf_names_vaccines tz topicArn v ms e mail r :
  callOf tz topicArn v ms e = Some mail -> r ∈ e.2 -> occursIn (vaccine r) (html mail).
Proof.
  intros Hcall Hr.
  assert (Hmail : forall sentence, dispatchOf tz sentence ms e = Some mail ->
                                   occursIn (vaccine r) (html mail)).
  { intros sentence. unfold dispatchOf.
    destruct (dailyAddress (ms !! e.1)) as [[a m]|]; [|done].
    destruct e.2 as [|first rest] eqn:He2; [done|]. intros [= <-].
    apply (occursIn_trans _ (listItem r)); [apply vaccine_in_item|].
    by apply combinedMail_lists. }
  assert (Htopic : publishOf tz topicArn ms e = Some mail -> occursIn (vaccine r) (html mail)).
  { unfold publishOf.
    destruct (topLevelAddress (ms !! e.1)) as [[a m]|]; [|done].
    destruct e.2 as [|first rest] eqn:He2; [done|]. intros [= <-].
    apply (occursIn_trans _ (bulletLine r)); [apply vaccine_in_bullet|].
    by apply publication_lists. }
  destruct v; cbn [callOf] in Hcall; eauto.
Qed.
Section LoopRuns.

Variable transport : Mail -> bool.
Variable call : string * list Reminder -> option Mail.

Lemma runWith_app pre rest t log :
  runWith transport call (pre ++ rest) t log
  = match runWith transport call pre t log with
    | (t1, log1, true) => runWith transport call rest t1 log1
    | stopped => stopped
    end.
Proof.
  revert t log. induction pre as [|e pre IH]; intros t log; [done|].
  cbn [app runWith]. destruct (call e) as [mail|]; [|apply IH].
  destruct (transport mail); [apply IH|done].
Qed.

Lemma runWith_accepted es t log :
  (forall e mail, e ∈ es -> call e = Some mail -> transport mail = true) ->
  exists t', runWith transport call es t log = (t', log ++ omap call es, true).
Proof.
  revert t log. induction es as [|e es IH]; intros t log Hacc.
  - exists t. simpl. by rewrite app_nil_r.
  - cbn [runWith omap]. destruct (call e) as [mail|] eqn:Hcall.
    + rewrite (Hacc e mail) by (done || left).
      destruct (IH (markAll e.2 t) (log ++ [mail])) as (t' & ->).
      { intros e' m' He'. apply Hacc. by right. }
      exists t'. rewrite <- app_assoc. simpl. by rewrite Hcall.
    + destruct (IH t log) as (t' & ->).
      { intros e' m' He'. apply Hacc. by right. }
      exists t'. simpl. by rewrite Hcall.
Qed.

End LoopRuns.

(** The reminders of the groups after a part of the groups was handled
    without a rejected call: marked in the groups handled that have a
    message, untouched in all others. *)
Lemma runWith_groups transport call c now w pre rest t' log' :
  wellKeyed (reminders w) ->
  recipientGroups c now w = pre ++ rest ->
  runWith transport call pre (reminders w) (mailLog w) = (t', log', true) ->
  (forall e r, e ∈ pre -> r ∈ e.2 -> t' !! reminderId r = Some (afterCall call e r))
  /\ (forall e r, e ∈ rest -> r ∈ e.2 -> t' !! reminderId r = Some r).
Proof.
  intros Hkeys Hsplit Hrun.
  pose proof (runWith_frame _ _ _ _ _ _ _ _ Hrun) as [_ Hf].
  assert (Hold : forall e r, e ∈ recipientGroups c now w -> r ∈ e.2 ->
                             reminders w !! reminderId r = Some r).
  { intros e r He Hr. destruct (recipientGroups_member _ _ _ _ _ He Hr) as [Hdue _].
    by apply (queryDue_lookup c now). }
  assert (Hunique : forall e e2 r, e ∈ recipientGroups c now w -> e2 ∈ pre -> r ∈ e.2 ->
                                   reminderId r ∈ map reminderId e2.2 -> e = e2).
  { intros e e2 r He He2 Hr (r2 & Hid & Hr2)%list_elem_of_fmap.
    eapply recipientGroups_disjoint; try done. rewrite Hsplit, elem_of_app. by left. }
  split.
  - intros e r He Hr.
    assert (Heg : e ∈ recipientGroups c now w) by (rewrite Hsplit, elem_of_app; by left).
    unfold afterCall. destruct (call e) as [mail|] eqn:Hcall.
    + rewrite (runWith_marked _ _ _ _ _ _ _ e _ Hrun He); [by rewrite (Hold e)|by rewrite Hcall|].
      by apply list_elem_of_fmap_2.
    + destruct (Hf (reminderId r)) as [->|[(e2 & He2 & Hs & Hin) _]]; [by apply (Hold e)|].
      assert (e = e2) by (by eapply Hunique). subst e2. rewrite Hcall in Hs. by destruct Hs.
  - intros e r He Hr.
    assert (Heg : e ∈ recipientGroups c now w) by (rewrite Hsplit, elem_of_app; by right).
    destruct (Hf (reminderId r)) as [->|[(e2 & He2 & Hs & Hin) _]]; [by apply (Hold e)|].
    assert (e = e2) by (by eapply Hunique). subst e2. exfalso.
    pose proof (recipientGroups_NoDup c now w) as Hnd. rewrite Hsplit, fmap_app in Hnd.
    apply NoDup_app in Hnd as (_ & Hnd & _). apply (Hnd e.1); by apply list_elem_of_fmap_2.
Qed.

(** X18.  The failure policy of every version that dispatches, by mail or
    through the topic.  A group whose recipient has no record or no address
    is skipped and stops nothing: when no call is rejected the run ends
    with status 200, one call per group with an address, those groups
    marked sent, the others left as they were.  A rejected call is not
    isolated in any version: the run stops there with status 500, the
    groups before it stay dispatched and marked, the rejected group and the
    later ones stay unsent.  And the text of every call names each vaccine
    of its group. *)
Theorem cron_failure_policy tz transport topicArn v now w
    (Hkeys : wellKeyed (reminders w))
    (Hnames : hasInheritedName (queryDue (cadenceOf v) now (reminders w)) = false) :
  let groups := recipientGroups (cadenceOf v) now w in
  let call := callOf tz topicArn v (mothers w) in
  let run := handlerOf tz transport topicArn v now w in
  ((forall e mail, e ∈ groups -> call e = Some mail -> transport mail = true) ->
   status run.2 = 200
   /\ mailLog run.1 = mailLog w ++ omap call groups
   /\ forall e r, e ∈ groups -> r ∈ e.2 ->
        reminders run.1 !! reminderId r = Some (afterCall call e r))
  /\ (forall pre e post mail,
        groups = pre ++ e :: post ->
        call e = Some mail -> transport mail = false ->
        (forall e' mail', e' ∈ pre -> call e' = Some mail' -> transport mail' = true) ->
        status run.2 = 500
        /\ mailLog run.1 = mailLog w ++ omap call pre ++ [mail]
        /\ (forall e' r, e' ∈ pre -> r ∈ e'.2 ->
              reminders run.1 !! reminderId r = Some (afterCall call e' r))
        /\ (forall e' r, e' ∈ e :: post -> r ∈ e'.2 ->
              reminders run.1 !! reminderId r = Some r))
  /\ (forall e mail r, call e = Some mail -> r ∈ e.2 -> occursIn (vaccine r) (html mail)).
Proof.
  intros groups call run.
  assert (Hrun : forall t log ok,
            runWith transport call groups (reminders w) (mailLog w) = (t, log, ok) ->
            run.1 = mkWorld t (babies w) (mothers w) (schedule w) log (uuidCount w)
            /\ status run.2 = if ok then 200 else 500).
  { intros t log ok Ht.
    destruct (handlerOf_eq tz transport topicArn v now w) as (okText & failure & Heq).
    subst run. rewrite Heq, Hnames. fold groups call. rewrite Ht.
    destruct (length _ =? 0)%nat eqn:Hlen; [|by destruct ok].
    apply Nat.eqb_eq, nil_length_inv in Hlen. subst groups.
    rewrite recipientGroups_nil in Ht by done. simpl in Ht. inversion Ht; subst.
    by destruct w. }
  split; [|split].
  - intros Hacc.
    destruct (runWith_accepted transport call groups (reminders w) (mailLog w) Hacc)
      as (t' & Ht').
    destruct (Hrun _ _ _ Ht') as [-> ->]. cbn [mailLog reminders].
    split; [done|]. split; [done|].
    intros e r He Hr.
    eapply (runWith_groups transport call (cadenceOf v) now w groups []); try done.
    by rewrite app_nil_r.
  - intros pre e post mail Hsplit Hcall Hrej Hpre.
    destruct (runWith_accepted transport call pre (reminders w) (mailLog w) Hpre)
      as (t' & Ht').
    assert (Hstop : runWith transport call groups (reminders w) (mailLog w)
                    = (t', (mailLog w ++ omap call pre) ++ [mail], false)).
    { rewrite Hsplit, runWith_app, Ht'. cbn [runWith]. by rewrite Hcall, Hrej. }
    destruct (Hrun _ _ _ Hstop) as [-> ->]. cbn [mailLog reminders]. rewrite <- app_assoc.
    destruct (runWith_groups transport call (cadenceOf v) now w pre (e :: post) t' _
                Hkeys Hsplit Ht') as [Hhandled Hpending].
    repeat split; done.
  - intros e mail r. apply callOf_names_vaccines.
Qed.

Lemma cron_failure_policy_witness :
  let run := handlerOf utc acceptAll "arn:topic" DailyTopic cronNow cronWorld in
  status run.2 = 200
  /\ map mailTo (mailLog run.1) = ["arn:topic"; "arn:topic"]
  /\ reminders run.1 !! reminderId duePenta = Some (markedSent duePenta).
Proof.
  assert (Hnames : hasInheritedName (queryDue daily cronNow (reminders cronWorld)) = false)
    by (vm_compute; reflexivity).
  destruct (cron_failure_policy utc acceptAll "arn:topic" DailyTopic cronNow cronWorld
              cronWorld_wellKeyed Hnames) as (Hall & _ & _).
  destruct Hall as (Hst & Hlog & Hmarks); [done|].
  split; [exact Hst|]. split.
  - rewrite Hlog. vm_compute. reflexivity.
  - rewrite (Hmarks ("u1", [dueOPV; duePenta]) duePenta).
    + vm_compute. reflexivity.
    + vm_compute. right. left.
    + right. left.
Defined.
(** ** Dates in request bodies *)

Lemma civil_inverse n :
  let '(y, m, d) := JsDate.civil n in
  daysFromCivil y m d = n /\ 1 <= m <= 12 /\ 1 <= d <= 31.
Proof.
  unfold JsDate.civil, daysFromCivil. cbv zeta.
  set (doe := (n + 719468) mod 146097).
  set (era := (n + 719468) / 146097).
  set (yoe := (doe - doe / 1460 + doe / 36524 - doe / 146096) / 365).
  set (doy := doe - (365 * yoe + yoe / 4 - yoe / 100)).
  set (mp := (5 * doy + 2) / 153).
  assert (Hn : n + 719468 = 146097 * era + doe) by (apply Z.div_mod; lia).
  assert (Hdoe : 0 <= doe < 146097) by (apply Z.mod_pos_bound; lia).
  assert (Hyoe : 0 <= yoe <= 399).
  { subst yoe. Z.div_mod_to_equations. lia. }
  assert (Hdoy : 0 <= doy <= 365).
  { subst doy yoe. Z.div_mod_to_equations. lia. }
  assert (Hmp : 0 <= mp <= 11).
  { subst mp. Z.div_mod_to_equations. lia. }
  set (m := if mp <? 10 then mp + 3 else mp - 9).
  assert (Hm : 1 <= m <= 12 /\ (if 2 <? m then m - 3 else m + 9) = mp
               /\ (m <=? 2) = negb (mp <? 10)).
  { subst m. destruct (Z.ltb_spec mp 10).
    - split; [lia|]. split.
      + destruct (Z.ltb_spec 2 (mp + 3)); lia.
      + simpl. apply Z.leb_gt. lia.
    - split; [lia|]. split.
      + destruct (Z.ltb_spec 2 (mp - 9)); lia.
      + simpl. apply Z.leb_le. lia. }
  destruct Hm as (Hm1 & Hm2 & Hm3). rewrite Hm2, Hm3.
  set (y' := if negb (mp <? 10) then yoe + era * 400 + (if negb (mp <? 10) then 1 else 0) - 1
             else yoe + era * 400 + (if negb (mp <? 10) then 1 else 0)).
  assert (Hy' : y' = yoe + era * 400).
  { subst y'. destruct (mp <? 10); simpl; lia. }
  rewrite Hy'.
  assert (Hera : (yoe + era * 400) / 400 = era).
  { rewrite Z.div_add by lia. rewrite Z.div_small by lia. lia. }
  rewrite Hera.
  split; [|split; [done|]].
  - replace (yoe + era * 400 - era * 400) with yoe by lia. subst doy. lia.
  - subst mp. Z.div_mod_to_equations. lia.
Qed.
Lemma civil_first_of_month y m :
  1 <= m <= 12 -> JsDate.civil (daysFromCivil y m 1) = (y, m, 1).
Proof.
  intros Hm. unfold daysFromCivil. cbv zeta.
  set (y' := if m <=? 2 then y - 1 else y).
  set (era := y' / 400).
  set (yoe := y' - era * 400).
  set (mp := if 2 <? m then m - 3 else m + 9).
  set (doy := (153 * mp + 2) / 5 + 1 - 1).
  set (doe := yoe * 365 + yoe / 4 - yoe / 100 + doy).
  assert (Hyoe : 0 <= yoe <= 399).
  { subst yoe era. Z.div_mod_to_equations. lia. }
  assert (Hmp : 0 <= mp <= 11 /\ m = (if mp <? 10 then mp + 3 else mp - 9)
                /\ (m <=? 2) = negb (mp <? 10)).
  { subst mp. destruct (Z.ltb_spec 2 m).
    - split; [lia|]. split.
      + destruct (Z.ltb_spec (m - 3) 10); lia.
      + destruct (Z.ltb_spec (m - 3) 10); [|lia]. simpl. apply Z.leb_gt. lia.
    - split; [lia|]. split.
      + destruct (Z.ltb_spec (m + 9) 10); lia.
      + destruct (Z.ltb_spec (m + 9) 10); [lia|]. simpl. apply Z.leb_le. lia. }
  destruct Hmp as (Hmp & Hm2 & Hm3).
  assert (Hdoy : 0 <= doy <= 337 /\ (5 * doy + 2) / 153 = mp /\ doy - (153 * mp + 2) / 5 + 1 = 1).
  { subst doy. Z.div_mod_to_equations. lia. }
  destruct Hdoy as (Hdoy & Hmp' & Hd).
  assert (Hdoe : 0 <= doe < 146097).
  { subst doe. Z.div_mod_to_equations. lia. }
  unfold JsDate.civil. cbv zeta.
  replace (era * 146097 + doe - 719468 + 719468) with (doe + era * 146097) by lia.
  rewrite Z.div_add, Z.mod_add by lia.
  rewrite (Z.div_small doe), (Z.mod_small doe) by lia.
  assert (Hyoe' : (doe - doe / 1460 + doe / 36524 - doe / 146096) / 365 = yoe).
  { subst doe. Z.div_mod_to_equations. lia. }
  rewrite Hyoe'.
  replace (doe - (365 * yoe + yoe / 4 - yoe / 100)) with doy by (subst doe; lia).
  rewrite Hmp', Hd, <- Hm2. f_equal. f_equal.
  rewrite Hm3. subst yoe y'. rewrite Hm3. destruct (mp <? 10); simpl; lia.
Qed.

Lemma code_digit_char k : Js.code (JsDate.digit_char k) = Z.to_nat (48 + k mod 10).
Proof.
  unfold Js.code, JsDate.digit_char. apply nat_ascii_embedding.
  pose proof (Z.mod_pos_bound k 10). lia.
Qed.

Lemma is_digit_digit_char k : Js.is_digit (JsDate.digit_char k) = true.
Proof.
  unfold Js.is_digit. rewrite code_digit_char. pose proof (Z.mod_pos_bound k 10).
  apply andb_true_iff. split; apply Nat.leb_le; lia.
Qed.

Lemma digit_val_digit_char k : Js.digit_val (JsDate.digit_char k) = k mod 10.
Proof.
  unfold Js.digit_val. rewrite code_digit_char. pose proof (Z.mod_pos_bound k 10). lia.
Qed.

Section DateStrings.

Local Open Scope string_scope.

Lemma pad_2 n :
  JsDate.pad 2 n = String (JsDate.digit_char (n / 10)) (String (JsDate.digit_char n) "").
Proof. reflexivity. Qed.

Lemma pad_4 n :
  JsDate.pad 4 n
  = String (JsDate.digit_char (n / 10 / 10 / 10))
      (String (JsDate.digit_char (n / 10 / 10))
         (String (JsDate.digit_char (n / 10)) (String (JsDate.digit_char n) ""))).
Proof. reflexivity. Qed.

Lemma parse_pad_2 n : 0 <= n < 100 -> Js.parseInt_from 0 (JsDate.pad 2 n) = n.
Proof.
  intros Hn. rewrite pad_2. simpl. rewrite !digit_val_digit_char.
  Z.div_mod_to_equations. lia.
Qed.

Lemma parse_pad_4 n : 0 <= n < 10000 -> Js.parseInt_from 0 (JsDate.pad 4 n) = n.
Proof.
  intros Hn. rewrite pad_4. simpl. rewrite !digit_val_digit_char.
  Z.div_mod_to_equations. lia.
Qed.

Lemma dateString_shaped y m d : isDateShaped (dateString y m d) = true.
Proof.
  unfold dateString. rewrite pad_4, !pad_2.
  change (isDateShaped _) with
    (Js.is_digit (JsDate.digit_char (y / 10 / 10 / 10))
     && Js.is_digit (JsDate.digit_char (y / 10 / 10))
     && Js.is_digit (JsDate.digit_char (y / 10)) && Js.is_digit (JsDate.digit_char y)
     && true && Js.is_digit (JsDate.digit_char (m / 10)) && Js.is_digit (JsDate.digit_char m)
     && true && Js.is_digit (JsDate.digit_char (d / 10)) && Js.is_digit (JsDate.digit_char d)).
  by rewrite !is_digit_digit_char.
Qed.

Lemma dateString_fields y m d :
  substring 0 4 (dateString y m d) = JsDate.pad 4 y
  /\ substring 5 2 (dateString y m d) = JsDate.pad 2 m
  /\ substring 8 2 (dateString y m d) = JsDate.pad 2 d.
Proof. unfold dateString. rewrite pad_4, !pad_2. by repeat split. Qed.

End DateStrings.

Lemma civil_year_range n :
  firstDay <= n <= lastDay -> 0 <= (JsDate.civil n).1.1 <= 9999.
Proof.
  unfold firstDay, lastDay. intros Hn.
  unfold JsDate.civil in *. cbv zeta in *. cbn [fst snd].
  set (doe := (n + 719468) mod 146097) in *.
  set (era := (n + 719468) / 146097) in *.
  set (yoe := (doe - doe / 1460 + doe / 36524 - doe / 146096) / 365) in *.
  set (doy := doe - (365 * yoe + yoe / 4 - yoe / 100)) in *.
  set (mp := (5 * doy + 2) / 153) in *.
  assert (Hz : n + 719468 = 146097 * era + doe) by (apply Z.div_mod; lia).
  assert (Hdoe : 0 <= doe < 146097) by (apply Z.mod_pos_bound; lia).
  assert (Hera : -1 <= era <= 24) by lia.
  assert (Hyoe : 0 <= yoe <= 399).
  { subst yoe. Z.div_mod_to_equations. lia. }
  assert (Hdoy : 0 <= doy <= 365).
  { subst doy yoe. Z.div_mod_to_equations. lia. }
  assert (Hmp : 0 <= mp <= 11).
  { subst mp. Z.div_mod_to_equations. lia. }
  destruct (Z.ltb_spec mp 10) as [Hlt|Hge].
  - replace (mp + 3 <=? 2) with false by (symmetry; apply Z.leb_gt; lia).
    assert (era <> -1).
    { intros He. rewrite He in Hz. subst mp doy yoe. Z.div_mod_to_equations. lia. }
    clearbody era yoe doe doy mp. cbv iota. lia.
  - replace (mp - 9 <=? 2) with true by (symmetry; apply Z.leb_le; lia).
    assert (Hhigh : era < 24 \/ yoe < 399).
    { destruct (Z.eq_dec era 24) as [He|He]; [right|lia].
      rewrite He in Hz. subst mp doy yoe. Z.div_mod_to_equations. lia. }
    assert (Hlow : 0 <= era \/ yoe = 399).
    { destruct (Z.eq_dec era (-1)) as [He|He]; [right|lia].
      rewrite He in Hz. subst yoe. Z.div_mod_to_equations. lia. }
    clearbody era yoe doe doy mp. cbv iota. lia.
Qed.

Lemma isoDate_dateString n :
  firstDay <= n <= lastDay ->
  JsDate.isoDate (n * msPerDay)
  = let '(y, m, d) := JsDate.civil n in dateString y m d.
Proof.
  intros Hn. unfold JsDate.isoDate, JsDate.Day, msPerDay, JsDate.msPerDay.
  rewrite Z.div_mul by lia.
  pose proof (civil_year_range n Hn) as Hy.
  destruct (JsDate.civil n) as [[y m] d]. simpl in Hy.
  unfold JsDate.isoYear, dateString.
  replace (0 <=? y) with true by (symmetry; apply Z.leb_le; lia).
  by replace (y <=? 9999) with true by (symmetry; apply Z.leb_le; lia).
Qed.

Lemma parseUtcMidnight_dateString y m d :
  0 <= y <= 9999 -> 1 <= m <= 12 -> 1 <= d <= 31 ->
  parseUtcMidnight (dateString y m d) = Some (daysFromCivil y m d * msPerDay).
Proof.
  intros Hy Hm Hd. unfold parseUtcMidnight.
  destruct (dateString_fields y m d) as (-> & -> & ->).
  rewrite parse_pad_4, !parse_pad_2 by lia.
  replace (1 <=? m) with true by (symmetry; apply Z.leb_le; lia).
  replace (m <=? 12) with true by (symmetry; apply Z.leb_le; lia).
  replace (1 <=? d) with true by (symmetry; apply Z.leb_le; lia).
  replace (d <=? 31) with true by (symmetry; apply Z.leb_le; lia).
  cbn [andb].
  assert (Heq : MakeDayOf y m d = daysFromCivil y m d).
  { unfold MakeDayOf, daysFromCivil. cbv zeta. lia. }
  rewrite Heq. unfold JsDate.MakeDate. rewrite Z.add_0_r.
  apply TimeClip_valid.
  (* a day number of a year from 0 to 9999 is far inside the range of time values *)
  unfold daysFromCivil, msPerDay, JsDate.msPerDay. cbv zeta.
  destruct (m <=? 2), (2 <? m); Z.div_mod_to_equations; lia.
Qed.

Lemma readBirthDate_day n :
  firstDay <= n <= lastDay ->
  readBirthDate (JsDate.isoDate (n * msPerDay)) = Parsed (Some (n * msPerDay)).
Proof.
  intros Hn. rewrite isoDate_dateString by done.
  pose proof (civil_inverse n) as Hinv. pose proof (civil_year_range n Hn) as Hy.
  destruct (JsDate.civil n) as [[y m] d]. destruct Hinv as (Hinv & Hm & Hd). simpl in Hy.
  unfold readBirthDate. rewrite dateString_shaped.
  by rewrite parseUtcMidnight_dateString, Hinv.
Qed.

(** X19.  A birth date goes in and comes out unchanged.  For every
    calendar day of the years 0000 to 9999, the route takes the date string
    of the day, YYYY-MM-DD, as well-formed and valid and stores the UTC
    midnight of that day; the date string of what it stored is the string
    that was sent.  The reply is 200 when the candidates projected from the
    new date have distinct composite identifiers. *)
Theorem birth_date_round_trip n tz u id now w
    (Hday : firstDay <= n <= lastDay) :
  let s := JsDate.isoDate (n * msPerDay) in
  let run := putBirthDate tz (Bearer u) id (readBirthDate s) now w in
  readBirthDate s = Parsed (Some (n * msPerDay))
  /\ babies run.1 !! id ≫= dateOfBirth = Some (n * msPerDay)
  /\ JsDate.isoDate <$> (babies run.1 !! id ≫= dateOfBirth) = Some s
  /\ (distinctIds id (projectAll tz 14 (Some (n * msPerDay)) now (schedule w)) ->
      status run.2 = 200).
Proof.
  intros s run. subst run s. rewrite readBirthDate_day by done.
  rewrite putBirthDate_eq. cbn [fst snd status babies].
  rewrite lookup_partial_alter_eq.
  split; [done|]. by destruct (babies w !! id).
Qed.

Lemma birth_date_round_trip_witness :
  let run := putBirthDate utc (Bearer "u1") "b1" (readBirthDate "2024-02-29") sampleNow
               sampleWorld in
  readBirthDate "2024-02-29" = Parsed (Some (19782 * msPerDay))
  /\ JsDate.isoDate <$> (babies run.1 !! "b1" ≫= dateOfBirth) = Some "2024-02-29"
  /\ status run.2 = 200.
Proof.
  assert (Hday : firstDay <= 19782 <= lastDay) by (unfold firstDay, lastDay; lia).
  pose proof (birth_date_round_trip 19782 utc "u1" "b1" sampleNow sampleWorld Hday) as H.
  cbv zeta in H. change (JsDate.isoDate (19782 * msPerDay)) with "2024-02-29" in H.
  destruct H as (H1 & _ & H3 & H4).
  split; [exact H1|]. split; [exact H3|]. apply H4.
  unfold distinctIds. apply (@bool_decide_unpack _ (NoDup_dec _)). vm_compute. reflexivity.
Defined.
(** ** The account routes *)

Lemma NoDup_all_equal {A} (l : list A) (x : A) :
  NoDup l -> x ∈ l -> (forall y, y ∈ l -> y = x) -> l = [x].
Proof.
  intros Hnd Hx Hall. destruct l as [|a l]; [by apply elem_of_nil in Hx|].
  assert (a = x) as -> by (apply Hall; left).
  destruct l as [|b l]; [done|].
  assert (b = x) as -> by (apply Hall; right; left).
  apply NoDup_cons in Hnd as [Hnot _]. exfalso. apply Hnot. left.
Qed.

Lemma byEmail_elem (e : string) (t : gmap string Account) (k : string) (a : Account) :
  (k, a) ∈ byEmail e t <-> t !! k = Some a /\ accEmail a = Some e.
Proof.
  unfold byEmail. rewrite list_elem_of_filter, elem_of_map_to_list. simpl. tauto.
Qed.

Lemma byPhone_elem (pn : string) (t : gmap string Account) (k : string) (a : Account) :
  (k, a) ∈ byPhone pn t <-> t !! k = Some a /\ accPhone a = Some pn.
Proof.
  unfold byPhone. rewrite list_elem_of_filter, elem_of_map_to_list. simpl. tauto.
Qed.

Lemma babyItemsOf_elem (u : string) (t : gmap string BabyItem) (k : string) (b : BabyItem) :
  (k, b) ∈ babyItemsOf u t <-> t !! k = Some b /\ motherUserId (babyRecord b) = Some u.
Proof.
  unfold babyItemsOf. rewrite list_elem_of_filter, elem_of_map_to_list. simpl. tauto.
Qed.

Lemma byEmail_unique (e : string) (t : gmap string Account) (k : string) (a : Account) :
  uniqueEmails t -> t !! k = Some a -> accEmail a = Some e -> byEmail e t = [(k, a)].
Proof.
  intros Hu Hk He. apply NoDup_all_equal.
  - unfold byEmail. apply NoDup_filter, NoDup_map_to_list.
  - by apply byEmail_elem.
  - intros [k' a'] [Hk' He']%byEmail_elem.
    assert (k' = k) as -> by exact (Hu _ _ _ _ _ Hk' Hk He' He).
    congruence.
Qed.

Lemma byEmail_none (e : string) (t : gmap string Account) :
  byEmail e t = [] <-> forall k a, t !! k = Some a -> accEmail a <> Some e.
Proof.
  split.
  - intros Hnil k a Hk He.
    assert ((k, a) ∈ byEmail e t) as Hin by by apply byEmail_elem.
    rewrite Hnil in Hin. by apply elem_of_nil in Hin.
  - intros Hall. destruct (byEmail e t) as [|[k a] l] eqn:E; [done|].
    assert ((k, a) ∈ byEmail e t) as [Hk He]%byEmail_elem by (rewrite E; left).
    by destruct (Hall k a Hk).
Qed.

(** An insertion of an account whose address no other account has keeps
    the addresses apart. *)
Lemma uniqueEmails_insert (t : gmap string Account) (k : string) (a : Account) :
  uniqueEmails t ->
  (forall j b e, t !! j = Some b -> j <> k -> accEmail a = Some e -> accEmail b <> Some e) ->
  uniqueEmails (<[k := a]> t).
Proof.
  intros Hu Hfree i j x y e Hi Hj Hx Hy.
  destruct (decide (i = k)) as [->|Hik], (decide (j = k)) as [->|Hjk]; [done| | |].
  - rewrite lookup_insert_eq in Hi. rewrite lookup_insert_ne in Hj by done.
    injection Hi as <-. by destruct (Hfree j y e Hj Hjk Hx).
  - rewrite lookup_insert_eq in Hj. rewrite lookup_insert_ne in Hi by done.
    injection Hj as <-. by destruct (Hfree i x e Hi Hik Hy).
  - rewrite lookup_insert_ne in Hi, Hj by done. exact (Hu _ _ _ _ _ Hi Hj Hx Hy).
Qed.

Lemma uniquePhones_insert (t : gmap string Account) (k : string) (a : Account) :
  uniquePhones t ->
  (forall j b pn, t !! j = Some b -> j <> k -> accPhone a = Some pn -> accPhone b <> Some pn) ->
  uniquePhones (<[k := a]> t).
Proof.
  intros Hu Hfree i j x y e Hi Hj Hx Hy.
  destruct (decide (i = k)) as [->|Hik], (decide (j = k)) as [->|Hjk]; [done| | |].
  - rewrite lookup_insert_eq in Hi. rewrite lookup_insert_ne in Hj by done.
    injection Hi as <-. by destruct (Hfree j y e Hj Hjk Hx).
  - rewrite lookup_insert_eq in Hj. rewrite lookup_insert_ne in Hi by done.
    injection Hj as <-. by destruct (Hfree i x e Hi Hik Hy).
  - rewrite lookup_insert_ne in Hi, Hj by done. exact (Hu _ _ _ _ _ Hi Hj Hx Hy).
Qed.

Lemma falsy_false (field : option string) :
  falsy field = false -> exists s, field = Some s /\ s <> EmptyString.
Proof.
  destruct field as [[|c s]|]; simpl; try done. intros _. by eexists.
Qed.

Section AccountFacts.

Variable rng : nat -> string.
Variable randomPassword : nat -> string.
Variable bcryptHash : string -> string.
Variable bcryptCompare : string -> string -> bool.
Variable transport : Mail -> bool.
Variable loginExpiry : string.
Variable validationMessage : ProfileBody -> string.

Lemma signup_eq (mail : option string) (now : Z) (s : Site) :
  signup rng randomPassword bcryptHash transport mail now s
  = match mail with
    | None => (s, mkReply 400 (Failure "Email required"))
    | Some address =>
        if Js.is_empty address then (s, mkReply 400 (Failure "Email required"))
        else if (0 <? length (byEmail address (accounts s)))%nat
        then (s, mkReply 409 (Note "User already exists"))
        else
          let userId := rng (uuidsDrawn s) in
          let letter := temporaryPasswordMail address (randomPassword (passwordsDrawn s)) in
          (mkSite (<[userId := newAccount bcryptHash randomPassword address (passwordsDrawn s) now]> (accounts s))
             (babyItems s) (outbox s ++ [letter]) (subscriptions s)
             (S (uuidsDrawn s)) (S (passwordsDrawn s)),
           if transport letter
           then mkReply 201
                  (Registered "Registered. Check your inbox to confirm SNS subscription."
                     (mkToken userId address "15m"))
           else mkReply 500 (Failure "Server error"))
    end.
Proof.
  unfold signup, attempt, signupBody. destruct mail as [address|]; simpl; [|done].
  destruct (Js.is_empty address); simpl; [done|].
  unfold andThen, reads. simpl.
  destruct (0 <? length (byEmail address (accounts s)))%nat; simpl; [done|].
  unfold drawPassword, drawUuid, update, sendTemporaryPassword, deliver, setAccounts, unit_,
    newAccount. simpl.
  by destruct (transport _).
Qed.

Lemma resetPassword_eq (auth : Verified) (newPassword : string) (s : Site) :
  resetPassword bcryptHash transport auth newPassword s
  = match auth with
    | NoHeader => (s, mkReply 401 (Failure "Unauthorized"))
    | BadToken => (s, mkReply 401 (Failure "Invalid token or server error"))
    | GoodToken decoded =>
        match accounts s !! tokenUser decoded with
        | Some (mkAccount e n p (Some c)) =>
            let letter := confirmationMail (tokenEmail decoded) in
            (mkSite (<[tokenUser decoded :=
                        mkAccount e n p
                          (Some (mkCredentials (bcryptHash newPassword) false
                                   (created_at c) (credEmail c)))]> (accounts s))
               (babyItems s) (outbox s ++ [letter]) (subscriptions s)
               (uuidsDrawn s) (passwordsDrawn s),
             if transport letter then mkReply 200 (Note "Password updated")
             else mkReply 401 (Failure "Invalid token or server error"))
        | _ => (s, mkReply 401 (Failure "Invalid token or server error"))
        end
    end.
Proof.
  unfold resetPassword, attempt, resetPasswordBody. destruct auth as [| |decoded]; [done..|].
  unfold setPassword, andThen, reads. simpl.
  destruct (accounts s !! tokenUser decoded) as [[e n p [c|]]|]; simpl; [|done..].
  unfold sendPasswordResetConfirmation, deliver. simpl. by destruct (transport _).
Qed.

Lemma login_eq (address password : string) (s : Site) :
  login bcryptCompare loginExpiry address password s
  = match byEmail address (accounts s) with
    | [] => (s, mkReply 400 (Failure "User not found"))
    | (userId, mother) :: _ =>
        match accUser mother with
        | None => (s, mkReply 500 (Failure "Server error"))
        | Some c =>
            if bcryptCompare password (hashed_password c)
            then
              (mkSite (accounts s) (babyItems s) (outbox s)
                 (if existsb (isEmailSubscription address) (subscriptions s)
                  then subscriptions s
                  else subscriptions s ++ [mkSubscription "email" address])
                 (uuidsDrawn s) (passwordsDrawn s),
               mkReply 200
                 (LoggedIn "Login successful" (mkToken userId address loginExpiry) userId
                    (mustReset c)))
            else (s, mkReply 401 (Failure "Invalid credentials"))
        end
    end.
Proof.
  unfold login, attempt, loginBody, andThen, reads. simpl.
  destruct (byEmail address (accounts s)) as [|[userId mother] rest]; simpl; [done|].
  destruct (accUser mother) as [c|]; simpl; [|done].
  destruct (bcryptCompare password (hashed_password c)); simpl; [|done].
  destruct (existsb _ _); simpl; [|done]. by destruct s.
Qed.


Lemma schema_fields (b : ProfileBody) :
  profileUpdateSchema b = true ->
  exists name phone child born sex,
    b = validProfile name phone child born sex
    /\ isTwoWords name = true /\ isPhoneNumber phone = true /\ isTwoWords child = true
    /\ isDateShaped born = true /\ isGender sex = true.
Proof.
  unfold profileUpdateSchema, holds, validProfile.
  destruct b as [[name|] [phone|] [child|] [born|] [sex|] other]; simpl;
    rewrite ?andb_false_r; try done.
  rewrite !andb_true_iff, negb_true_iff. intros [[[[[? ?] ?] ?] ?] ->].
  by exists name, phone, child, born, sex.
Qed.

Lemma schema_valid (name phone child born sex : string) :
  isTwoWords name = true -> isPhoneNumber phone = true -> isTwoWords child = true ->
  isDateShaped born = true -> isGender sex = true ->
  profileUpdateSchema (validProfile name phone child born sex) = true.
Proof.
  intros H1 H2 H3 H4 H5. unfold profileUpdateSchema, validProfile, holds. simpl.
  by rewrite H1, H2, H3, H4, H5.
Qed.

Lemma isTwoWords_nonempty (s : string) : isTwoWords s = true -> Js.is_empty s = false.
Proof. by destruct s. Qed.

Lemma isDateShaped_nonempty (s : string) : isDateShaped s = true -> Js.is_empty s = false.
Proof. by destruct s. Qed.

Lemma isGender_nonempty (s : string) : isGender s = true -> Js.is_empty s = false.
Proof. by destruct s. Qed.

(** The site after step C of the profile update. *)
Lemma postProfile_eq (u name phone child born sex : string) (mother : Account)
    (c : Credentials) (s : Site) :
  profileUpdateSchema (validProfile name phone child born sex) = true ->
  accounts s !! u = Some mother -> accUser mother = Some c ->
  postProfile rng validationMessage (Bearer u) (validProfile name phone child born sex) s
  = if mustReset c
    then (s, mkReply 403 (Failure "Password reset required before updating profile"))
    else if match byPhone phone (accounts s) with
            | (owner, _) :: _ => negb (String.eqb owner u)
            | [] => false
            end
    then (s, mkReply 409 (Failure "Phone number already in use"))
    else
      let updated := <[u := renamed name phone mother]> (accounts s) in
      match someSameName child (babyItemsOf u (babyItems s)) with
      | None => (setAccounts s updated, mkReply 500 (Failure "Server error"))
      | Some true =>
          (setAccounts s updated,
           mkReply 409 (Failure "You already have a baby with that name"))
      | Some false =>
          match parseUtcMidnight born with
          | None =>
              (mkSite updated (babyItems s) (outbox s) (subscriptions s)
                 (S (uuidsDrawn s)) (passwordsDrawn s),
               mkReply 500 (Failure "Server error"))
          | Some dob =>
              (mkSite updated
                 (<[rng (uuidsDrawn s) :=
                      mkBabyItem (mkBaby (Some child) (Some u) (Some dob) None)
                        (accEmail mother) (Some sex)]> (babyItems s))
                 (outbox s) (subscriptions s) (S (uuidsDrawn s)) (passwordsDrawn s),
               mkReply 201
                 (BabyAdded "Profile updated & baby added successfully"
                    (rng (uuidsDrawn s)) child born sex))
          end
      end.
Proof.
  intros Hv Hm Hc.
  pose proof Hv as Hv'. unfold profileUpdateSchema, validProfile, holds in Hv'. simpl in Hv'.
  rewrite !andb_true_iff in Hv'. destruct Hv' as [[[[[_ _] Hchild] Hborn] Hsex] _].
  unfold postProfile, attempt, postProfileBody, authenticate, andThen, unit_, reads. simpl.
  rewrite Hv. simpl. rewrite Hm, Hc. cbn [fullName phoneNumber validProfile default].
  destruct (mustReset c); [done|].
  destruct (match byPhone phone (accounts s) with
            | [] => false | (owner, _) :: _ => negb (String.eqb owner u) end); [done|].
  unfold update, answer, renamed. simpl. rewrite ?Hc.
  rewrite (isTwoWords_nonempty _ Hchild), (isDateShaped_nonempty _ Hborn),
    (isGender_nonempty _ Hsex). simpl.
  destruct (someSameName _ _) as [[|]|]; [done| |done].
  unfold drawUuid, setBabyItems, setAccounts, raise. simpl.
  by destruct (parseUtcMidnight born).
Qed.

End AccountFacts.
Section AccountSteps.

Variable rng : nat -> string.
Variable randomPassword : nat -> string.
Variable bcryptHash : string -> string.
Variable bcryptCompare : string -> string -> bool.
Variable transport : Mail -> bool.
Variable loginExpiry : string.
Variable validationMessage : ProfileBody -> string.

Lemma signup_step (mail : option string) (now : Z) (s : Site) :
  accountsStep (accounts s)
    (accounts (signup rng randomPassword bcryptHash transport mail now s).1).
Proof.
  rewrite signup_eq. destruct mail as [address|]; [|by apply step_same].
  destruct (Js.is_empty address); [by apply step_same|].
  destruct (byEmail address (accounts s)) as [|p l] eqn:E; simpl; [|by apply step_same].
  by eapply step_signup.
Qed.

Lemma resetPassword_step (auth : Verified) (newPassword : string) (s : Site) :
  accountsStep (accounts s)
    (accounts (resetPassword bcryptHash transport auth newPassword s).1).
Proof.
  rewrite resetPassword_eq. destruct auth as [| |decoded]; [by apply step_same..|].
  destruct (accounts s !! tokenUser decoded) as [[e n p [c|]]|] eqn:E;
    [|by apply step_same..].
  simpl. by eapply (step_reset _ _ (tokenUser decoded) (bcryptHash newPassword)
                      (mkAccount e n p (Some c)) c).
Qed.

Lemma login_accounts (address password : string) (s : Site) :
  accounts (login bcryptCompare loginExpiry address password s).1 = accounts s.
Proof.
  rewrite login_eq. destruct (byEmail address (accounts s)) as [|[k a] l]; [done|].
  destruct (accUser a) as [c|]; [|done]. by destruct (bcryptCompare _ _).
Qed.

(** A request the middleware or the first checks turn down leaves the site
    as it is. *)
Lemma postProfile_refused (auth : Authorization) (b : ProfileBody) (s : Site) :
  (forall u, auth = Bearer u -> profileUpdateSchema b = true ->
     match accounts s !! u with
     | Some mother => accUser mother = None
     | None => True
     end) ->
  (postProfile rng validationMessage auth b s).1 = s.
Proof.
  intros H. unfold postProfile, attempt, postProfileBody, authenticate, andThen, unit_, reads.
  destruct auth as [| |u]; [done..|]. simpl.
  destruct (profileUpdateSchema b) eqn:Hv; [|done]. simpl.
  specialize (H u eq_refl eq_refl).
  destruct (accounts s !! u) as [mother|]; [|done]. by rewrite H.
Qed.

Lemma postProfile_step (auth : Authorization) (b : ProfileBody) (s : Site) :
  accountsStep (accounts s) (accounts (postProfile rng validationMessage auth b s).1).
Proof.
  destruct auth as [| |u]; try (rewrite postProfile_refused; [by apply step_same|done]).
  destruct (profileUpdateSchema b) eqn:Hv;
    [|rewrite postProfile_refused; [by apply step_same|congruence]].
  destruct (accounts s !! u) as [mother|] eqn:Hm;
    [|rewrite postProfile_refused; [by apply step_same|]; intros ? [= <-] _; by rewrite Hm].
  destruct (accUser mother) as [c|] eqn:Hc;
    [|rewrite postProfile_refused; [by apply step_same|]; intros ? [= <-] _; by rewrite Hm].
  destruct (schema_fields b Hv) as (name & phone & child & born & sex & -> & _).
  rewrite (postProfile_eq rng validationMessage u name phone child born sex mother c s Hv Hm Hc).
  destruct (mustReset c); [by apply step_same|].
  assert (forall t', t' = <[u := renamed name phone mother]> (accounts s) ->
            match byPhone phone (accounts s) with
            | (owner, _) :: _ => negb (String.eqb owner u)
            | [] => false
            end = false -> accountsStep (accounts s) t') as Hstep.
  { intros t' -> Hfree. eapply step_profile; [exact Hm| |reflexivity].
    unfold phoneFreeFor. destruct (byPhone phone (accounts s)) as [|[owner x] l]; [done|].
    apply negb_false_iff in Hfree. by apply String.eqb_eq in Hfree. }
  destruct (match byPhone phone (accounts s) with
            | [] => false | (owner, _) :: _ => negb (String.eqb owner u) end) eqn:Hfree;
    [by apply step_same|].
  cbv zeta. destruct (someSameName _ _) as [[|]|]; [by apply Hstep| |by apply Hstep].
  destruct (parseUtcMidnight born); by apply Hstep.
Qed.

Lemma getProfile_reads (auth : Authorization) (s : Site) : (getProfile auth s).1 = s.
Proof.
  unfold getProfile, attempt, getProfileBody, authenticate, andThen, unit_, reads.
  destruct auth as [| |u]; [done..|]. simpl.
  destruct (accounts s !! u) as [mother|]; [|done].
  assert (forall l, (formatBabies l s).1 = s) as Hf.
  { induction l as [|p l IH]; [done|]. simpl. destruct (formatBaby p); [|done].
    unfold andThen. destruct (formatBabies l s) as [s' [vs|r|e]]; simpl in *; congruence. }
  specialize (Hf (babyItemsOf u (babyItems s))).
  destruct (formatBabies _ s) as [s' [vs|r|e]]; simpl in *; subst; try done.
  by destruct (accUser mother).
Qed.

Lemma serve_step (r : AccountRequest) (s : Site) :
  accountsStep (accounts s)
    (accounts (serve rng randomPassword bcryptHash bcryptCompare transport loginExpiry
                 validationMessage r s).1).
Proof.
  destruct r; simpl.
  - apply signup_step.
  - apply resetPassword_step.
  - apply step_same, login_accounts.
  - apply postProfile_step.
  - apply step_same. by rewrite getProfile_reads.
Qed.

End AccountSteps.

Lemma step_uniqueEmails (t t' : gmap string Account) :
  accountsStep t t' -> uniqueEmails t -> uniqueEmails t'.
Proof.
  intros [->|k address hashed now Hfree ->|k hashed a c Hk Hc ->|k name phone a Hk Hfree ->] Hu;
    [done|apply uniqueEmails_insert; [done|]..].
  - simpl. intros j b e Hj _ [= <-]. by apply (proj1 (byEmail_none address t) Hfree j).
  - simpl. intros j b e Hj Hjk He Hb. by destruct Hjk; apply (Hu j k b a e).
  - simpl. intros j b e Hj Hjk He Hb. by destruct Hjk; apply (Hu j k b a e).
Qed.

Lemma step_uniquePhones (t t' : gmap string Account) :
  accountsStep t t' -> uniquePhones t -> uniquePhones t'.
Proof.
  intros [->|k address hashed now Hfree ->|k hashed a c Hk Hc ->|k name phone a Hk Hfree ->] Hu;
    [done|apply uniquePhones_insert; [done|]..].
  - simpl. by intros j b e Hj _ [=].
  - simpl. intros j b e Hj Hjk He Hb. by destruct Hjk; apply (Hu j k b a e).
  - simpl. intros j b e Hj Hjk [= <-] Hb. unfold phoneFreeFor in Hfree.
    destruct (byPhone phone t) as [|[owner x] l] eqn:E.
    + assert ((j, b) ∈ byPhone phone t) as Hin by by apply byPhone_elem.
      rewrite E in Hin. by apply elem_of_nil in Hin.
    + subst owner.
      assert ((k, x) ∈ byPhone phone t) as [Hx Hp]%byPhone_elem by (rewrite E; left).
      by destruct Hjk; apply (Hu j k b x phone).
Qed.

Lemma step_noUserEmail (t t' : gmap string Account) :
  accountsStep t t' -> noUserEmail t -> noUserEmail t'.
Proof.
  intros [->|k address hashed now Hfree ->|k hashed a c Hk Hc ->|k name phone a Hk Hfree ->] Hn;
    [done|..]; intros i x y Hi Hx.
  - destruct (decide (i = k)) as [->|Hik].
    + rewrite lookup_insert_eq in Hi. injection Hi as <-. simpl in Hx. by injection Hx as <-.
    + rewrite lookup_insert_ne in Hi by done. by apply (Hn i x).
  - destruct (decide (i = k)) as [->|Hik].
    + rewrite lookup_insert_eq in Hi. injection Hi as <-. simpl in Hx. injection Hx as <-.
      simpl. by apply (Hn k a).
    + rewrite lookup_insert_ne in Hi by done. by apply (Hn i x).
  - destruct (decide (i = k)) as [->|Hik].
    + rewrite lookup_insert_eq in Hi. injection Hi as <-. simpl in Hx. by apply (Hn k a).
    + rewrite lookup_insert_ne in Hi by done. by apply (Hn i x).
Qed.
Lemma serveAll_invariant (P : gmap string Account -> Prop)
    rng randomPassword bcryptHash bcryptCompare transport loginExpiry validationMessage :
  (forall t t', accountsStep t t' -> P t -> P t') ->
  forall (rs : list AccountRequest) (s : Site),
    P (accounts s) ->
    P (accounts (serveAll rng randomPassword bcryptHash bcryptCompare transport loginExpiry
                   validationMessage rs s)).
Proof.
  intros Hstep rs. induction rs as [|r rs IH]; intros s Hs; [done|].
  unfold serveAll. simpl. apply IH. eapply Hstep; [apply serve_step|done].
Qed.

(** X20. No sequence of requests to the account routes makes two accounts
    share an e-mail address: sign-up is the only route that writes an
    address, and it writes one that its query of the e-mail index did not
    find. *)
Theorem emails_stay_unique
    rng randomPassword bcryptHash bcryptCompare transport loginExpiry validationMessage
    (rs : list AccountRequest) (s : Site) :
  uniqueEmails (accounts s) ->
  uniqueEmails
    (accounts (serveAll rng randomPassword bcryptHash bcryptCompare transport loginExpiry
                 validationMessage rs s)).
Proof.
  apply (serveAll_invariant uniqueEmails). intros t t' Hstep Hu.
  by apply (step_uniqueEmails t t').
Qed.

Lemma emails_stay_unique_witness :
  uniqueEmails
    (accounts (serveAll sampleRng samplePassword sampleHash sampleCompare acceptAll "24h"
                 sampleMessage
                 [Signup (Some "amina@example.com") sampleNow;
                  Signup (Some "amina@example.com") sampleNow;
                  Login "amina@example.com" "100000"]
                 emptySite)).
Proof.
  apply (emails_stay_unique sampleRng samplePassword sampleHash sampleCompare acceptAll "24h"
           sampleMessage).
  intros i j a b e Hi. unfold emptySite, accounts in Hi. by rewrite lookup_empty in Hi.
Defined.

(** X21. No sequence of requests makes two accounts share a phone number:
    the profile route writes a number only when the phone index lists no
    account or lists the caller first. *)
Theorem phones_stay_unique
    rng randomPassword bcryptHash bcryptCompare transport loginExpiry validationMessage
    (rs : list AccountRequest) (s : Site) :
  uniquePhones (accounts s) ->
  uniquePhones
    (accounts (serveAll rng randomPassword bcryptHash bcryptCompare transport loginExpiry
                 validationMessage rs s)).
Proof.
  apply (serveAll_invariant uniquePhones). intros t t' Hstep Hu.
  by apply (step_uniquePhones t t').
Qed.

Lemma phones_stay_unique_witness :
  uniquePhones
    (accounts (serveAll sampleRng samplePassword sampleHash sampleCompare acceptAll "24h"
                 sampleMessage
                 [Signup (Some "amina@example.com") sampleNow;
                  ResetPassword (GoodToken (mkToken "uuid-0000" "amina@example.com" "15m"))
                    "secret";
                  PostProfile (Bearer "uuid-0000")
                    (validProfile "Amina Otieno" "0712345678" "Zawadi Otieno" "2025-06-11"
                       "Female")]
                 emptySite)).
Proof.
  apply (phones_stay_unique sampleRng samplePassword sampleHash sampleCompare acceptAll "24h"
           sampleMessage).
  intros i j a b e Hi. unfold emptySite, accounts in Hi. by rewrite lookup_empty in Hi.
Defined.
Lemma byEmail_inserted (address : string) (t : gmap string Account) (k : string) (a : Account) :
  (forall j b, t !! j = Some b -> accEmail b <> Some address) ->
  accEmail a = Some address ->
  byEmail address (<[k := a]> t) = [(k, a)].
Proof.
  intros Hfree Ha. apply NoDup_all_equal.
  - unfold byEmail. apply NoDup_filter, NoDup_map_to_list.
  - apply byEmail_elem. by rewrite lookup_insert_eq.
  - intros [j b] [Hj Hb]%byEmail_elem.
    destruct (decide (j = k)) as [->|Hjk].
    + rewrite lookup_insert_eq in Hj. congruence.
    + rewrite lookup_insert_ne in Hj by done. by destruct (Hfree j b Hj).
Qed.

Lemma existsb_subscribed (address : string) (subs : list Subscription) :
  existsb (isEmailSubscription address) (subs ++ [mkSubscription "email" address]) = true.
Proof.
  rewrite existsb_app. apply orb_true_iff. right. simpl.
  unfold isEmailSubscription. simpl. by rewrite String.eqb_refl.
Qed.

(** X22. Sign-up, then login.  For an address no account has, when the
    mail with the temporary password is accepted, sign-up answers 201 with a
    15-minute token for the new identifier, and the mail it sent holds a
    password with which login answers 200 for that identifier, with
    [mustResetPassword] set, and subscribes the address to the topic. *)
Theorem signup_then_login
    rng randomPassword bcryptHash bcryptCompare transport loginExpiry
    (address : string) (now : Z) (s : Site)
    (Hbcrypt : forall p, bcryptCompare p (bcryptHash p) = true)
    (Haddress : address <> EmptyString)
    (Hnew : forall k a, accounts s !! k = Some a -> accEmail a <> Some address)
    (Hsent : transport (temporaryPasswordMail address (randomPassword (passwordsDrawn s)))
             = true) :
  let userId := rng (uuidsDrawn s) in
  let password := randomPassword (passwordsDrawn s) in
  let registered := signup rng randomPassword bcryptHash transport (Some address) now s in
  let logged := login bcryptCompare loginExpiry address password registered.1 in
  registered.2
  = mkReply 201
      (Registered "Registered. Check your inbox to confirm SNS subscription."
         (mkToken userId address "15m"))
  /\ outbox registered.1 = outbox s ++ [temporaryPasswordMail address password]
  /\ logged.2
     = mkReply 200
         (LoggedIn "Login successful" (mkToken userId address loginExpiry) userId true)
  /\ existsb (isEmailSubscription address) (subscriptions logged.1) = true.
Proof.
  intros userId password registered logged.
  assert (Js.is_empty address = false) as He by by destruct address.
  assert (byEmail address (accounts s) = []) as Hnone by by apply byEmail_none.
  assert (registered
          = (mkSite (<[userId := newAccount bcryptHash randomPassword address
                                   (passwordsDrawn s) now]> (accounts s))
               (babyItems s) (outbox s ++ [temporaryPasswordMail address password])
               (subscriptions s) (S (uuidsDrawn s)) (S (passwordsDrawn s)),
             mkReply 201
               (Registered "Registered. Check your inbox to confirm SNS subscription."
                  (mkToken userId address "15m")))) as Hreg.
  { subst registered. rewrite signup_eq, He, Hnone. simpl. by rewrite Hsent. }
  subst logged. rewrite Hreg. cbn [fst snd outbox]. split; [done|]. split; [done|].
  rewrite login_eq. cbn [accounts].
  rewrite (byEmail_inserted address (accounts s) userId
             (newAccount bcryptHash randomPassword address (passwordsDrawn s) now) Hnew eq_refl).
  cbn [newAccount accUser hashed_password mustReset]. rewrite Hbcrypt.
  cbn [fst snd subscriptions]. split; [done|].
  destruct (existsb (isEmailSubscription address) (subscriptions s)) eqn:E; [done|].
  apply existsb_subscribed.
Qed.

Lemma signup_then_login_witness :
  let registered :=
    signup sampleRng samplePassword sampleHash acceptAll (Some "amina@example.com")
      sampleNow emptySite in
  let logged := login sampleCompare "24h" "amina@example.com" "100000" registered.1 in
  registered.2
  = mkReply 201
      (Registered "Registered. Check your inbox to confirm SNS subscription."
         (mkToken "uuid-0000" "amina@example.com" "15m"))
  /\ logged.2
     = mkReply 200
         (LoggedIn "Login successful" (mkToken "uuid-0000" "amina@example.com" "24h")
            "uuid-0000" true).
Proof.
  assert (forall p, sampleCompare p (sampleHash p) = true) as Hbcrypt.
  { intros p. unfold sampleCompare. apply String.eqb_refl. }
  assert (forall k a, accounts emptySite !! k = Some a -> accEmail a <> Some "amina@example.com")
    as Hnew.
  { intros k a Hk. unfold emptySite, accounts in Hk. by rewrite lookup_empty in Hk. }
  destruct (signup_then_login sampleRng samplePassword sampleHash sampleCompare acceptAll "24h"
              "amina@example.com" sampleNow emptySite Hbcrypt ltac:(discriminate) Hnew eq_refl)
    as (H1 & _ & H3 & _).
  split; [exact H1|exact H3].
Defined.

(** X23. A sign-up whose mail is rejected answers 500 but keeps the account
    it wrote: every later sign-up with the same address answers 409 and
    sends nothing, so the temporary password never reaches the user. *)
Theorem signup_mail_failure_keeps_account
    rng randomPassword bcryptHash transport
    (address : string) (now later : Z) (s : Site)
    (Haddress : address <> EmptyString)
    (Hnew : forall k a, accounts s !! k = Some a -> accEmail a <> Some address)
    (Hrejected : transport (temporaryPasswordMail address (randomPassword (passwordsDrawn s)))
                 = false) :
  let failed := signup rng randomPassword bcryptHash transport (Some address) now s in
  failed.2 = mkReply 500 (Failure "Server error")
  /\ accounts failed.1 !! rng (uuidsDrawn s)
     = Some (newAccount bcryptHash randomPassword address (passwordsDrawn s) now)
  /\ signup rng randomPassword bcryptHash transport (Some address) later failed.1
     = (failed.1, mkReply 409 (Note "User already exists")).
Proof.
  intros failed.
  assert (Js.is_empty address = false) as He by by destruct address.
  assert (byEmail address (accounts s) = []) as Hnone by by apply byEmail_none.
  assert (failed
          = (mkSite (<[rng (uuidsDrawn s) := newAccount bcryptHash randomPassword address
                                   (passwordsDrawn s) now]> (accounts s))
               (babyItems s)
               (outbox s ++ [temporaryPasswordMail address
                               (randomPassword (passwordsDrawn s))])
               (subscriptions s) (S (uuidsDrawn s)) (S (passwordsDrawn s)),
             mkReply 500 (Failure "Server error"))) as Hreg.
  { subst failed. rewrite signup_eq, He, Hnone. simpl. by rewrite Hrejected. }
  rewrite Hreg. cbn [fst snd accounts]. split; [done|]. split; [by rewrite lookup_insert_eq|].
  rewrite signup_eq, He. cbn [accounts].
  by rewrite (byEmail_inserted address (accounts s) (rng (uuidsDrawn s))
                (newAccount bcryptHash randomPassword address (passwordsDrawn s) now)
                Hnew eq_refl).
Qed.

Lemma signup_mail_failure_keeps_account_witness :
  let failed :=
    signup sampleRng samplePassword sampleHash (rejecting "amina@example.com")
      (Some "amina@example.com") sampleNow emptySite in
  failed.2 = mkReply 500 (Failure "Server error")
  /\ signup sampleRng samplePassword sampleHash (rejecting "amina@example.com")
       (Some "amina@example.com") (sampleNow + 1) failed.1
     = (failed.1, mkReply 409 (Note "User already exists")).
Proof.
  assert (forall k a, accounts emptySite !! k = Some a -> accEmail a <> Some "amina@example.com")
    as Hnew.
  { intros k a Hk. unfold emptySite, accounts in Hk. by rewrite lookup_empty in Hk. }
  destruct (signup_mail_failure_keeps_account sampleRng samplePassword sampleHash
              (rejecting "amina@example.com") "amina@example.com" sampleNow (sampleNow + 1)
              emptySite ltac:(discriminate) Hnew eq_refl) as (H1 & _ & H3).
  split; [exact H1|exact H3].
Defined.

(** X24. A password reset with a valid token writes the new password and
    clears the reset flag whatever becomes of the confirmation mail: the
    reply is 200 when the mail is accepted and 401 when it is rejected, and
    in both cases login with the new password answers 200 with
    [mustResetPassword] cleared. *)
Theorem reset_then_login
    bcryptHash bcryptCompare transport loginExpiry
    (decoded : Token) (newPassword address : string) (a : Account) (c : Credentials)
    (s : Site)
    (Hbcrypt : forall p, bcryptCompare p (bcryptHash p) = true)
    (Hunique : uniqueEmails (accounts s))
    (Haccount : accounts s !! tokenUser decoded = Some a)
    (Haddress : accEmail a = Some address)
    (Huser : accUser a = Some c) :
  let reset := resetPassword bcryptHash transport (GoodToken decoded) newPassword s in
  reset.2
  = (if transport (confirmationMail (tokenEmail decoded))
     then mkReply 200 (Note "Password updated")
     else mkReply 401 (Failure "Invalid token or server error"))
  /\ (login bcryptCompare loginExpiry address newPassword reset.1).2
     = mkReply 200
         (LoggedIn "Login successful" (mkToken (tokenUser decoded) address loginExpiry)
            (tokenUser decoded) false).
Proof.
  intros reset. subst reset. rewrite resetPassword_eq, Haccount.
  destruct a as [e n p u]. simpl in Haddress, Huser. subst e u. cbn [fst snd]. split; [done|].
  rewrite login_eq. cbn [accounts].
  set (a' := mkAccount (Some address) n p
               (Some (mkCredentials (bcryptHash newPassword) false (created_at c)
                        (credEmail c)))).
  assert (uniqueEmails (<[tokenUser decoded := a']> (accounts s))) as Hu'.
  { apply uniqueEmails_insert; [done|]. simpl. intros j b e Hj Hjk [= <-] Hb.
    by destruct Hjk; apply (Hunique j (tokenUser decoded) b _ address Hj Haccount). }
  rewrite (byEmail_unique address _ (tokenUser decoded) a' Hu');
    [|by rewrite lookup_insert_eq|done].
  cbn [a' accUser hashed_password mustReset]. by rewrite Hbcrypt.
Qed.

Lemma memberSite_unique : uniqueEmails (accounts memberSite).
Proof.
  intros i j a b e Hi Hj _ _. unfold memberSite, accounts in Hi, Hj.
  apply lookup_singleton_Some in Hi as [<- _]. by apply lookup_singleton_Some in Hj as [<- _].
Qed.

Lemma reset_then_login_witness :
  let reset :=
    resetPassword sampleHash (rejecting "amina@example.com")
      (GoodToken (mkToken "uuid-0000" "amina@example.com" "15m")) "tumaini" memberSite in
  reset.2 = mkReply 401 (Failure "Invalid token or server error")
  /\ (login sampleCompare "24h" "amina@example.com" "tumaini" reset.1).2
     = mkReply 200
         (LoggedIn "Login successful" (mkToken "uuid-0000" "amina@example.com" "24h")
            "uuid-0000" false).
Proof.
  assert (forall p, sampleCompare p (sampleHash p) = true) as Hbcrypt.
  { intros p. unfold sampleCompare. apply String.eqb_refl. }
  exact (reset_then_login sampleHash sampleCompare (rejecting "amina@example.com") "24h"
           (mkToken "uuid-0000" "amina@example.com" "15m") "tumaini" "amina@example.com"
           sampleAccount (mkCredentials (sampleHash "secret") false sampleNow None) memberSite
           Hbcrypt memberSite_unique eq_refl eq_refl eq_refl).
Defined.
Lemma postProfile_turned_down rng validationMessage (auth : Authorization) (b : ProfileBody)
    (s : Site) :
  (forall u, auth = Bearer u -> profileUpdateSchema b = true ->
     match accounts s !! u with
     | Some mother => accUser mother = None
     | None => True
     end) ->
  replyStatus (postProfile rng validationMessage auth b s).2 <> 200.
Proof.
  intros H. unfold postProfile, attempt, postProfileBody, authenticate, andThen, unit_, reads.
  destruct auth as [| |u]; [done..|]. simpl.
  destruct (profileUpdateSchema b) eqn:Hv; [|done]. simpl.
  specialize (H u eq_refl eq_refl).
  destruct (accounts s !! u) as [mother|]; [|done]. by rewrite H.
Qed.

(** X25. The profile route never answers 200: its schema requires the
    three fields of the baby, so the branch that answers "Profile updated"
    for a body without them cannot be reached, and a profile is updated only
    together with an attempt to add a baby. *)
Theorem postProfile_never_profile_only rng validationMessage
    (auth : Authorization) (b : ProfileBody) (s : Site) :
  replyStatus (postProfile rng validationMessage auth b s).2 <> 200.
Proof.
  destruct auth as [| |u]; try (by apply postProfile_turned_down).
  destruct (profileUpdateSchema b) eqn:Hv;
    [|apply postProfile_turned_down; congruence].
  destruct (accounts s !! u) as [mother|] eqn:Hm;
    [|apply postProfile_turned_down; intros ? [= <-] _; by rewrite Hm].
  destruct (accUser mother) as [c|] eqn:Hc;
    [|apply postProfile_turned_down; intros ? [= <-] _; by rewrite Hm].
  destruct (schema_fields b Hv) as (name & phone & child & born & sex & -> & _).
  rewrite (postProfile_eq rng validationMessage u name phone child born sex mother c s Hv Hm Hc).
  destruct (mustReset c); [done|].
  destruct (match byPhone phone (accounts s) with
            | [] => false | (owner, _) :: _ => negb (String.eqb owner u) end); [done|].
  cbv zeta. destruct (someSameName _ _) as [[|]|]; [done| |done].
  by destruct (parseUtcMidnight born).
Qed.

Lemma phoneFreeFor_check (u phone : string) (t : gmap string Account) :
  phoneFreeFor u phone t ->
  match byPhone phone t with
  | (owner, _) :: _ => negb (String.eqb owner u)
  | [] => false
  end = false.
Proof.
  unfold phoneFreeFor. destruct (byPhone phone t) as [|[owner x] l]; [done|].
  intros ->. by rewrite String.eqb_refl.
Qed.

(** X26.  The profile route writes the mother's name and phone number
    before it looks at the baby.  For a caller whose password was reset and
    whose number is free, the account has the new name and number after the
    request even when the reply is 409 for a baby name the caller already
    uses, or 500 because a baby of the caller has no name or because the
    date, such as 2025-13-01, passes the schema and is no date; no baby is
    written in these three cases. *)
Theorem postProfile_updates_mother_first rng validationMessage
    (u name phone child born sex : string) (mother : Account) (c : Credentials) (s : Site)
    (Hschema : profileUpdateSchema (validProfile name phone child born sex) = true)
    (Haccount : accounts s !! u = Some mother)
    (Huser : accUser mother = Some c)
    (Hreset : mustReset c = false)
    (Hphone : phoneFreeFor u phone (accounts s)) :
  let run := postProfile rng validationMessage (Bearer u)
               (validProfile name phone child born sex) s in
  let duplicate := someSameName child (babyItemsOf u (babyItems s)) in
  accounts run.1 = <[u := renamed name phone mother]> (accounts s)
  /\ (duplicate = Some true ->
      run.2 = mkReply 409 (Failure "You already have a baby with that name")
      /\ babyItems run.1 = babyItems s)
  /\ (duplicate = None ->
      run.2 = mkReply 500 (Failure "Server error") /\ babyItems run.1 = babyItems s)
  /\ (duplicate = Some false -> parseUtcMidnight born = None ->
      run.2 = mkReply 500 (Failure "Server error") /\ babyItems run.1 = babyItems s).
Proof.
  intros run duplicate. subst run duplicate.
  rewrite (postProfile_eq rng validationMessage u name phone child born sex mother c s
             Hschema Haccount Huser), Hreset, (phoneFreeFor_check u phone _ Hphone).
  cbv zeta. destruct (someSameName _ _) as [[|]|].
  - by repeat split.
  - destruct (parseUtcMidnight born); repeat split; done.
  - by repeat split.
Qed.

Lemma postProfile_updates_mother_first_witness :
  let run := postProfile sampleRng sampleMessage (Bearer "uuid-0000")
               (validProfile "Amina Otieno" "0712345678" "Zawadi Otieno" "2025-13-01" "Female")
               memberSite in
  accounts run.1 = <[ "uuid-0000" := renamed "Amina Otieno" "0712345678" sampleAccount ]>
                     (accounts memberSite)
  /\ run.2 = mkReply 500 (Failure "Server error").
Proof.
  destruct (postProfile_updates_mother_first sampleRng sampleMessage "uuid-0000"
              "Amina Otieno" "0712345678" "Zawadi Otieno" "2025-13-01" "Female"
              sampleAccount (mkCredentials (sampleHash "secret") false sampleNow None)
              memberSite eq_refl eq_refl eq_refl eq_refl I) as (H1 & _ & _ & H4).
  split; [exact H1|]. exact (proj1 (H4 eq_refl eq_refl)).
Defined.
Lemma formatBabies_dated (l : list (string * BabyItem)) (s : Site) :
  (forall p, p ∈ l -> dateOfBirth (babyRecord p.2) <> None) ->
  formatBabies l s = (s, Continue (map viewOf l)).
Proof.
  induction l as [|p l IH]; intros Hall; [done|].
  simpl. unfold formatBaby, viewOf at 1.
  destruct (dateOfBirth (babyRecord p.2)) as [t|] eqn:E;
    [|by destruct (Hall p); [left|]].
  unfold andThen. rewrite IH; [done|]. intros q Hq. apply Hall. by right.
Qed.

Lemma getProfile_eq (u : string) (mother : Account) (c : Credentials) (s : Site) :
  accounts s !! u = Some mother -> accUser mother = Some c ->
  datedBabies u (babyItems s) ->
  getProfile (Bearer u) s
  = (s, mkReply 200
          (ProfileView (mustReset c)
             (truthy (accFullName mother) && truthy (accPhone mother)
              && (0 <? length (babyItemsOf u (babyItems s)))%nat)
             (accFullName mother) (accPhone mother)
             (map viewOf (babyItemsOf u (babyItems s))))).
Proof.
  intros Hm Hc Hd.
  unfold getProfile, attempt, getProfileBody, authenticate, andThen, unit_, reads. simpl.
  rewrite Hm, formatBabies_dated.
  - by rewrite Hc, length_map.
  - intros [k b] [Hk Hb]%babyItemsOf_elem. by apply (Hd k b).
Qed.

Lemma day_string_parses n :
  firstDay <= n <= lastDay ->
  isDateShaped (JsDate.isoDate (n * msPerDay)) = true
  /\ parseUtcMidnight (JsDate.isoDate (n * msPerDay)) = Some (n * msPerDay).
Proof.
  intros Hday. pose proof (readBirthDate_day n Hday) as H. unfold readBirthDate in H.
  destruct (isDateShaped _); [|done]. split; [done|congruence].
Qed.

Lemma isPhoneNumber_nonempty (s : string) : isPhoneNumber s = true -> Js.is_empty s = false.
Proof. by destruct s. Qed.

(** X27. Profile round trip.  When the profile route adds a baby born on
    a day written as the date string of that day (years 0000 to 9999), for
    a caller whose babies all have a name other than the new one, it
    answers 201, and the profile read by the same caller then answers 200
    with the new name and phone number, [mustResetPassword] cleared,
    [profileComplete] set, and the new baby listed under the identifier,
    name, gender and the very date string of the request. *)
Theorem profile_round_trip rng validationMessage
    (n : Z) (u name phone child sex : string) (mother : Account) (c : Credentials) (s : Site)
    (Hday : firstDay <= n <= lastDay)
    (Hname : isTwoWords name = true)
    (Hnumber : isPhoneNumber phone = true)
    (Hchild : isTwoWords child = true)
    (Hsex : isGender sex = true)
    (Haccount : accounts s !! u = Some mother)
    (Huser : accUser mother = Some c)
    (Hreset : mustReset c = false)
    (Hphone : phoneFreeFor u phone (accounts s))
    (Hfresh : someSameName child (babyItemsOf u (babyItems s)) = Some false)
    (Hdated : datedBabies u (babyItems s)) :
  let born := JsDate.isoDate (n * msPerDay) in
  let babyId := rng (uuidsDrawn s) in
  let added := postProfile rng validationMessage (Bearer u)
                 (validProfile name phone child born sex) s in
  added.2
  = mkReply 201 (BabyAdded "Profile updated & baby added successfully" babyId child born sex)
  /\ exists views,
       (getProfile (Bearer u) added.1).2
       = mkReply 200 (ProfileView false true (Some name) (Some phone) views)
       /\ mkBabyView babyId (Some child) born (Some sex) ∈ views.
Proof.
  intros born babyId added.
  destruct (day_string_parses n Hday) as [Hshape Hparse]. fold born in Hshape, Hparse.
  pose proof (schema_valid name phone child born sex Hname Hnumber Hchild Hshape Hsex) as Hv.
  set (item := mkBabyItem (mkBaby (Some child) (Some u) (Some (n * msPerDay)) None)
                 (accEmail mother) (Some sex)).
  assert (added
          = (mkSite (<[u := renamed name phone mother]> (accounts s))
               (<[babyId := item]> (babyItems s))
               (outbox s) (subscriptions s) (S (uuidsDrawn s)) (passwordsDrawn s),
             mkReply 201
               (BabyAdded "Profile updated & baby added successfully" babyId child born sex)))
    as Hadded.
  { subst added.
    rewrite (postProfile_eq rng validationMessage u name phone child born sex mother c s
               Hv Haccount Huser), Hreset, (phoneFreeFor_check u phone _ Hphone).
    cbv zeta. by rewrite Hfresh, Hparse. }
  rewrite Hadded. cbn [fst snd]. split; [done|].
  assert ((babyId, item) ∈ babyItemsOf u (<[babyId := item]> (babyItems s))) as Hin.
  { apply babyItemsOf_elem. by rewrite lookup_insert_eq. }
  exists (map viewOf (babyItemsOf u (<[babyId := item]> (babyItems s)))).
  rewrite (getProfile_eq u (renamed name phone mother) c).
  - cbn [snd renamed accFullName accPhone babyItems]. split.
    + unfold truthy, falsy. rewrite (isTwoWords_nonempty _ Hname),
        (isPhoneNumber_nonempty _ Hnumber), Hreset. cbn [negb andb].
      destruct (babyItemsOf u (<[babyId := item]> (babyItems s))) as [|p l];
        [by apply elem_of_nil in Hin|]. reflexivity.
    + exact (list_elem_of_fmap_2 viewOf _ (babyId, item) Hin).
  - cbn [accounts]. by rewrite lookup_insert_eq.
  - done.
  - cbn [babyItems]. intros k b Hk Hb.
    destruct (decide (k = babyId)) as [->|Hne].
    + rewrite lookup_insert_eq in Hk. by injection Hk as <-.
    + rewrite lookup_insert_ne in Hk by done. by apply (Hdated k b).
Qed.

Lemma profile_round_trip_witness :
  let added := postProfile sampleRng sampleMessage (Bearer "uuid-0000")
                 (validProfile "Amina Otieno" "0712345678" "Zawadi Otieno"
                    (JsDate.isoDate (20250 * msPerDay)) "Female") memberSite in
  added.2
  = mkReply 201
      (BabyAdded "Profile updated & baby added successfully" "uuid-0001" "Zawadi Otieno"
         (JsDate.isoDate (20250 * msPerDay)) "Female")
  /\ exists views,
       (getProfile (Bearer "uuid-0000") added.1).2
       = mkReply 200
           (ProfileView false true (Some "Amina Otieno") (Some "0712345678") views)
       /\ mkBabyView "uuid-0001" (Some "Zawadi Otieno") (JsDate.isoDate (20250 * msPerDay))
            (Some "Female") ∈ views.
Proof.
  assert (firstDay <= 20250 <= lastDay) as Hday by (unfold firstDay, lastDay; lia).
  assert (datedBabies "uuid-0000" (babyItems memberSite)) as Hdated.
  { intros k b Hk. unfold memberSite, babyItems in Hk. by rewrite lookup_empty in Hk. }
  exact (profile_round_trip sampleRng sampleMessage 20250 "uuid-0000" "Amina Otieno"
           "0712345678" "Zawadi Otieno" "Female" sampleAccount
           (mkCredentials (sampleHash "secret") false sampleNow None) memberSite
           Hday eq_refl eq_refl eq_refl eq_refl eq_refl eq_refl eq_refl I eq_refl Hdated).
Defined.

(** X28.  A second login does nothing more to the site: after a login, a
    login with the same address and password leaves the site as the first
    left it and answers with the same status, so the address is subscribed
    to the topic at most once.  (The tokens of the two replies are not
    compared: a token is stamped with its time of issue.) *)
Theorem login_twice bcryptCompare loginExpiry (address password : string) (s : Site) :
  let once := login bcryptCompare loginExpiry address password s in
  let again := login bcryptCompare loginExpiry address password once.1 in
  again.1 = once.1
  /\ replyStatus again.2 = replyStatus once.2
  /\ (length (filter (fun sub => isEmailSubscription address sub = true)
                (subscriptions again.1))
      <= Nat.max 1 (length (filter (fun sub => isEmailSubscription address sub = true)
                              (subscriptions s))))%nat.
Proof.
  intros once again.
  assert (Hsame : again = once).
  { subst again once. rewrite (login_eq _ _ address password s).
    destruct (byEmail address (accounts s)) as [|[userId mother] rest] eqn:E.
    { cbn [fst]. by rewrite login_eq, E. }
    destruct (accUser mother) as [c|] eqn:Hc.
    2: { cbn [fst]. by rewrite login_eq, E, Hc. }
    destruct (bcryptCompare password (hashed_password c)) eqn:Hp.
    2: { cbn [fst]. by rewrite login_eq, E, Hc, Hp. }
    cbn [fst]. rewrite login_eq. cbn [accounts subscriptions babyItems outbox uuidsDrawn
      passwordsDrawn]. rewrite E, Hc, Hp.
    destruct (existsb (isEmailSubscription address) (subscriptions s)) eqn:Hs.
    - by rewrite Hs.
    - by rewrite existsb_subscribed. }
  rewrite Hsame. split; [done|]. split; [done|].
  subst once. rewrite login_eq.
  destruct (byEmail address (accounts s)) as [|[userId mother] rest]; [cbn [fst]; lia|].
  destruct (accUser mother) as [c|]; [|cbn [fst]; lia].
  destruct (bcryptCompare password (hashed_password c)); [|cbn [fst]; lia].
  cbn [fst subscriptions].
  destruct (existsb (isEmailSubscription address) (subscriptions s)) eqn:Hs; [lia|].
  rewrite filter_app, length_app.
  assert (filter (fun sub => isEmailSubscription address sub = true) (subscriptions s) = [])
    as ->.
  { induction (subscriptions s) as [|sub l IH]; [done|].
    simpl in Hs. apply orb_false_iff in Hs as [Hsub Hl].
    rewrite filter_cons_False by (by rewrite Hsub). by apply IH. }
  cbn [filter list_filter app length]. rewrite decide_True; [simpl; lia|].
  unfold isEmailSubscription. simpl. by rewrite String.eqb_refl.
Qed.
Lemma dailyAddress_account (t : gmap string Account) (k : string) :
  noUserEmail t -> dailyAddress ((motherOf <$> t) !! k) = None.
Proof.
  intros Hn. rewrite lookup_fmap. destruct (t !! k) as [a|] eqn:E; [|done].
  simpl. destruct (accUser a) as [c|] eqn:Hc; [|done]. simpl.
  by rewrite (Hn k a c E Hc).
Qed.

Lemma callOf_account tz topicArn (v : CronVersion) (t : gmap string Account)
    (e : string * list Reminder) :
  noUserEmail t -> mailsUserEmail v = true -> callOf tz topicArn v (motherOf <$> t) e = None.
Proof.
  intros Hn Hv. destruct v; try done; simpl; unfold dispatchOf;
    by rewrite (dailyAddress_account t e.1 Hn).
Qed.

(** X29. The accounts the routes make have no [user.email], and no route
    writes one: after any sequence of account requests on a site without
    such an attribute, a run of a cron version that mails to
    [mother.user.email] over these accounts sends nothing and marks
    nothing, whatever reminders are due. *)
Theorem api_accounts_get_no_mail
    rng randomPassword bcryptHash bcryptCompare transport loginExpiry validationMessage
    (rs : list AccountRequest) (s : Site)
    tz cronTransport topicArn (v : CronVersion) (now : Z) (w : World)
    (Hsite : noUserEmail (accounts s))
    (Hversion : mailsUserEmail v = true)
    (Hmothers : mothers w
                = motherOf <$> accounts (serveAll rng randomPassword bcryptHash bcryptCompare
                                           transport loginExpiry validationMessage rs s)) :
  (handlerOf tz cronTransport topicArn v now w).1 = w.
Proof.
  assert (noUserEmail (accounts (serveAll rng randomPassword bcryptHash bcryptCompare
                                   transport loginExpiry validationMessage rs s))) as Hn.
  { apply (serveAll_invariant noUserEmail); [|done]. intros t t' Hstep Ht.
    by apply (step_noUserEmail t t'). }
  destruct (handlerOf_eq tz cronTransport topicArn v now w) as (okText & failure & ->).
  destruct (length _ =? 0)%nat; [done|].
  destruct (hasInheritedName _); [done|].
  rewrite runWith_none.
  - by destruct w.
  - intros e _. rewrite Hmothers. by apply callOf_account.
Qed.

(** A signed-up mother with a daily reminder that is due: the version
    that mails to [mother.user.email] does nothing, while the version that
    publishes to the topic sends the reminder. *)
Lemma api_accounts_get_no_mail_witness :
  let site := serveAll sampleRng samplePassword sampleHash sampleCompare acceptAll "24h"
                sampleMessage
                [Signup (Some "amina@example.com") sampleNow;
                 ResetPassword (GoodToken (mkToken "uuid-0000" "amina@example.com" "15m"))
                   "secret"]
                emptySite in
  let w := mkWorld {[reminderId dueForMember := dueForMember]} ∅ (motherOf <$> accounts site)
             sampleSchedule [] 0 in
  queryDue daily sampleNow (reminders w) = [dueForMember]
  /\ (handlerOf utc acceptAll "arn:aws:sns:topic" DailyMail sampleNow w).1 = w
  /\ length (mailLog (handlerOf utc acceptAll "arn:aws:sns:topic" DailyTopic sampleNow w).1)
     = 1%nat.
Proof.
  intros site w. split; [vm_compute; reflexivity|]. split; [|vm_compute; reflexivity].
  apply (api_accounts_get_no_mail sampleRng samplePassword sampleHash sampleCompare acceptAll
           "24h" sampleMessage
           [Signup (Some "amina@example.com") sampleNow;
            ResetPassword (GoodToken (mkToken "uuid-0000" "amina@example.com" "15m")) "secret"]
           emptySite).
  - intros i a c Hi. unfold emptySite, accounts in Hi. by rewrite lookup_empty in Hi.
  - reflexivity.
  - reflexivity.
Defined.
